(** * hago: the WebSocket RPC correlation layer (websocket.go)

    A shallow embedding of [websocket.go]: the URL derivation, the
    authentication handshake, the correlation registry ([msgID], [pending]),
    the background reader and [sendCommand], followed by the properties the
    specification states about them.

    Conventions.
    - [int64] values are [Z] with the two's-complement wrap-around of
      [atomic.Int64.Add] written out ([wrap64]).
    - Go maps and channels are reference objects: maps live in a [heap]
      indexed by locations, channels in the session's [chans] store.
    - The peer and the network are scripts: a connection carries the frames
      the peer will send ([inbox]) and the results of the next writes
      ([wscript]); the frames written are appended to [outbox].
    - [select] with several ready cases picks one of them; the pick is a
      parameter ([pick : nat], an index into the ready cases).
    - Goroutines are interleaved at the granularity of the critical sections
      and atomic operations of the source ([Module Machine]). *)

From Stdlib Require Import ZArith Ascii String List Lia.
From stdpp Require Import base option list gmap strings.

Local Open Scope Z_scope.
Set Warnings "-register-all".
Set Warnings "-unused-pattern-matching-variable".

(** ** Errors *)

Inductive ctxError := Canceled | DeadlineExceeded.

(** Go [error] values, kept structured: [WrapError p e] is
    [fmt.Errorf("p: %w", e)]. *)
Inductive error :=
| ErrorString (msg : string)
| WrapError (prefix : string) (inner : error)
| WebSocketError (Code Message : string)
| ContextError (e : ctxError)
| UrlError (op url : string) (inner : error).

Definition dquote : string := String (ascii_of_nat 34) "".

(** [err.Error()] *)
Fixpoint Error_ (e : error) : string :=
  match e with
  | ErrorString msg => msg
  | WrapError p inner => p +:+ ": " +:+ Error_ inner
  | WebSocketError code msg => "websocket error [" +:+ code +:+ "]: " +:+ msg
  | ContextError Canceled => "context canceled"
  | ContextError DeadlineExceeded => "context deadline exceeded"
  | UrlError op u inner => op +:+ " " +:+ dquote +:+ u +:+ dquote +:+ ": " +:+ Error_ inner
  end.

(** [errors.Unwrap], iterated to the innermost error. *)
Fixpoint rootCause (e : error) : error :=
  match e with
  | WrapError _ inner => rootCause inner
  | UrlError _ _ inner => rootCause inner
  | _ => e
  end.

(** A Go result pair [(v, err)]: either a value or a non-nil error. *)
Inductive result (A : Type) :=
| Ok (v : A)
| Err (e : error).
Arguments Ok {A} v.
Arguments Err {A} e.

(** ** Strings (package strings) *)

Module strings.

Fixpoint HasPrefix (s p : string) {struct p} : bool :=
  match p, s with
  | EmptyString, _ => true
  | String a p', String b s' => if Ascii.eqb a b then HasPrefix s' p' else false
  | String _ _, EmptyString => false
  end.

(** [strings.TrimSuffix]: [s] without the trailing [suffix], or [s] itself. *)
Fixpoint TrimSuffix (s suffix : string) : string :=
  match s with
  | EmptyString => EmptyString
  | String c s' => if String.eqb s suffix then EmptyString else String c (TrimSuffix s' suffix)
  end.

(** [strings.Cut] at the first occurrence of a one-byte separator. *)
Fixpoint Cut (s : string) (sep : ascii) : string * string * bool :=
  match s with
  | EmptyString => (EmptyString, EmptyString, false)
  | String c s' =>
    if Ascii.eqb c sep then (EmptyString, s', true)
    else let '(before, after, found) := Cut s' sep in (String c before, after, found)
  end.

Fixpoint Count (s : string) (sep : ascii) : nat :=
  match s with
  | EmptyString => 0%nat
  | String c s' => ((if Ascii.eqb c sep then 1 else 0) + Count s' sep)%nat
  end.

Fixpoint Contains (s : string) (sep : ascii) : bool :=
  match s with
  | EmptyString => false
  | String c s' => Ascii.eqb c sep || Contains s' sep
  end.

Fixpoint HasSuffixByte (s : string) (c : ascii) : bool :=
  match s with
  | EmptyString => false
  | String a EmptyString => Ascii.eqb a c
  | String _ s' => HasSuffixByte s' c
  end.

Definition between (lo hi c : ascii) : bool :=
  (N.leb (N_of_ascii lo) (N_of_ascii c) && N.leb (N_of_ascii c) (N_of_ascii hi))%bool.

Definition isLower (c : ascii) : bool := between "a" "z" c.
Definition isUpper (c : ascii) : bool := between "A" "Z" c.
Definition isDigit (c : ascii) : bool := between "0" "9" c.

Definition toLowerByte (c : ascii) : ascii :=
  if isUpper c then ascii_of_N (N_of_ascii c + 32) else c.

Fixpoint ToLower (s : string) : string :=
  match s with
  | EmptyString => EmptyString
  | String c s' => String (toLowerByte c) (ToLower s')
  end.

(** [s[i:]] for [i = strings.LastIndex(s, c)], when [c] occurs in [s]. *)
Fixpoint fromLast (s : string) (c : ascii) : option string :=
  match s with
  | EmptyString => None
  | String a s' =>
    match fromLast s' c with
    | Some t => Some t
    | None => if Ascii.eqb a c then Some s else None
    end
  end.

Fixpoint allBytes (p : ascii -> bool) (s : string) : bool :=
  match s with
  | EmptyString => true
  | String c s' => p c && allBytes p s'
  end.

End strings.

(** ** URLs (package net/url)

    [url.Parse] and [URL.String] for URLs written with letters, digits and
    the bytes [- _ . ~ : / ? # = & +], with at most one [#]: the alphabet on
    which neither function escapes or unescapes anything.  User information,
    IPv6 literals and percent-escapes are outside this alphabet; [Parse]
    answers [errNotModelled] for them and no statement below is about that
    answer. *)

Module url.
Import strings.

Record URL := mkURL {
  Scheme : string;
  Opaque : string;      (* encoded opaque data *)
  Host : string;        (* host or host:port *)
  Path : string;
  ForceQuery : bool;    (* append a query ('?') even if RawQuery is empty *)
  OmitHost : bool;      (* do not emit empty host (authority) *)
  RawQuery : string;
  Fragment : string
}.

Definition emptyURL : URL := mkURL "" "" "" "" false false "" "".

Definition setScheme (v : string) (u : URL) : URL :=
  mkURL v (Opaque u) (Host u) (Path u) (ForceQuery u) (OmitHost u) (RawQuery u) (Fragment u).
Definition setPath (v : string) (u : URL) : URL :=
  mkURL (Scheme u) (Opaque u) (Host u) v (ForceQuery u) (OmitHost u) (RawQuery u) (Fragment u).
Definition setFragment (v : string) (u : URL) : URL :=
  mkURL (Scheme u) (Opaque u) (Host u) (Path u) (ForceQuery u) (OmitHost u) (RawQuery u) v.

Definition errNotModelled : error := ErrorString "net/url: outside the modelled alphabet".

Definition plainByte (c : ascii) : bool :=
  (isLower c || isUpper c || isDigit c
   || Ascii.eqb c "-" || Ascii.eqb c "_" || Ascii.eqb c "." || Ascii.eqb c "~"
   || Ascii.eqb c ":" || Ascii.eqb c "/" || Ascii.eqb c "?" || Ascii.eqb c "#"
   || Ascii.eqb c "=" || Ascii.eqb c "&" || Ascii.eqb c "+")%bool.

Definition modelled (s : string) : bool :=
  (allBytes plainByte s && Nat.leb (Count s "#") 1)%bool.

(** [getScheme]: the scan for a leading [scheme:]. *)
Inductive schemeScan :=
| ScanMissing                        (* error: missing protocol scheme *)
| ScanNone                           (* no scheme: the whole input is the rest *)
| ScanAt (scheme rest : string).

Fixpoint scanScheme (first : bool) (s : string) : schemeScan :=
  match s with
  | EmptyString => ScanNone
  | String c s' =>
    let continue :=
      match scanScheme false s' with
      | ScanAt sc rest => ScanAt (String c sc) rest
      | _ => ScanNone
      end in
    if (isLower c || isUpper c)%bool then continue
    else if (isDigit c || Ascii.eqb c "+" || Ascii.eqb c "-" || Ascii.eqb c ".")%bool
    then (if first then ScanNone else continue)
    else if Ascii.eqb c ":" then (if first then ScanMissing else ScanAt "" s')
    else ScanNone
  end.

Definition getScheme (rawURL : string) : result (string * string) :=
  match scanScheme true rawURL with
  | ScanMissing => Err (ErrorString "missing protocol scheme")
  | ScanNone => Ok (EmptyString, rawURL)
  | ScanAt sc rest => Ok (sc, rest)
  end.

(** [validOptionalPort]: empty, or a colon followed by digits. *)
Definition validOptionalPort (port : string) : bool :=
  match port with
  | EmptyString => true
  | String c ds => Ascii.eqb c ":" && allBytes isDigit ds
  end.

(** [parseHost], without brackets: the text after the last colon must be a
    port. *)
Definition parseHost (host : string) : result string :=
  match fromLast host ":" with
  | Some colonPort =>
    if validOptionalPort colonPort then Ok host
    else Err (ErrorString ("invalid port " +:+ dquote +:+ colonPort +:+ dquote +:+ " after host"))
  | None => Ok host
  end.

(** [parse(rawURL, viaRequest = false)], after the fragment was cut off. *)
Definition parse (rawURL : string) : result URL :=
  if String.eqb rawURL "*" then Ok (setPath "*" emptyURL) else
  match getScheme rawURL with
  | Err e => Err e
  | Ok (scheme0, rest0) =>
    let scheme := ToLower scheme0 in
    let '(rest, rawQuery, forceQuery) :=
      if (HasSuffixByte rest0 "?" && Nat.eqb (Count rest0 "?") 1)%bool
      then (fst (fst (Cut rest0 "?")), EmptyString, true)
      else let '(r, q, _) := Cut rest0 "?" in (r, q, false) in
    let u := mkURL scheme "" "" "" forceQuery false rawQuery "" in
    if negb (HasPrefix rest "/") then
      if negb (String.eqb scheme "") then
        (* rootless paths are opaque *)
        Ok (mkURL scheme rest "" "" forceQuery false rawQuery "")
      else if Contains (fst (fst (Cut rest "/"))) ":" then
        Err (ErrorString "first path segment in URL cannot contain colon")
      else Ok (setPath rest u)
    else if ((negb (String.eqb scheme "") || negb (HasPrefix rest "///"))
               && HasPrefix rest "//")%bool then
      let after := match rest with String _ (String _ r) => r | _ => EmptyString end in
      let '(authority, tail, found) := Cut after "/" in
      let path := if found then String "/" tail else EmptyString in
      match parseHost authority with
      | Err e => Err e
      | Ok host => Ok (mkURL scheme "" host path forceQuery false rawQuery "")
      end
    else if negb (String.eqb scheme "") then
      Ok (mkURL scheme "" "" rest forceQuery true rawQuery "")
    else Ok (setPath rest u)
  end.

(** [url.Parse] *)
Definition Parse (rawURL : string) : result URL :=
  if negb (modelled rawURL) then Err (UrlError "parse" rawURL errNotModelled) else
  let '(u, frag, _) := Cut rawURL "#" in
  match parse u with
  | Err e => Err (UrlError "parse" u e)
  | Ok parsed => Ok (setFragment frag parsed)
  end.

(** [URL.String], on the modelled alphabet (nothing is escaped). *)
Definition String_ (u : URL) : string :=
  let scheme := if String.eqb (Scheme u) "" then EmptyString else Scheme u +:+ ":" in
  let body :=
    if negb (String.eqb (Opaque u) "") then Opaque u
    else
      let authority :=
        if (negb (String.eqb (Scheme u) "") || negb (String.eqb (Host u) ""))%bool then
          if (OmitHost u && String.eqb (Host u) "")%bool then EmptyString
          else (if (negb (String.eqb (Host u) "") || negb (String.eqb (Path u) ""))%bool
                then "//" else EmptyString) +:+ Host u
        else EmptyString in
      let slash :=
        if (negb (String.eqb (Path u) "") && negb (HasPrefix (Path u) "/")
            && negb (String.eqb (Host u) ""))%bool then "/" else EmptyString in
      let dot :=
        if (String.eqb scheme "" && String.eqb authority ""
            && Contains (fst (fst (Cut (Path u) "/"))) ":")%bool then "./" else EmptyString in
      authority +:+ slash +:+ dot +:+ Path u in
  let query :=
    if (ForceQuery u || negb (String.eqb (RawQuery u) ""))%bool
    then "?" +:+ RawQuery u else EmptyString in
  let fragment :=
    if negb (String.eqb (Fragment u) "") then "#" +:+ Fragment u else EmptyString in
  scheme +:+ body +:+ query +:+ fragment.



End url.

(** ** JSON documents and Go values (package encoding/json)

    A marshalled document is kept as its syntax tree.  Numbers are the
    integers; object fields are kept in order, duplicates included. *)

Inductive json :=
| JNull
| JBool (b : bool)
| JNumber (n : Z)
| JString (s : string)
| JArray (items : list json)
| JObject (fields : list (string * json)).

Abbreviation loc := nat (only parsing).

(** The values a caller can pass as [cmd any]. *)
Inductive value :=
| VNil                    (* nil: untyped, or a nil map or pointer *)
| VMap (l : loc)          (* a map[string]any, by reference *)
| VOther (doc : json)     (* a struct, slice, string, number or bool, by its encoding *)
| VUnsupported.           (* a func, chan or complex value *)

(** The map objects of the program.  The value of a field is kept as its
    JSON document. *)
Abbreviation heap := (gmap loc (gmap string json)).

(** A map variable: a reference, or the nil map. *)
Abbreviation mapvar := (option loc).

(** [json.Marshal].  A location without an object is the nil map, which
    marshals to null like every nil value. *)
Definition Marshal (h : heap) (v : value) : result json :=
  match v with
  | VNil => Ok JNull
  | VMap l =>
    match h !! l with
    | Some m => Ok (JObject (map_to_list m))
    | None => Ok JNull
    end
  | VOther doc => Ok doc
  | VUnsupported => Err (ErrorString "json: unsupported type")
  end.

Definition jsonKind (doc : json) : string :=
  match doc with
  | JNull => "null"
  | JBool _ => "bool"
  | JNumber _ => "number"
  | JString _ => "string"
  | JArray _ => "array"
  | JObject _ => "object"
  end.

(** [make(map[string]any)] *)
Definition makeMap (h : heap) : loc * heap :=
  let l := fresh (dom h) in (l, <[l := ∅]> h).

(** Decoding an object into a map stores the fields in order: the last
    duplicate wins. *)
Definition storeFields (fields : list (string * json)) (m : gmap string json)
  : gmap string json :=
  foldl (fun acc kv => <[kv.1 := kv.2]> acc) m fields.

(** [json.Unmarshal(data, &m)] for a map variable [m]: an object is stored
    into the map (made first when [m] is nil), [null] sets [m] to nil, and
    every other document is an error. *)
Definition Unmarshal (data : json) (m : mapvar) (h : heap) : result (mapvar * heap) :=
  match data with
  | JObject fields =>
    match m with
    | Some l => Ok (Some l, <[l := storeFields fields (default ∅ (h !! l))]> h)
    | None => let '(l, h') := makeMap h in Ok (Some l, <[l := storeFields fields ∅]> h')
    end
  | JNull => Ok (None, h)
  | other =>
    Err (ErrorString ("json: cannot unmarshal " +:+ jsonKind other
                      +:+ " into Go value of type map[string]interface {}"))
  end.

(** [m[k] = v]: [None] is the run-time panic of assigning into a nil map. *)
Definition mapassign (m : mapvar) (k : string) (v : json) (h : heap) : option heap :=
  match m with
  | Some l => Some (<[l := <[k := v]> (default ∅ (h !! l))]> h)
  | None => None
  end.

(** The object a map variable denotes. *)
Definition mapvalue (m : mapvar) (h : heap) : gmap string json :=
  default ∅ (m ≫= (h !!.)).

(** ** Connections (package gorilla/websocket) *)

Record wsError := mkWsError { wsError_Code : string; wsError_Message : string }.

(** [wsResponse]: a decoded inbound frame.  [Result] is the raw JSON text. *)
Record wsResponse := mkWsResponse {
  ID : Z;
  Type_ : string;
  Success : bool;
  Result : string;
  Error : option wsError;
  HAVersion : string;
  Message : string
}.

Inductive readResult :=
| Frame (r : wsResponse)     (* the peer sends a frame that decodes to r *)
| ReadError (e : error).     (* the read or the decoding fails *)

Record Conn := mkConn {
  inbox : list readResult;              (* what the next reads will see *)
  wscript : list (option error);        (* how the next writes will end *)
  outbox : list (gmap string json);     (* the objects written so far *)
  closed : bool
}.

Definition errClosed : error := ErrorString "use of closed network connection".
Definition errEOF : error := ErrorString "unexpected EOF".

(** [conn.ReadJSON(&v)] *)
Definition ReadJSON (c : Conn) : result wsResponse * Conn :=
  if closed c then (Err errClosed, c) else
  match inbox c with
  | [] => (Err errEOF, c)
  | Frame r :: rest => (Ok r, mkConn rest (wscript c) (outbox c) (closed c))
  | ReadError e :: rest => (Err e, mkConn rest (wscript c) (outbox c) (closed c))
  end.

(** [conn.WriteJSON(v)] for an object [v]. *)
Definition WriteJSON (v : gmap string json) (c : Conn) : option error * Conn :=
  if closed c then (Some errClosed, c) else
  match wscript c with
  | Some e :: rest => (Some e, mkConn (inbox c) rest (outbox c) (closed c))
  | None :: rest => (None, mkConn (inbox c) rest (outbox c ++ [v]) (closed c))
  | [] => (None, mkConn (inbox c) [] (outbox c ++ [v]) (closed c))
  end.

(** [conn.Close()] *)
Definition Close (c : Conn) : Conn := mkConn (inbox c) (wscript c) (outbox c) true.

(** ** The session: wsConn *)

Abbreviation chan := nat (only parsing).

(** [closeOnce] is represented by [done]: the function it guards is the
    only code that closes [done], so it has fired exactly when [done] is
    closed.  The mutexes [mu] and [pendingMu] are the atomicity of the
    operations below. *)
Record wsConn := mkWsConn {
  conn : Conn;
  msgID : Z;
  pending : gmap Z chan;
  chans : list (list wsResponse);   (* the channels made so far, by address: buffered contents *)
  done : bool
}.

Definition setConn (c : Conn) (ws : wsConn) : wsConn :=
  mkWsConn c (msgID ws) (pending ws) (chans ws) (done ws).
Definition setMsgID (n : Z) (ws : wsConn) : wsConn :=
  mkWsConn (conn ws) n (pending ws) (chans ws) (done ws).
Definition setPending (p : gmap Z chan) (ws : wsConn) : wsConn :=
  mkWsConn (conn ws) (msgID ws) p (chans ws) (done ws).
Definition setChans (cs : list (list wsResponse)) (ws : wsConn) : wsConn :=
  mkWsConn (conn ws) (msgID ws) (pending ws) cs (done ws).

Definition newWsConn (c : Conn) : wsConn := mkWsConn c 0 ∅ [] false.

Definition min_int64 : Z := - 2 ^ 63.
Definition max_int64 : Z := 2 ^ 63 - 1.

(** Two's-complement wrap-around of int64 arithmetic. *)
Definition wrap64 (z : Z) : Z := (z + 2 ^ 63) mod 2 ^ 64 - 2 ^ 63.

(** [ws.msgID.Add(1)] *)
Definition nextID (ws : wsConn) : Z * wsConn :=
  let id := wrap64 (msgID ws + 1) in (id, setMsgID id ws).

(** [make(chan *wsResponse, 1)] *)
Definition makeChan (ws : wsConn) : chan * wsConn :=
  (length (chans ws), setChans (chans ws ++ [[]]) ws).

(** Lines 203-206: make the response channel and store it under [id]. *)
Definition register (id : Z) (ws : wsConn) : chan * wsConn :=
  let '(respCh, ws) := makeChan ws in
  (respCh, setPending (<[id := respCh]> (pending ws)) ws).

(** The deferred function of [sendCommand]: [delete(ws.pending, id)]. *)
Definition unregister (id : Z) (ws : wsConn) : wsConn :=
  setPending (delete id (pending ws)) ws.

(** [ch <- v] on a channel of capacity 1: [None] when the buffer is full
    (or the channel does not exist) and the sender would block. *)
Definition chanSend (ch : chan) (v : wsResponse) (ws : wsConn) : option wsConn :=
  match chans ws !! ch with
  | Some [] => Some (setChans (<[ch := [v]]> (chans ws)) ws)
  | _ => None
  end.

(** [ws.close()] *)
Definition close (ws : wsConn) : wsConn :=
  if done ws then ws
  else mkWsConn (Close (conn ws)) (msgID ws) (pending ws) (chans ws) true.

(** [authenticate]: the handshake on a fresh connection. *)
Definition authMessage (token : string) : gmap string json :=
  {[ "type" := JString "auth"; "access_token" := JString token ]}.

Definition authenticate (token : string) (ws : wsConn) : option error * wsConn :=
  (* Read auth_required message *)
  match ReadJSON (conn ws) with
  | (Err err, c) => (Some (WrapError "read auth_required" err), setConn c ws)
  | (Ok authReq, c) =>
    let ws := setConn c ws in
    if negb (String.eqb (Type_ authReq) "auth_required") then
      (Some (ErrorString ("expected auth_required, got " +:+ Type_ authReq)), ws)
    else
      (* Send auth message *)
      match WriteJSON (authMessage token) (conn ws) with
      | (Some err, c) => (Some (WrapError "write auth" err), setConn c ws)
      | (None, c) =>
        let ws := setConn c ws in
        (* Read auth response *)
        match ReadJSON (conn ws) with
        | (Err err, c) => (Some (WrapError "read auth response" err), setConn c ws)
        | (Ok authResp, c) =>
          let ws := setConn c ws in
          if String.eqb (Type_ authResp) "auth_ok" then (None, ws)
          else if String.eqb (Type_ authResp) "auth_invalid" then
            let msg := if String.eqb (Message authResp) "" then "invalid authentication"
                       else Message authResp in
            (Some (ErrorString ("auth failed: " +:+ msg)), ws)
          else (Some (ErrorString ("unexpected auth response: " +:+ Type_ authResp)), ws)
        end
      end
  end.

(** Lines 186-193 of [reader]: dispatch a response to the waiting caller,
    under [pendingMu].  [None]: the send blocks, with the mutex held. *)
Definition dispatch (resp : wsResponse) (ws : wsConn) : option wsConn :=
  if Z.eqb (ID resp) 0 then Some ws else
  match pending ws !! ID resp with
  | Some ch =>
    match chanSend ch resp ws with
    | Some ws' => Some (setPending (delete (ID resp) (pending ws')) ws')
    | None => None
    end
  | None => Some ws
  end.

(** One iteration of the loop of [reader]; the flag tells whether the loop
    goes on.  On a read error the function returns and the deferred
    [ws.close()] runs. *)
Definition readerIter (ws : wsConn) : option (wsConn * bool) :=
  match ReadJSON (conn ws) with
  | (Err _, c) => Some (close (setConn c ws), false)
  | (Ok resp, c) =>
    match dispatch resp (setConn c ws) with
    | Some ws' => Some (ws', true)
    | None => None
    end
  end.

(** At most [n] iterations of [reader]. *)
Fixpoint readerRun (n : nat) (ws : wsConn) : option wsConn :=
  match n with
  | O => Some ws
  | S n' =>
    match readerIter ws with
    | Some (ws', true) => readerRun n' ws'
    | Some (ws', false) => Some ws'
    | None => None
    end
  end.

(** [reader], run until it returns: every iteration consumes a frame of the
    inbox or is the last one. *)
Definition reader (ws : wsConn) : option wsConn :=
  readerRun (S (length (inbox (conn ws)))) ws.

(** ** sendCommand *)

Definition Context := option ctxError.   (* [Some e]: Done is closed and Err() is e *)

Inductive outcome :=
| Return (r : result wsResponse)
| Panic (msg : string)
| Blocks.                                 (* the goroutine waits forever *)

Inductive selectCase :=
| CaseCtxDone (e : ctxError)      (* case <-ctx.Done() *)
| CaseWsDone                      (* case <-ws.done *)
| CaseResp (resp : wsResponse).   (* case resp := <-respCh *)

(** The cases of the select statement that can proceed, in source order. *)
Definition ready (ctx : Context) (respCh : chan) (ws : wsConn) : list selectCase :=
  match ctx with Some e => [CaseCtxDone e] | None => [] end
  ++ (if done ws then [CaseWsDone] else [])
  ++ match chans ws !! respCh with
     | Some (resp :: _) => [CaseResp resp]
     | _ => []
     end.

(** Select picks one of the ready cases; with none it blocks. *)
Definition choose (pick : nat) (cases : list selectCase) : option selectCase :=
  cases !! (pick mod length cases)%nat.

(** [<-respCh]: take the buffered response out of the channel. *)
Definition chanRecv (ch : chan) (ws : wsConn) : wsConn :=
  setChans (<[ch := tail (default [] (chans ws !! ch))]> (chans ws)) ws.

(** Lines 241-250: what [sendCommand] returns for a received response. *)
Definition received (resp : wsResponse) : result wsResponse :=
  match Error resp with
  | Some e => Err (WebSocketError (wsError_Code e) (wsError_Message e))
  | None =>
    if (negb (Success resp) && String.eqb (Type_ resp) "result")%bool
    then Err (ErrorString "command failed")
    else Ok resp
  end.

Record world := mkWorld { objs : heap; sess : wsConn }.

(** [defer f]: [f] runs when the body returns or panics. *)
Definition defer (f : wsConn -> wsConn) (body : outcome * world) : outcome * world :=
  match body with
  | (Blocks, w) => (Blocks, w)
  | (out, w) => (out, mkWorld (objs w) (f (sess w)))
  end.

(** [sendCommand ctx cmd].  [bg] is the number of iterations the reader
    goroutine performs between the write and the select; [pick] is the
    choice of the select among its ready cases.  The call [Blocks] when no
    case of the select is ready, or when the reader is stuck in its send with
    [pendingMu] held. *)
Definition sendCommand (ctx : Context) (cmd : value) (bg pick : nat) (w : world)
  : outcome * world :=
  (* Get next message ID *)
  let '(id, ws) := nextID (sess w) in
  (* Create response channel *)
  let '(respCh, ws) := register id ws in
  (* Ensure cleanup *)
  defer (unregister id)
    (* Marshal command with ID *)
    (let '(cmdMap, h) := makeMap (objs w) in
     match Marshal h cmd with
     | Err err => (Return (Err (WrapError "marshal command" err)), mkWorld h ws)
     | Ok data =>
       match Unmarshal data (Some cmdMap) h with
       | Err err => (Return (Err (WrapError "unmarshal command" err)), mkWorld h ws)
       | Ok (cmdMap, h) =>
         match mapassign cmdMap "id" (JNumber id) h with
         | None => (Panic "assignment to entry in nil map", mkWorld h ws)
         | Some h =>
           (* Send command *)
           let '(err, c) := WriteJSON (mapvalue cmdMap h) (conn ws) in
           let ws := setConn c ws in
           match err with
           | Some err => (Return (Err (WrapError "write command" err)), mkWorld h ws)
           | None =>
             (* Wait for response *)
             match readerRun bg ws with
             | None => (Blocks, mkWorld h ws)
             | Some ws =>
               match choose pick (ready ctx respCh ws) with
               | None => (Blocks, mkWorld h ws)
               | Some (CaseCtxDone e) => (Return (Err (ContextError e)), mkWorld h ws)
               | Some CaseWsDone =>
                 (Return (Err (ErrorString "websocket connection closed")), mkWorld h ws)
               | Some (CaseResp resp) =>
                 (Return (received resp), mkWorld h (chanRecv respCh ws))
               end
             end
           end
         end
       end
     end).

(** ** Client *)

Record Client := mkClient {
  baseURL : string;
  token : string;
  ws : option wsConn
}.

Definition setWs (s : option wsConn) (c : Client) : Client :=
  mkClient (baseURL c) (token c) s.

(** [buildWebSocketURL] *)
Definition buildWebSocketURL (c : Client) : result string :=
  match url.Parse (baseURL c) with
  | Err err => Err err
  | Ok u =>
    (* Convert http(s) to ws(s) *)
    let converted :=
      if String.eqb (url.Scheme u) "http" then Ok (url.setScheme "ws" u)
      else if String.eqb (url.Scheme u) "https" then Ok (url.setScheme "wss" u)
      else Err (ErrorString ("unsupported scheme: " +:+ url.Scheme u)) in
    match converted with
    | Err err => Err err
    | Ok u =>
      let u := url.setPath (strings.TrimSuffix (url.Path u) "/" +:+ "/api/websocket") u in
      Ok (url.String_ u)
    end
  end.


(** What one call of [connectWebSocket] leaves behind. *)
Record connected := mkConnected {
  connErr : option error;   (* the returned error *)
  client : Client;          (* the client after the call *)
  dropped : option Conn;    (* the connection this call dialled and did not keep *)
  spawned : bool            (* [go ws.reader()] ran *)
}.

(** [connectWebSocket].  [dial] is the network: the result of
    [dialer.DialContext] for a URL. *)
Definition connectWebSocket (dial : string -> result Conn) (c : Client) : connected :=
  let live := match ws c with Some s => negb (done s) | None => false end in
  (* Already connected *)
  if live then mkConnected None c None false else
  (* Build WebSocket URL *)
  match buildWebSocketURL c with
  | Err err => mkConnected (Some (WrapError "build websocket URL" err)) c None false
  | Ok wsURL =>
    (* Connect *)
    match dial wsURL with
    | Err err => mkConnected (Some (WrapError "websocket dial" err)) c None false
    | Ok cn =>
      let s := newWsConn cn in
      (* Authenticate *)
      match authenticate (token c) s with
      | (Some err, s) =>
        mkConnected (Some (WrapError "websocket auth" err)) c (Some (Close (conn s))) false
      | (None, s) =>
        (* Start reader goroutine *)
        mkConnected None (setWs (Some s) c) None true
      end
    end
  end.

(** [CloseWebSocket]: the client, and the session it closed (other
    goroutines may still hold it). *)
Definition CloseWebSocket (c : Client) : Client * option wsConn :=
  match ws c with
  | Some s => (setWs None c, Some (close s))
  | None => (c, None)
  end.

(** [wsCommand], up to the decoding of the result into the caller's target:
    [decode] is [json.Unmarshal(resp.Result, result)], consulted for a
    non-empty payload (a nil target is the decoder that always succeeds). *)
Definition wsCommand (dial : string -> result Conn) (decode : string -> option error)
    (ctx : Context) (cmd : value) (bg pick : nat) (c : Client) (h : heap)
  : outcome * Client * heap :=
  (* Ensure connected *)
  let r := connectWebSocket dial c in
  match connErr r, ws (client r) with
  | Some err, _ => (Return (Err err), client r, h)
  | None, None => (Panic "invalid memory address or nil pointer dereference", client r, h)
  | None, Some s =>
    (* Send command *)
    let '(out, w) := sendCommand ctx cmd bg pick (mkWorld h s) in
    let c' := setWs (Some (sess w)) (client r) in
    match out with
    | Return (Ok resp) =>
      (* Decode result if provided *)
      match (if String.eqb (Result resp) "" then None else decode (Result resp)) with
      | Some err => (Return (Err (WrapError "decode result" err)), c', objs w)
      | None => (Return (Ok resp), c', objs w)
      end
    | other => (other, c', objs w)
    end
  end.

(** ** Goroutines

    The callers of [sendCommand] on one session, the reader goroutine and
    the cancellation of contexts, interleaved.  A caller moves from one
    synchronisation point of [sendCommand] to the next in one step. *)

Module Machine.

Inductive frame :=
| AtEntry                                              (* before line 200 *)
| AtRegister (id : Z)                                  (* before lines 203-206 *)
| AtEncode (id : Z) (respCh : chan)                    (* before lines 216-224 *)
| AtWrite (id : Z) (respCh : chan) (cmdMap : mapvar)   (* before lines 227-232 *)
| AtSelect (id : Z) (respCh : chan)                    (* at the select, lines 235-251 *)
| AtDefer (id : Z) (respCh : chan) (out : outcome)     (* before the deferred delete *)
| Returned (id : Z) (out : outcome).

Record goroutine := mkGo { g_ctx : Context; g_cmd : value; g_at : frame }.

Record state := mkState { store : world; callers : list goroutine }.

Definition goto (f : frame) (g : goroutine) : goroutine := mkGo (g_ctx g) (g_cmd g) f.

(** One step of a caller; [None] when it has returned or is blocked. *)
Definition callerStep (pick : nat) (g : goroutine) (w : world) : option (goroutine * world) :=
  let h := objs w in
  match g_at g with
  | AtEntry =>
    let '(id, ws) := nextID (sess w) in Some (goto (AtRegister id) g, mkWorld h ws)
  | AtRegister id =>
    let '(respCh, ws) := register id (sess w) in Some (goto (AtEncode id respCh) g, mkWorld h ws)
  | AtEncode id respCh =>
    let '(cmdMap, h) := makeMap h in
    match Marshal h (g_cmd g) with
    | Err err =>
      Some (goto (AtDefer id respCh (Return (Err (WrapError "marshal command" err)))) g,
            mkWorld h (sess w))
    | Ok data =>
      match Unmarshal data (Some cmdMap) h with
      | Err err =>
        Some (goto (AtDefer id respCh (Return (Err (WrapError "unmarshal command" err)))) g,
              mkWorld h (sess w))
      | Ok (cmdMap, h) =>
        match mapassign cmdMap "id" (JNumber id) h with
        | None =>
          Some (goto (AtDefer id respCh (Panic "assignment to entry in nil map")) g,
                mkWorld h (sess w))
        | Some h => Some (goto (AtWrite id respCh cmdMap) g, mkWorld h (sess w))
        end
      end
    end
  | AtWrite id respCh cmdMap =>
    let '(err, c) := WriteJSON (mapvalue cmdMap h) (conn (sess w)) in
    let ws := setConn c (sess w) in
    match err with
    | Some err =>
      Some (goto (AtDefer id respCh (Return (Err (WrapError "write command" err)))) g,
            mkWorld h ws)
    | None => Some (goto (AtSelect id respCh) g, mkWorld h ws)
    end
  | AtSelect id respCh =>
    match choose pick (ready (g_ctx g) respCh (sess w)) with
    | None => None
    | Some (CaseCtxDone e) =>
      Some (goto (AtDefer id respCh (Return (Err (ContextError e)))) g, w)
    | Some CaseWsDone =>
      Some (goto (AtDefer id respCh (Return (Err (ErrorString "websocket connection closed")))) g,
            w)
    | Some (CaseResp resp) =>
      Some (goto (AtDefer id respCh (Return (received resp))) g,
            mkWorld h (chanRecv respCh (sess w)))
    end
  | AtDefer id respCh out =>
    Some (goto (Returned id out) g, mkWorld h (unregister id (sess w)))
  | Returned _ _ => None
  end.

Inductive action :=
| Call (ctx : Context) (cmd : value)   (* a goroutine enters sendCommand *)
| Caller (i : nat) (pick : nat)        (* caller i takes a step *)
| Cancel (i : nat) (e : ctxError)      (* the context of caller i ends with e *)
| Reader                               (* the reader performs an iteration *)
| Shutdown.                            (* CloseWebSocket closes the session *)

Definition cancel (e : ctxError) (ctx : Context) : Context :=
  match ctx with Some e0 => Some e0 | None => Some e end.

Definition step (a : action) (s : state) : option state :=
  match a with
  | Call ctx cmd => Some (mkState (store s) (callers s ++ [mkGo ctx cmd AtEntry]))
  | Caller i pick =>
    match callers s !! i with
    | Some g =>
      match callerStep pick g (store s) with
      | Some (g', w') => Some (mkState w' (<[i := g']> (callers s)))
      | None => None
      end
    | None => None
    end
  | Cancel i e =>
    match callers s !! i with
    | Some g =>
      Some (mkState (store s) (<[i := mkGo (cancel e (g_ctx g)) (g_cmd g) (g_at g)]> (callers s)))
    | None => None
    end
  | Reader =>
    match readerIter (sess (store s)) with
    | Some (ws', _) => Some (mkState (mkWorld (objs (store s)) ws') (callers s))
    | None => None
    end
  | Shutdown => Some (mkState (mkWorld (objs (store s)) (close (sess (store s)))) (callers s))
  end.

Fixpoint run (tr : list action) (s : state) : option state :=
  match tr with
  | [] => Some s
  | a :: tr' =>
    match step a s with
    | Some s' => run tr' s'
    | None => None
    end
  end.

(** A session right after the handshake, with any connection and heap. *)
Definition init (h : heap) (c : Conn) : state := mkState (mkWorld h (newWsConn c)) [].

Definition reachable (s : state) : Prop := exists h c tr, run tr (init h c) = Some s.

(** The id a caller holds, once assigned. *)
Definition frameId (f : frame) : option Z :=
  match f with
  | AtEntry => None
  | AtRegister id | AtEncode id _ | AtWrite id _ _ | AtSelect id _
  | AtDefer id _ _ | Returned id _ => Some id
  end.

(** The id and channel of a call that registered and has not returned. *)
Definition inFlight (f : frame) : option (Z * chan) :=
  match f with
  | AtEncode id ch | AtWrite id ch _ | AtSelect id ch | AtDefer id ch _ => Some (id, ch)
  | _ => None
  end.

(** The response a call returns (or is about to return), with its id. *)
Definition answer (f : frame) : option (Z * wsResponse) :=
  match f with
  | AtDefer id _ (Return (Ok r)) | Returned id (Return (Ok r)) => Some (id, r)
  | _ => None
  end.

(** The correlation invariant, on the callers, the channels and the
    pending map: the channel of a call in flight holds only responses with
    the id of the call; a channel belongs to one call; a pending entry leads
    to the empty channel of a call in flight with that id; a call returns a
    response with its id. *)
Record Core (gs : list goroutine) (cs : list (list wsResponse)) (p : gmap Z chan)
  : Prop := mkCore {
  core_chan : forall i g id ch,
    gs !! i = Some g -> inFlight (g_at g) = Some (id, ch) ->
    exists buf, cs !! ch = Some buf /\ forall r, r ∈ buf -> ID r = id;
  core_owner : forall i j g g' id id' ch,
    gs !! i = Some g -> gs !! j = Some g' ->
    inFlight (g_at g) = Some (id, ch) -> inFlight (g_at g') = Some (id', ch) -> i = j;
  core_pending : forall id ch,
    p !! id = Some ch ->
    cs !! ch = Some [] /\
    exists i g, gs !! i = Some g /\ inFlight (g_at g) = Some (id, ch);
  core_answer : forall i g id r,
    gs !! i = Some g -> answer (g_at g) = Some (id, r) -> ID r = id
}.

Definition Inv (s : state) : Prop :=
  Core (callers s) (chans (sess (store s))) (pending (sess (store s)))
  /\ (done (sess (store s)) = true -> closed (conn (sess (store s))) = true).

(** The number of callers that went through [msgID.Add]. *)
Definition hasId (g : goroutine) : nat :=
  match frameId (g_at g) with Some _ => 1%nat | None => 0%nat end.

Fixpoint issued (gs : list goroutine) : nat :=
  match gs with
  | [] => 0%nat
  | g :: gs' => (hasId g + issued gs')%nat
  end.

(** The id invariant, which holds as long as the counter cannot have
    wrapped around. *)
Record IdInv (s : state) : Prop := mkIdInv {
  id_counter : msgID (sess (store s)) = Z.of_nat (issued (callers s));
  id_range : forall i g id,
    callers s !! i = Some g -> frameId (g_at g) = Some id ->
    1 <= id <= msgID (sess (store s));
  id_unique : forall i j g g' id,
    callers s !! i = Some g -> callers s !! j = Some g' ->
    frameId (g_at g) = Some id -> frameId (g_at g') = Some id -> i = j
}.

End Machine.


(** ** Conditions used in the statements *)

(** The writes of the script that succeed. *)
Definition writeSucceeds (c : Conn) : Prop :=
  closed c = false /\ (wscript c = [] \/ exists rest, wscript c = None :: rest).

(** Whether [connectWebSocket] has to connect: no session, or a closed one. *)
Definition needsConnect (c : Client) : Prop :=
  match ws c with Some s => done s = true | None => True end.

(** The client once the reader goroutine of its session has returned.  The
    goroutine holds the session ([reader] is a method of wsConn), not the
    client: it changes the session the field [ws] refers to, never the
    field. *)
Definition readerReturned (c : Client) : option Client :=
  match ws c with
  | Some s =>
    match reader s with
    | Some s' => Some (setWs (Some s') c)
    | None => None
    end
  | None => Some c
  end.

(** [n] callers that each went through [msgID.Add] and no further. *)
Fixpoint issueIds (n : nat) (s : Machine.state) : option Machine.state :=
  match n with
  | O => Some s
  | S n' =>
    match issueIds n' s with
    | Some s1 =>
      Machine.run [Machine.Call None VNil;
                   Machine.Caller (length (Machine.callers s1)) 0%nat] s1
    | None => None
    end
  end.

(** ** Further conditions on the goroutines *)

(** The ids in use are dense: every id from 1 up to the counter belongs to
    a call. *)
Definition Dense (s : Machine.state) : Prop :=
  forall id, 1 <= id <= msgID (sess (Machine.store s)) ->
    exists i g, Machine.callers s !! i = Some g
                /\ Machine.frameId (Machine.g_at g) = Some id.

(** * The REST client (client.go, errors.go, types.go, automation.go)

    The network and the JSON codec of the standard library are an
    environment ([Env]): every statement holds for every environment.  A
    function of the client returns, with its result, the HTTP requests it
    performed, in order. *)

From stdpp Require Import sorting.
Local Open Scope Z_scope.

(** ** Errors (errors.go) *)

(** The error variables of the package. *)
Inductive sentinel :=
| ErrNoBaseURL
| ErrNoToken
| ErrNotFound
| ErrUnauthorized
| ErrBadRequest
| ErrMethodNotAllowed.

Definition sentinel_eqb (a b : sentinel) : bool :=
  match a, b with
  | ErrNoBaseURL, ErrNoBaseURL | ErrNoToken, ErrNoToken | ErrNotFound, ErrNotFound
  | ErrUnauthorized, ErrUnauthorized | ErrBadRequest, ErrBadRequest
  | ErrMethodNotAllowed, ErrMethodNotAllowed => true
  | _, _ => false
  end.

(** The errors the REST functions return, kept structured.  [Wrapf p e] is
    [fmt.Errorf("p: %w", e)]; the errors of the libraries are the values of
    [error]. *)
Inductive hagoError :=
| Sentinel (s : sentinel)
| APIError (StatusCode : Z) (Status Message Body : string)
| RequestError (Op : string) (Err : error)
| Errorf (msg : string)
| Wrapf (prefix : string) (inner : hagoError)
| ScriptListError (err statesErr : hagoError).
    (* fmt.Errorf("script list: config endpoint failed (%w), states fallback also failed (%v)",
                  err, statesErr) *)

(** [errors.Is(err, target)] for a target among the error variables. *)
Fixpoint Is (err : hagoError) (target : sentinel) : bool :=
  match err with
  | Sentinel s => sentinel_eqb s target
  | Wrapf _ inner => Is inner target
  | ScriptListError inner _ => Is inner target
  | APIError _ _ _ _ | RequestError _ _ | Errorf _ => false
  end.

(** A Go result pair [(v, err)] of the REST functions. *)
Inductive hresult (A : Type) :=
| HOk (v : A)
| HErr (e : hagoError).
Arguments HOk {A} v.
Arguments HErr {A} e.

(** ** HTTP (package net/http) *)

Module http.

Record Request := mkRequest {
  Method : string;
  URL : string;
  Header : gmap string string;
  Body : option json              (* the encoded body; [None]: no body *)
}.

Record Response := mkResponse {
  StatusCode : Z;
  Status : string;
  Data : string;                  (* what reading the body yields ... *)
  ReadErr : option error          (* ... and the error that ends the reading, if any *)
}.

End http.

(** ** Types (types.go, automation.go) *)

(** A value of type [any] inside a request, by what [json.Marshal] makes of
    it: its encoding, or the encoder's error. *)
Abbreviation anyValue := (result json) (only parsing).

Record ServiceCallRequest := mkServiceCallRequest {
  EntityID : string;
  Data : gmap string anyValue     (* the nil map is the empty map *)
}.

Record StateContext := mkStateContext {
  Context_ID : string;
  ParentID : string;
  UserID : string
}.

Record State := mkState_ {
  State_EntityID : string;
  State_State : string;
  Attributes : gmap string json;  (* decoded JSON: a string is a [JString] *)
  LastChanged : string;           (* a time, by its text *)
  LastUpdated : string;
  State_Context : StateContext
}.

Record AutomationTriggerRequest := mkAutomationTriggerRequest {
  Trigger_EntityID : string;
  SkipCondition : option bool
}.

Record ScriptConfig := mkScriptConfig {
  Script_ID : string;
  Script_Alias : string;
  Sequence : option (list anyValue);     (* [None]: the nil slice *)
  Script_Mode : string;
  Script_Max : option Z;
  Icon : option string;
  Script_Description : option string;
  Fields : option (gmap string anyValue);
  Variables : option (gmap string anyValue)
}.

Record AutomationConfig := mkAutomationConfig {
  Automation_ID : string;
  Automation_Alias : string;
  Automation_Description : option string;
  Automation_Mode : string;
  MaxExceeded : option string;
  Automation_Max : option Z;
  Trigger : option (list anyValue);      (* [None]: the nil slice *)
  Condition : option (list anyValue);
  Action : option (list anyValue)
}.

(** ** The environment *)

Record Env := mkEnv {
  (* http.NewRequestWithContext(ctx, method, url, body): its error, if any *)
  newRequestError : string -> string -> option error;
  (* c.httpClient.Do(req) *)
  Do : http.Request -> result http.Response;
  (* json.Unmarshal(body, &errResp) in checkResponse: the message found *)
  unmarshalMessage : string -> result string;
  (* json.Marshal of a configuration *)
  marshalAutomationConfig : AutomationConfig -> result json;
  marshalScriptConfig : ScriptConfig -> result json;
  (* json.NewDecoder(resp.Body).Decode(&v), by the type of v *)
  decodeStates : http.Response -> result (list State);
  decodeAutomationConfig : http.Response -> result AutomationConfig;
  decodeAutomationConfigs : http.Response -> result (list AutomationConfig);
  decodeScriptConfig : http.Response -> result ScriptConfig;
  decodeScriptConfigs : http.Response -> result (list ScriptConfig)
}.

(** ** Encoding a map (package encoding/json)

    [json.Marshal] of a [map[string]any]: the keys in sorted order; the
    first value that cannot be encoded is the error. *)

Definition keyLe {A} (a b : string * A) : Prop := String.leb a.1 b.1 = true.

#[global] Instance keyLe_dec {A} (a b : string * A) : Decision (keyLe a b).
Proof. unfold keyLe. apply _. Defined.

Definition sortedFields {A} (m : gmap string A) : list (string * A) :=
  merge_sort keyLe (map_to_list m).

Fixpoint encodeFields (kvs : list (string * anyValue)) : result (list (string * json)) :=
  match kvs with
  | [] => Ok []
  | (k, Err e) :: _ => Err e
  | (k, Ok v) :: rest =>
    match encodeFields rest with
    | Ok fields => Ok ((k, v) :: fields)
    | Err e => Err e
    end
  end.

Definition marshalMap (m : gmap string anyValue) : result json :=
  match encodeFields (sortedFields m) with
  | Ok fields => Ok (JObject fields)
  | Err e => Err e
  end.

(** [ServiceCallRequest.MarshalJSON] *)
Definition ServiceCallRequest_MarshalJSON (s : ServiceCallRequest) : result json :=
  let m : gmap string anyValue := ∅ in
  let m := if negb (String.eqb (EntityID s) "") then <["entity_id" := Ok (JString (EntityID s))]> m
           else m in
  let m := foldl (fun acc kv => <[kv.1 := kv.2]> acc) m (map_to_list (Data s)) in
  marshalMap m.

(** A request body, by its Go type. *)
Inductive bodyValue :=
| BodyService (r : option ServiceCallRequest)   (* a *ServiceCallRequest; [None]: the nil pointer *)
| BodyAutomation (c : AutomationConfig)         (* a non-nil *AutomationConfig *)
| BodyScript (c : ScriptConfig)                 (* a non-nil *ScriptConfig *)
| BodyOther (enc : anyValue).                   (* any other value *)

(** [json.Marshal(body)].  A nil pointer of a type with a MarshalJSON method
    is encoded as null; the error of a method is reported by the encoder
    as a MarshalerError, which wraps it. *)
Definition marshalBody (env : Env) (body : bodyValue) : result json :=
  match body with
  | BodyService None => Ok JNull
  | BodyService (Some r) =>
    match ServiceCallRequest_MarshalJSON r with
    | Ok doc => Ok doc
    | Err e =>
      Err (WrapError "json: error calling MarshalJSON for type *hago.ServiceCallRequest" e)
    end
  | BodyAutomation c => marshalAutomationConfig env c
  | BodyScript c => marshalScriptConfig env c
  | BodyOther enc => enc
  end.

(** ** The client (client.go) *)

(** [doRequest] *)
Definition doRequest (env : Env) (c : Client) (method path : string) (body : option bodyValue)
  : list http.Request * hresult http.Response :=
  let marshalled :=
    match body with
    | Some b =>
      match marshalBody env b with
      | Ok jsonBody => HOk (Some jsonBody)
      | Err err => HErr (RequestError "marshal request body" err)
      end
    | None => HOk None
    end in
  match marshalled with
  | HErr e => ([], HErr e)
  | HOk bodyReader =>
    let reqURL := baseURL c +:+ path in
    match newRequestError env method reqURL with
    | Some err => ([], HErr (RequestError "create request" err))
    | None =>
      let req := http.mkRequest method reqURL
                   (<["Content-Type" := "application/json"]>
                      (<["Authorization" := "Bearer " +:+ token c]> ∅))
                   bodyReader in
      match Do env req with
      | Err err => ([req], HErr (RequestError "execute request" err))
      | Ok resp => ([req], HOk resp)
      end
    end
  end.

(** [checkResponse] *)
Definition checkResponse (env : Env) (resp : http.Response) : option hagoError :=
  let code := http.StatusCode resp in
  if andb (200 <=? code) (code <? 300) then None else
  let body := http.Data resp in
  (* Try to parse error message from JSON response *)
  let message :=
    match unmarshalMessage env body with
    | Ok m => if negb (String.eqb m "") then m else ""
    | Err _ => ""
    end in
  let apiErr := APIError code (http.Status resp) message body in
  if code =? 401 then Some (Sentinel ErrUnauthorized)
  else if code =? 404 then Some (Sentinel ErrNotFound)
  else if code =? 400 then
    if negb (String.eqb message "") then Some apiErr else Some (Sentinel ErrBadRequest)
  else if code =? 405 then Some (Sentinel ErrMethodNotAllowed)
  else Some apiErr.

(** [doJSON].  [result] is the decoder of the target, [None] for a nil
    target; the decoded value is returned. *)
Definition doJSON {A} (env : Env) (c : Client) (method path : string)
    (body : option bodyValue) (result : option (http.Response -> result A))
  : list http.Request * hresult (option A) :=
  match doRequest env c method path body with
  | (reqs, HErr err) => (reqs, HErr err)
  | (reqs, HOk resp) =>
    match checkResponse env resp with
    | Some err => (reqs, HErr err)
    | None =>
      match result with
      | Some decode =>
        match decode resp with
        | Err err => (reqs, HErr (RequestError "decode response" err))
        | Ok v => (reqs, HOk (Some v))
        end
      | None => (reqs, HOk None)
      end
    end
  end.

(** [doText] *)
Definition doText (env : Env) (c : Client) (method path : string) (body : option bodyValue)
  : list http.Request * hresult string :=
  match doRequest env c method path body with
  | (reqs, HErr err) => (reqs, HErr err)
  | (reqs, HOk resp) =>
    match checkResponse env resp with
    | Some err => (reqs, HErr err)
    | None =>
      match http.ReadErr resp with
      | Some err => (reqs, HErr (RequestError "read response body" err))
      | None => (reqs, HOk (http.Data resp))
      end
    end
  end.

(** [var result []T] decoded by [doJSON]: the value of [result] afterwards. *)
Definition decoded {A} (zero : A) (v : option A) : A := default zero v.

(** [CallService] *)
Definition CallService (env : Env) (c : Client) (domain service : string)
    (request : option ServiceCallRequest) : list http.Request * hresult (list State) :=
  let path := "/api/services/" +:+ domain +:+ "/" +:+ service in
  match doJSON env c "POST" path (Some (BodyService request)) (Some (decodeStates env)) with
  | (reqs, HErr err) => (reqs, HErr err)
  | (reqs, HOk result) => (reqs, HOk (decoded [] result))
  end.

(** [States] *)
Definition States (env : Env) (c : Client) : list http.Request * hresult (list State) :=
  match doJSON env c "GET" "/api/states" None (Some (decodeStates env)) with
  | (reqs, HErr err) => (reqs, HErr err)
  | (reqs, HOk result) => (reqs, HOk (decoded [] result))
  end.

(** ** Automations (automation.go) *)

(** [AutomationTrigger] *)
Definition AutomationTrigger (env : Env) (c : Client) (req : option AutomationTriggerRequest)
  : list http.Request * option hagoError :=
  match req with
  | None => ([], Some (Errorf "entity_id is required"))
  | Some req =>
    if String.eqb (Trigger_EntityID req) "" then ([], Some (Errorf "entity_id is required"))
    else
      let serviceReq := mkServiceCallRequest (Trigger_EntityID req) ∅ in
      (* Only include skip_condition if it's set *)
      let serviceReq :=
        match SkipCondition req with
        | Some b => mkServiceCallRequest (EntityID serviceReq)
                      (<["skip_condition" := Ok (JBool b)]> ∅)
        | None => serviceReq
        end in
      match CallService env c "automation" "trigger" (Some serviceReq) with
      | (reqs, HErr err) => (reqs, Some (Wrapf "automation trigger" err))
      | (reqs, HOk _) => (reqs, None)
      end
  end.

(** [AutomationTurnOn] *)
Definition AutomationTurnOn (env : Env) (c : Client) (entityID : string)
  : list http.Request * option hagoError :=
  if String.eqb entityID "" then ([], Some (Errorf "entity_id is required"))
  else
    match CallService env c "automation" "turn_on"
            (Some (mkServiceCallRequest entityID ∅)) with
    | (reqs, HErr err) => (reqs, Some (Wrapf "automation turn_on" err))
    | (reqs, HOk _) => (reqs, None)
    end.

(** [AutomationTurnOff] *)
Definition AutomationTurnOff (env : Env) (c : Client) (entityID : string)
  : list http.Request * option hagoError :=
  if String.eqb entityID "" then ([], Some (Errorf "entity_id is required"))
  else
    match CallService env c "automation" "turn_off"
            (Some (mkServiceCallRequest entityID ∅)) with
    | (reqs, HErr err) => (reqs, Some (Wrapf "automation turn_off" err))
    | (reqs, HOk _) => (reqs, None)
    end.

(** [AutomationToggle] *)
Definition AutomationToggle (env : Env) (c : Client) (entityID : string)
  : list http.Request * option hagoError :=
  if String.eqb entityID "" then ([], Some (Errorf "entity_id is required"))
  else
    match CallService env c "automation" "toggle"
            (Some (mkServiceCallRequest entityID ∅)) with
    | (reqs, HErr err) => (reqs, Some (Wrapf "automation toggle" err))
    | (reqs, HOk _) => (reqs, None)
    end.

(** [AutomationReload] *)
Definition AutomationReload (env : Env) (c : Client) : list http.Request * option hagoError :=
  match CallService env c "automation" "reload" None with
  | (reqs, HErr err) => (reqs, Some (Wrapf "automation reload" err))
  | (reqs, HOk _) => (reqs, None)
  end.

Definition zeroAutomationConfig : AutomationConfig :=
  mkAutomationConfig "" "" None "" None None None None None.

(** [AutomationGet] *)
Definition AutomationGet (env : Env) (c : Client) (id : string)
  : list http.Request * hresult AutomationConfig :=
  if String.eqb id "" then ([], HErr (Errorf "automation id is required"))
  else
    let path := "/api/config/automation/config/" +:+ id in
    match doJSON env c "GET" path None (Some (decodeAutomationConfig env)) with
    | (reqs, HErr err) => (reqs, HErr (Wrapf "automation get" err))
    | (reqs, HOk config) => (reqs, HOk (decoded zeroAutomationConfig config))
    end.

(** [AutomationSave] *)
Definition AutomationSave (env : Env) (c : Client) (config : option AutomationConfig)
  : list http.Request * option hagoError :=
  match config with
  | None => ([], Some (Errorf "automation config is required"))
  | Some config =>
    if String.eqb (Automation_ID config) "" then
      ([], Some (Errorf "automation id is required"))
    else if String.eqb (Automation_Alias config) "" then
      ([], Some (Errorf "automation alias is required"))
    else
      let path := "/api/config/automation/config/" +:+ Automation_ID config in
      match doJSON (A := unit) env c "POST" path (Some (BodyAutomation config)) None with
      | (reqs, HErr err) => (reqs, Some (Wrapf "automation save" err))
      | (reqs, HOk _) => (reqs, None)
      end
  end.

(** [AutomationDeleteConfig] *)
Definition AutomationDeleteConfig (env : Env) (c : Client) (id : string)
  : list http.Request * option hagoError :=
  if String.eqb id "" then ([], Some (Errorf "automation id is required"))
  else
    let path := "/api/config/automation/config/" +:+ id in
    match doJSON (A := unit) env c "DELETE" path None None with
    | (reqs, HErr err) => (reqs, Some (Wrapf "automation delete" err))
    | (reqs, HOk _) => (reqs, None)
    end.

(** ** Scripts (script.go) *)

(** [strings.TrimPrefix] *)
Definition TrimPrefix (s prefix : string) : string :=
  if strings.HasPrefix s prefix
  then String.substring (String.length prefix) (String.length s - String.length prefix) s
  else s.

(** [v, ok := attributes[key].(string)] *)
Definition stringAttr (attributes : gmap string json) (key : string) : option string :=
  match attributes !! key with
  | Some (JString s) => Some s
  | _ => None
  end.

(** The body of the loop of [ScriptList]: the configuration built for one
    state, [None] when the loop continues without one. *)
Definition scriptOfState (state : State) : option ScriptConfig :=
  if negb (strings.HasPrefix (State_EntityID state) "script.") then None
  else
    (* Extract friendly_name as alias if available *)
    let alias :=
      match stringAttr (Attributes state) "friendly_name" with
      | Some friendlyName => friendlyName
      | None => TrimPrefix (State_EntityID state) "script."
      end in
    (* Extract other attributes if available *)
    let description :=
      match stringAttr (Attributes state) "description" with
      | Some desc => if negb (String.eqb desc "") then Some desc else None
      | None => None
      end in
    let mode :=
      match stringAttr (Attributes state) "mode" with
      | Some mode => if negb (String.eqb mode "") then mode else ""
      | None => ""
      end in
    Some (mkScriptConfig (State_EntityID state) alias (Some []) mode None None description
            None None).

(** [ScriptList] *)
Definition ScriptList (env : Env) (c : Client) : list http.Request * hresult (list ScriptConfig) :=
  (* Try the undocumented config endpoint first *)
  match doJSON env c "GET" "/api/config/script/config" None (Some (decodeScriptConfigs env)) with
  | (reqs, HOk configs) => (reqs, HOk (decoded [] configs))
  | (reqs, HErr err) =>
    (* fall back to States API *)
    match States env c with
    | (reqs', HErr statesErr) => (reqs ++ reqs', HErr (ScriptListError err statesErr))
    | (reqs', HOk states) =>
      (* Filter for script.* entities and build basic configs *)
      let configs :=
        foldl (fun configs state =>
                 match scriptOfState state with
                 | None => configs
                 | Some config => configs ++ [config]
                 end) [] states in
      (reqs ++ reqs', HOk configs)
    end
  end.

Definition zeroScriptConfig : ScriptConfig :=
  mkScriptConfig "" "" None "" None None None None None.

(** [ScriptGet] *)
Definition ScriptGet (env : Env) (c : Client) (id : string)
  : list http.Request * hresult ScriptConfig :=
  if String.eqb id "" then ([], HErr (Errorf "script id is required"))
  else
    let path := "/api/config/script/config/" +:+ id in
    match doJSON env c "GET" path None (Some (decodeScriptConfig env)) with
    | (reqs, HErr err) => (reqs, HErr (Wrapf "script get" err))
    | (reqs, HOk config) => (reqs, HOk (decoded zeroScriptConfig config))
    end.

(** [ScriptSave] *)
Definition ScriptSave (env : Env) (c : Client) (config : option ScriptConfig)
  : list http.Request * option hagoError :=
  match config with
  | None => ([], Some (Errorf "script config is required"))
  | Some config =>
    if String.eqb (Script_ID config) "" then ([], Some (Errorf "script id is required"))
    else if String.eqb (Script_Alias config) "" then
      ([], Some (Errorf "script alias is required"))
    else if (length (default [] (Sequence config)) =? 0)%nat then
      ([], Some (Errorf "script sequence is required"))
    else
      let path := "/api/config/script/config/" +:+ Script_ID config in
      match doJSON (A := unit) env c "POST" path (Some (BodyScript config)) None with
      | (reqs, HErr err) => (reqs, Some (Wrapf "script save" err))
      | (reqs, HOk _) => (reqs, None)
      end
  end.

(** [ScriptDeleteConfig] *)
Definition ScriptDeleteConfig (env : Env) (c : Client) (id : string)
  : list http.Request * option hagoError :=
  if String.eqb id "" then ([], Some (Errorf "script id is required"))
  else
    let path := "/api/config/script/config/" +:+ id in
    match doJSON (A := unit) env c "DELETE" path None None with
    | (reqs, HErr err) => (reqs, Some (Wrapf "script delete" err))
    | (reqs, HOk _) => (reqs, None)
    end.

(** [ScriptReload] *)
Definition ScriptReload (env : Env) (c : Client) : list http.Request * option hagoError :=
  match CallService env c "script" "reload" None with
  | (reqs, HErr err) => (reqs, Some (Wrapf "script reload" err))
  | (reqs, HOk _) => (reqs, None)
  end.

(** [ScriptRun].  [variables] is a [map[string]any]; the nil map is the
    empty map. *)
Definition ScriptRun (env : Env) (c : Client) (entityID : string)
    (variables : gmap string anyValue) : list http.Request * option hagoError :=
  if String.eqb entityID "" then ([], Some (Errorf "entity_id is required"))
  else
    (* Extract script name from entity_id *)
    let scriptName := TrimPrefix entityID "script." in
    if String.eqb scriptName entityID then
      ([], Some (Errorf ("invalid entity_id format: expected 'script.*', got '"
                         +:+ entityID +:+ "'")))
    else
      (* Call the script as a service with variables as service data *)
      match CallService env c "script" scriptName
              (Some (mkServiceCallRequest "" variables)) with
      | (reqs, HErr err) => (reqs, Some (Wrapf "script run" err))
      | (reqs, HOk _) => (reqs, None)
      end.

(** [ScriptTurnOn] *)
Definition ScriptTurnOn (env : Env) (c : Client) (entityID : string)
    (variables : gmap string anyValue) : list http.Request * option hagoError :=
  if String.eqb entityID "" then ([], Some (Errorf "entity_id is required"))
  else
    let req := mkServiceCallRequest entityID ∅ in
    (* If variables are provided, nest them under "variables" key *)
    let req :=
      if (0 <? size variables)%nat
      then mkServiceCallRequest (EntityID req) (<["variables" := marshalMap variables]> ∅)
      else req in
    match CallService env c "script" "turn_on" (Some req) with
    | (reqs, HErr err) => (reqs, Some (Wrapf "script turn_on" err))
    | (reqs, HOk _) => (reqs, None)
    end.

(** [ScriptTurnOff] *)
Definition ScriptTurnOff (env : Env) (c : Client) (entityID : string)
  : list http.Request * option hagoError :=
  if String.eqb entityID "" then ([], Some (Errorf "entity_id is required"))
  else
    match CallService env c "script" "turn_off" (Some (mkServiceCallRequest entityID ∅)) with
    | (reqs, HErr err) => (reqs, Some (Wrapf "script turn_off" err))
    | (reqs, HOk _) => (reqs, None)
    end.

(** [ScriptToggle] *)
Definition ScriptToggle (env : Env) (c : Client) (entityID : string)
  : list http.Request * option hagoError :=
  if String.eqb entityID "" then ([], Some (Errorf "entity_id is required"))
  else
    match CallService env c "script" "toggle" (Some (mkServiceCallRequest entityID ∅)) with
    | (reqs, HErr err) => (reqs, Some (Wrapf "script toggle" err))
    | (reqs, HOk _) => (reqs, None)
    end.

(** ** Conditions used in the statements about the REST client *)

(** What a function that calls a service does, seen from outside: [r] is
    what it returns (the requests performed and the error), [op] the name
    it wraps errors with, [body] the encoded request. *)
Definition postsService (env : Env) (c : Client) (r : list http.Request * option hagoError)
    (op domain service : string) (body : json) : Prop :=
  let url := baseURL c +:+ ("/api/services/" +:+ domain +:+ "/" +:+ service) in
  (forall e, newRequestError env "POST" url = Some e ->
     r = ([], Some (Wrapf op (RequestError "create request" e))))
  /\ (newRequestError env "POST" url = None ->
      exists req, r.1 = [req]
        /\ http.Method req = "POST" /\ http.URL req = url
        /\ http.Header req !! "Authorization" = Some ("Bearer " +:+ token c)
        /\ http.Header req !! "Content-Type" = Some "application/json"
        /\ http.Body req = Some body
        /\ (r.2 = None <->
            exists resp states, Do env req = Ok resp
              /\ 200 <= http.StatusCode resp < 300 /\ decodeStates env resp = Ok states)
        /\ (forall e, r.2 = Some e ->
              exists inner, e = Wrapf op inner /\ forall t, Is e t = Is inner t)
        /\ (forall resp, Do env req = Ok resp -> http.StatusCode resp = 404 ->
              r.2 = Some (Wrapf op (Sentinel ErrNotFound)))
        /\ (forall resp, Do env req = Ok resp -> http.StatusCode resp = 401 ->
              r.2 = Some (Wrapf op (Sentinel ErrUnauthorized)))).

(** What a function on a configuration endpoint does, seen from outside:
    one request with the method [method] to [path], with the encoded body
    [body] if any; [decodes] tells whether the response is accepted by the
    decoder of the result (always, for a function without result). *)
Definition callsEndpoint (env : Env) (c : Client) (reqs : list http.Request)
    (err : option hagoError) (op method path : string) (body : option json)
    (decodes : http.Response -> Prop) : Prop :=
  let url := baseURL c +:+ path in
  (forall e, newRequestError env method url = Some e ->
     reqs = [] /\ err = Some (Wrapf op (RequestError "create request" e)))
  /\ (newRequestError env method url = None ->
      exists req, reqs = [req]
        /\ http.Method req = method /\ http.URL req = url
        /\ http.Header req !! "Authorization" = Some ("Bearer " +:+ token c)
        /\ http.Header req !! "Content-Type" = Some "application/json"
        /\ http.Body req = body
        /\ (err = None <->
            exists resp, Do env req = Ok resp
              /\ 200 <= http.StatusCode resp < 300 /\ decodes resp)
        /\ (forall e, err = Some e ->
              exists inner, e = Wrapf op inner /\ forall t, Is e t = Is inner t)
        /\ (forall resp, Do env req = Ok resp -> http.StatusCode resp = 404 ->
              err = Some (Wrapf op (Sentinel ErrNotFound)))).

(** The error of a result pair, [None] for a nil error. *)
Definition errorOf {A} (r : hresult A) : option hagoError :=
  match r with
  | HErr e => Some e
  | HOk _ => None
  end.

(** * Lovelace (lovelace.go): the callers of [wsCommand]

    A command is a struct; [json.Marshal] writes its fields in the order of
    the declaration and leaves out a field tagged omitempty when it is
    empty: the empty string, false, a nil pointer. *)

Definition omitemptyString (key s : string) : list (string * json) :=
  if String.eqb s "" then [] else [(key, JString s)].

Definition omitemptyBool (key : string) (b : bool) : list (string * json) :=
  if b then [(key, JBool true)] else [].

Definition omitemptyPtr {A} (key : string) (enc : A -> json) (p : option A)
  : list (string * json) :=
  match p with
  | Some v => [(key, enc v)]
  | None => []
  end.

Record CreateDashboardRequest := mkCreateDashboardRequest {
  Create_URLPath : string;
  Create_Title : string;
  Create_Icon : string;
  Create_ShowInSidebar : bool;
  Create_RequireAdmin : bool;
  Create_AllowSingleWord : bool
}.

Record UpdateDashboardRequest := mkUpdateDashboardRequest {
  Update_Title : option string;
  Update_Icon : option string;
  Update_ShowInSidebar : option bool;
  Update_RequireAdmin : option bool;
  Update_AllowSingleWord : option bool
}.

(** The encodings of the command structs. *)
Definition lovelaceDashboardsListCmd (type : string) : json :=
  JObject [("type", JString type)].

Definition lovelaceConfigCmd (type : string) (urlPath : option string) (force : bool) : json :=
  JObject ([("type", JString type)]
           ++ omitemptyPtr "url_path" JString urlPath
           ++ omitemptyBool "force" force).

Definition lovelaceSaveConfigCmd (type : string) (urlPath : option string) (config : json)
  : json :=
  JObject ([("type", JString type)]
           ++ omitemptyPtr "url_path" JString urlPath
           ++ [("config", config)]).

Definition lovelaceDeleteConfigCmd (type : string) (urlPath : option string) : json :=
  JObject ([("type", JString type)] ++ omitemptyPtr "url_path" JString urlPath).

Definition lovelaceDashboardsCreateCmd (type urlPath title icon : string)
    (showInSidebar requireAdmin allowSingleWord : bool) : json :=
  JObject ([("type", JString type); ("url_path", JString urlPath)]
           ++ omitemptyString "title" title
           ++ omitemptyString "icon" icon
           ++ omitemptyBool "show_in_sidebar" showInSidebar
           ++ omitemptyBool "require_admin" requireAdmin
           ++ omitemptyBool "allow_single_word" allowSingleWord).

Definition lovelaceDashboardsUpdateCmd (type dashboardID : string)
    (title icon : option string) (showInSidebar requireAdmin allowSingleWord : option bool)
  : json :=
  JObject ([("type", JString type); ("dashboard_id", JString dashboardID)]
           ++ omitemptyPtr "title" JString title
           ++ omitemptyPtr "icon" JString icon
           ++ omitemptyPtr "show_in_sidebar" JBool showInSidebar
           ++ omitemptyPtr "require_admin" JBool requireAdmin
           ++ omitemptyPtr "allow_single_word" JBool allowSingleWord).

Definition lovelaceDashboardsDeleteCmd (type dashboardID : string) : json :=
  JObject [("type", JString type); ("dashboard_id", JString dashboardID)].

Definition lovelaceResourcesCmd (type : string) : json :=
  JObject [("type", JString type)].

Definition nilDereference : string := "invalid memory address or nil pointer dereference".

Section Lovelace.

(** The network, and [json.Unmarshal] of a payload into the target of each
    function ([None]: no error). *)
Context (dial : string -> result Conn).
Context (unmarshalDashboards unmarshalRaw unmarshalDashboardConfig unmarshalDashboard
         unmarshalResources : string -> option error).

(** What the functions return is what [wsCommand] returns: a response on
    success, whose payload is the value handed to the caller. *)

(** [LovelaceListDashboards] *)
Definition LovelaceListDashboards (ctx : Context) (bg pick : nat) (c : Client) (h : heap)
  : outcome * Client * heap :=
  let cmd := lovelaceDashboardsListCmd "lovelace/dashboards/list" in
  wsCommand dial unmarshalDashboards ctx (VOther cmd) bg pick c h.

(** [LovelaceGetConfig] *)
Definition LovelaceGetConfig (ctx : Context) (urlPath : option string) (force : bool)
    (bg pick : nat) (c : Client) (h : heap) : outcome * Client * heap :=
  let cmd := lovelaceConfigCmd "lovelace/config" urlPath force in
  wsCommand dial unmarshalRaw ctx (VOther cmd) bg pick c h.

(** [LovelaceGetConfigParsed] *)
Definition LovelaceGetConfigParsed (ctx : Context) (urlPath : option string)
    (bg pick : nat) (c : Client) (h : heap) : outcome * Client * heap :=
  match LovelaceGetConfig ctx urlPath false bg pick c h with
  | (Return (Ok resp), c', h') =>
    match unmarshalDashboardConfig (Result resp) with
    | Some err => (Return (Err err), c', h')
    | None => (Return (Ok resp), c', h')
    end
  | other => other
  end.

(** [LovelaceSaveConfig].  [config] is a value of type [any]. *)
Definition LovelaceSaveConfig (ctx : Context) (urlPath : option string)
    (config : result json) (bg pick : nat) (c : Client) (h : heap)
  : outcome * Client * heap :=
  let cmd := match config with
             | Ok doc => VOther (lovelaceSaveConfigCmd "lovelace/config/save" urlPath doc)
             | Err _ => VUnsupported
             end in
  wsCommand dial (fun _ => None) ctx cmd bg pick c h.

(** [LovelaceDeleteConfig] *)
Definition LovelaceDeleteConfig (ctx : Context) (urlPath : option string)
    (bg pick : nat) (c : Client) (h : heap) : outcome * Client * heap :=
  let cmd := lovelaceDeleteConfigCmd "lovelace/config/delete" urlPath in
  wsCommand dial (fun _ => None) ctx (VOther cmd) bg pick c h.

(** [LovelaceCreateDashboard].  [req] is a pointer: [None] is nil, which the
    function dereferences. *)
Definition LovelaceCreateDashboard (ctx : Context) (req : option CreateDashboardRequest)
    (bg pick : nat) (c : Client) (h : heap) : outcome * Client * heap :=
  match req with
  | None => (Panic nilDereference, c, h)
  | Some req =>
    let cmd := lovelaceDashboardsCreateCmd "lovelace/dashboards/create"
                 (Create_URLPath req) (Create_Title req) (Create_Icon req)
                 (Create_ShowInSidebar req) (Create_RequireAdmin req)
                 (Create_AllowSingleWord req) in
    wsCommand dial unmarshalDashboard ctx (VOther cmd) bg pick c h
  end.

(** [LovelaceUpdateDashboard] *)
Definition LovelaceUpdateDashboard (ctx : Context) (dashboardID : string)
    (req : option UpdateDashboardRequest) (bg pick : nat) (c : Client) (h : heap)
  : outcome * Client * heap :=
  match req with
  | None => (Panic nilDereference, c, h)
  | Some req =>
    let cmd := lovelaceDashboardsUpdateCmd "lovelace/dashboards/update" dashboardID
                 (Update_Title req) (Update_Icon req) (Update_ShowInSidebar req)
                 (Update_RequireAdmin req) (Update_AllowSingleWord req) in
    wsCommand dial unmarshalDashboard ctx (VOther cmd) bg pick c h
  end.

(** [LovelaceDeleteDashboard] *)
Definition LovelaceDeleteDashboard (ctx : Context) (dashboardID : string)
    (bg pick : nat) (c : Client) (h : heap) : outcome * Client * heap :=
  let cmd := lovelaceDashboardsDeleteCmd "lovelace/dashboards/delete" dashboardID in
  wsCommand dial (fun _ => None) ctx (VOther cmd) bg pick c h.

(** [LovelaceListResources] *)
Definition LovelaceListResources (ctx : Context) (bg pick : nat) (c : Client) (h : heap)
  : outcome * Client * heap :=
  let cmd := lovelaceResourcesCmd "lovelace/resources" in
  wsCommand dial unmarshalResources ctx (VOther cmd) bg pick c h.

End Lovelace.

(** A command sent on the live session of client [c]: [r] is what the
    function returns; the session has one more frame in its outbox, the
    fields of the command with the id the call was given. *)
Definition sendsFrame (r : outcome * Client * heap) (c : Client) (fields : gmap string json)
  : Prop :=
  exists s s', ws c = Some s /\ ws r.1.2 = Some s'
    /\ outbox (conn s') = outbox (conn s) ++ [<["id" := JNumber (nextID s).1]> fields]
    /\ (r.1.1 <> Blocks -> pending s' !! (nextID s).1 = None).

(** * Building a client, and the query strings (client.go) *)

(** ** Options *)

(** HTTP clients are objects, referred to by pointers: a store holds the
    Timeout of each, in nanoseconds. *)
Abbreviation httpClients := (gmap nat Z) (only parsing).









(** [BaseURL] *)
Definition BaseURL (c : Client) : string := baseURL c.

(** ** Query strings *)

(** [shouldEscape(c, encodeQueryComponent)] of package net/url *)
Definition shouldEscape (c : ascii) : bool :=
  if (strings.isLower c || strings.isUpper c || strings.isDigit c)%bool then false
  else if (Ascii.eqb c "-" || Ascii.eqb c "_" || Ascii.eqb c "." || Ascii.eqb c "~")%bool
  then false
  else true.

Definition upperhex (n : N) : ascii :=
  nth (N.to_nat n) (list_ascii_of_string "0123456789ABCDEF") "0"%char.

(** [url.QueryEscape] *)
Fixpoint QueryEscape (s : string) : string :=
  match s with
  | EmptyString => EmptyString
  | String c s' =>
    if Ascii.eqb c " " then String "+" (QueryEscape s')
    else if shouldEscape c then
      String "%" (String (upperhex (N.shiftr (N_of_ascii c) 4))
                    (String (upperhex (N.land (N_of_ascii c) 15)) (QueryEscape s')))
    else String c (QueryEscape s')
  end.

(** [url.Values.Encode] for values with one string per key: the keys in
    sorted order, the pairs joined by the ampersand. *)
Fixpoint encodePairs (kvs : list (string * string)) : string :=
  match kvs with
  | [] => ""
  | [(k, v)] => QueryEscape k +:+ "=" +:+ QueryEscape v
  | (k, v) :: rest => QueryEscape k +:+ "=" +:+ QueryEscape v +:+ "&" +:+ encodePairs rest
  end.

Definition Encode (values : gmap string string) : string :=
  encodePairs (sortedFields values).

(** [buildQueryString] *)
Definition buildQueryString (params : gmap string string) : string :=
  if (size params =? 0)%nat then "" else
  let values := filter (fun kv => kv.2 <> "") params in
  if (size values =? 0)%nat then "" else "?" +:+ Encode values.

(** A time, by its text in the layout RFC3339. *)
Abbreviation Time := string (only parsing).

(** [formatTime] *)
Definition formatTime (t : Time) : string := t.

(** [formatTimePtr] *)
Definition formatTimePtr (t : option Time) : string :=
  match t with
  | None => ""
  | Some t => formatTime t
  end.

(** [boolToString] *)
Definition boolToString (b : bool) : string := if b then "true" else "".

Record HistoryOptions := mkHistoryOptions {
  FilterEntityID : string;
  History_EndTime : option Time;
  MinimalResponse : bool;
  NoAttributes : bool;
  SignificantChangesOnly : bool
}.

Record LogbookOptions := mkLogbookOptions {
  Entity : string;
  Logbook_EndTime : option Time
}.

(** The path of [History]: line 374. *)
Definition historyPath (timestamp : Time) (opts : option HistoryOptions) : string :=
  let params : gmap string string :=
    match opts with
    | Some opts =>
      <["significant_changes_only" := boolToString (SignificantChangesOnly opts)]>
        (<["no_attributes" := boolToString (NoAttributes opts)]>
           (<["minimal_response" := boolToString (MinimalResponse opts)]>
              (<["end_time" := formatTimePtr (History_EndTime opts)]>
                 (<["filter_entity_id" := FilterEntityID opts]> ∅))))
    | None => ∅
    end in
  "/api/history/period/" +:+ formatTime timestamp +:+ buildQueryString params.

(** The path of [Logbook]: line 390. *)
Definition logbookPath (timestamp : Time) (opts : option LogbookOptions) : string :=
  let params : gmap string string :=
    match opts with
    | Some opts =>
      <["end_time" := formatTimePtr (Logbook_EndTime opts)]> (<["entity" := Entity opts]> ∅)
    | None => ∅
    end in
  "/api/logbook/" +:+ formatTime timestamp +:+ buildQueryString params.

(** The path of [CalendarEvents]: lines 435-439. *)
Definition calendarEventsPath (entityID : string) (start end_ : Time) : string :=
  let params : gmap string string :=
    <["end" := formatTime end_]> (<["start" := formatTime start]> ∅) in
  "/api/calendars/" +:+ entityID +:+ buildQueryString params.

(** The safe bytes of a query string: the unreserved characters, and the
    characters the encoding itself writes. *)
Definition queryByte (c : ascii) : bool :=
  (negb (shouldEscape c) || Ascii.eqb c "%" || Ascii.eqb c "+" || Ascii.eqb c "="
   || Ascii.eqb c "&")%bool.
(** * Properties *)

(** ** Strings *)

Section StringFacts.
Import strings.

Lemma app_cons (c : ascii) (s t : string) : String c s +:+ t = String c (s +:+ t).
Proof. reflexivity. Qed.








Lemma allBytes_app (p : ascii -> bool) (a b : string) :
  allBytes p (a +:+ b) = (allBytes p a && allBytes p b)%bool.
Proof.
  induction a as [|x a IH]; [reflexivity|].
  rewrite app_cons. simpl. rewrite IH. apply andb_assoc.
Qed.

Lemma Count_app (a b : string) (sep : ascii) :
  Count (a +:+ b) sep = (Count a sep + Count b sep)%nat.
Proof.
  induction a as [|x a IH]; [reflexivity|].
  rewrite app_cons. simpl. rewrite IH. lia.
Qed.

End StringFacts.

(** ** URL derivation *)

Section UrlFacts.
Import strings url.











End UrlFacts.




(** ** The handshake *)

Section Handshake.

Lemma ReadJSON_frame (c : Conn) (r : wsResponse) (rest : list readResult) :
  closed c = false -> inbox c = Frame r :: rest ->
  ReadJSON c = (Ok r, mkConn rest (wscript c) (outbox c) false).
Proof. intros Hc Hi. unfold ReadJSON. rewrite Hc, Hi. reflexivity. Qed.

Lemma WriteJSON_ok (v : gmap string json) (c : Conn) :
  writeSucceeds c ->
  WriteJSON v c = (None, mkConn (inbox c) (tail (wscript c)) (outbox c ++ [v]) false).
Proof.
  intros [Hc [Hw | [rest Hw]]]; unfold WriteJSON; rewrite Hc, Hw; reflexivity.
Qed.

(** The outcome of [authenticate] on a connection whose peer sends two
    frames and accepts the write. *)
Lemma authenticate_outcome (tok : string) (ws : wsConn) (r1 r2 : wsResponse)
    (rest : list readResult) :
  inbox (conn ws) = Frame r1 :: Frame r2 :: rest ->
  writeSucceeds (conn ws) ->
  Type_ r1 = "auth_required" ->
  authenticate tok ws =
    (if String.eqb (Type_ r2) "auth_ok" then None
     else if String.eqb (Type_ r2) "auth_invalid" then
       Some (ErrorString ("auth failed: " +:+
               (if String.eqb (Message r2) "" then "invalid authentication" else Message r2)))
     else Some (ErrorString ("unexpected auth response: " +:+ Type_ r2)),
     setConn (mkConn rest (tail (wscript (conn ws)))
                (outbox (conn ws) ++ [authMessage tok]) false) ws).
Proof.
  intros Hin Hw Ht. pose proof Hw as [Hc _].
  unfold authenticate.
  rewrite (ReadJSON_frame _ r1 (Frame r2 :: rest) Hc Hin), Ht.
  cbn [negb String.eqb Ascii.eqb Bool.eqb conn setConn].
  rewrite WriteJSON_ok
    by (destruct Hw as [_ Hw]; split; [reflexivity | exact Hw]).
  cbn [conn setConn].
  rewrite (ReadJSON_frame _ r2 rest) by reflexivity.
  cbn [conn setConn wscript outbox inbox msgID pending chans done].
  destruct (String.eqb (Type_ r2) "auth_ok"); [reflexivity|].
  destruct (String.eqb (Type_ r2) "auth_invalid"); reflexivity.
Qed.

Lemma authenticate_not_required (tok : string) (ws : wsConn) (r1 : wsResponse)
    (rest : list readResult) :
  closed (conn ws) = false -> inbox (conn ws) = Frame r1 :: rest ->
  Type_ r1 <> "auth_required" ->
  fst (authenticate tok ws)
  = Some (ErrorString ("expected auth_required, got " +:+ Type_ r1))
  /\ outbox (conn (snd (authenticate tok ws))) = outbox (conn ws).
Proof.
  intros Hc Hin Ht. unfold authenticate.
  rewrite (ReadJSON_frame _ r1 rest Hc Hin).
  apply String.eqb_neq in Ht. rewrite Ht. split; reflexivity.
Qed.

(** A successful handshake wrote the credential message, and nothing else. *)
Lemma authenticate_sends_token (tok : string) (ws ws' : wsConn) :
  authenticate tok ws = (None, ws') ->
  outbox (conn ws') = outbox (conn ws) ++ [authMessage tok]
  /\ msgID ws' = msgID ws /\ pending ws' = pending ws /\ chans ws' = chans ws
  /\ done ws' = done ws /\ closed (conn ws') = closed (conn ws).
Proof.
  unfold authenticate, ReadJSON, WriteJSON.
  destruct ws as [[inb wsc outb cl] m p cs d]. cbn [conn setConn closed inbox wscript outbox].
  destruct cl; [discriminate|].
  destruct inb as [|[r1|e1] inb]; [discriminate| |discriminate].
  destruct (String.eqb (Type_ r1) "auth_required"); cbn [negb]; [|discriminate].
  cbn [conn setConn closed inbox wscript outbox].
  destruct wsc as [|[e|] wsc]; cbn [conn setConn closed inbox wscript outbox];
    [|discriminate|].
  - destruct inb as [|[r2|e2] inb]; [discriminate| |discriminate].
    destruct (String.eqb (Type_ r2) "auth_ok"); [|destruct (String.eqb (Type_ r2) "auth_invalid"); discriminate].
    intros [= <-]. repeat split; reflexivity.
  - destruct inb as [|[r2|e2] inb]; [discriminate| |discriminate].
    destruct (String.eqb (Type_ r2) "auth_ok"); [|destruct (String.eqb (Type_ r2) "auth_invalid"); discriminate].
    intros [= <-]. repeat split; reflexivity.
Qed.

Lemma connectWebSocket_dialled (dial : string -> result Conn) (c : Client)
    (wsURL : string) (cn : Conn) :
  needsConnect c -> buildWebSocketURL c = Ok wsURL -> dial wsURL = Ok cn ->
  connectWebSocket dial c =
    match authenticate (token c) (newWsConn cn) with
    | (Some err, s) =>
      mkConnected (Some (WrapError "websocket auth" err)) c (Some (Close (conn s))) false
    | (None, s) => mkConnected None (setWs (Some s) c) None true
    end.
Proof.
  intros Hn Hu Hd. unfold connectWebSocket, needsConnect in *.
  destruct (ws c) as [s|]; [rewrite Hn|]; cbn [negb]; rewrite Hu, Hd; reflexivity.
Qed.

(** A failed connect attempt keeps nothing. *)
Lemma connectWebSocket_failure (dial : string -> result Conn) (c : Client) (e : error) :
  connErr (connectWebSocket dial c) = Some e ->
  client (connectWebSocket dial c) = c
  /\ spawned (connectWebSocket dial c) = false
  /\ forall cn, dropped (connectWebSocket dial c) = Some cn -> closed cn = true.
Proof.
  unfold connectWebSocket.
  destruct (match ws c with Some s => negb (done s) | None => false end); [discriminate|].
  destruct (buildWebSocketURL c) as [wsURL|err]; [|intros _; repeat split; discriminate].
  destruct (dial wsURL) as [cn|err]; [|intros _; repeat split; discriminate].
  destruct (authenticate (token c) (newWsConn cn)) as [[err|] s]; [|discriminate].
  intros _. repeat split. intros cn' [= <-]. reflexivity.
Qed.

End Handshake.

(** C3.  When [connectWebSocket] has dialled a connection: a first frame
    whose type is not auth_required fails the connect attempt (nothing is
    sent); otherwise the credential message is sent and the second frame
    decides: auth_ok is success (the session is stored and the reader
    started), auth_invalid is the error carrying the server's message, or
    "invalid authentication" when there is none, and every other type is
    "unexpected auth response: <type>".  On every failure the dialled
    connection is closed, the error is returned (wrapped by "websocket
    auth"), the client is left as it was and no reader is started. *)
Theorem connectWebSocket_handshake (dial : string -> result Conn) (c : Client)
    (wsURL : string) (cn : Conn) :
  needsConnect c -> buildWebSocketURL c = Ok wsURL -> dial wsURL = Ok cn ->
  closed cn = false ->
  let r := connectWebSocket dial c in
  (forall r1 rest, inbox cn = Frame r1 :: rest -> Type_ r1 <> "auth_required" ->
     connErr r = Some (WrapError "websocket auth"
                         (ErrorString ("expected auth_required, got " +:+ Type_ r1)))
     /\ exists cn', dropped r = Some cn' /\ outbox cn' = outbox cn)
  /\ (forall r1 r2 rest, inbox cn = Frame r1 :: Frame r2 :: rest ->
       Type_ r1 = "auth_required" -> writeSucceeds cn ->
       (Type_ r2 = "auth_ok" ->
          connErr r = None /\ spawned r = true /\ dropped r = None /\
          exists s, ws (client r) = Some s /\ done s = false /\ closed (conn s) = false
                    /\ outbox (conn s) = outbox cn ++ [authMessage (token c)]
                    /\ msgID s = 0 /\ pending s = ∅)
       /\ (Type_ r2 = "auth_invalid" ->
           connErr r = Some (WrapError "websocket auth" (ErrorString ("auth failed: " +:+
             (if String.eqb (Message r2) "" then "invalid authentication" else Message r2))))
           /\ exists cn', dropped r = Some cn'
                          /\ outbox cn' = outbox cn ++ [authMessage (token c)])
       /\ (Type_ r2 <> "auth_ok" -> Type_ r2 <> "auth_invalid" ->
           connErr r = Some (WrapError "websocket auth"
                               (ErrorString ("unexpected auth response: " +:+ Type_ r2)))
           /\ exists cn', dropped r = Some cn'
                          /\ outbox cn' = outbox cn ++ [authMessage (token c)]))
  /\ (forall e, connErr r = Some e ->
       client r = c /\ spawned r = false
       /\ exists cn', dropped r = Some cn' /\ closed cn' = true).
Proof.
  intros Hn Hu Hd Hc r.
  pose proof (connectWebSocket_dialled dial c wsURL cn Hn Hu Hd) as Hr.
  fold r in Hr.
  split; [|split].
  - intros r1 rest Hin Ht.
    destruct (authenticate_not_required (token c) (newWsConn cn) r1 rest Hc Hin Ht)
      as [Ha Ho].
    destruct (authenticate (token c) (newWsConn cn)) as [oe s].
    cbn [fst snd] in Ha, Ho. subst oe. rewrite Hr. cbn [connErr dropped].
    split; [reflexivity|]. eexists. split; [reflexivity|]. exact Ho.
  - intros r1 r2 rest Hin Ht Hw.
    pose proof (authenticate_outcome (token c) (newWsConn cn) r1 r2 rest Hin Hw Ht) as Ha.
    rewrite Ha in Hr. clear Ha.
    split; [|split].
    + intros Hok. rewrite Hok in Hr. cbn [String.eqb Ascii.eqb Bool.eqb] in Hr.
      rewrite Hr. cbn [connErr spawned dropped client ws setWs].
      repeat split. eexists. split; [reflexivity|]. repeat split.
    + intros Hinv. rewrite Hinv in Hr. cbn [String.eqb Ascii.eqb Bool.eqb] in Hr.
      rewrite Hr. cbn [connErr dropped]. split; [reflexivity|].
      eexists. split; reflexivity.
    + intros Hno Hni. apply String.eqb_neq in Hno, Hni. rewrite Hno, Hni in Hr.
      rewrite Hr. cbn [connErr dropped]. split; [reflexivity|].
      eexists. split; reflexivity.
  - intros e He. destruct (connectWebSocket_failure dial c e He) as (Hcl & Hsp & Hdr).
    split; [exact Hcl|]. split; [exact Hsp|].
    rewrite Hr in He |- *.
    destruct (authenticate (token c) (newWsConn cn)) as [[err|] s]; [|discriminate].
    eexists. split; reflexivity.
Qed.

Lemma connectWebSocket_handshake_witness :
  let cn := mkConn [Frame (mkWsResponse 0 "auth_required" false "" None "2024.1.0" "");
                    Frame (mkWsResponse 0 "auth_invalid" false "" None "" "Invalid access token")]
                   [] [] false in
  let c := mkClient "http://localhost:8123" "bad-token" None in
  let r := connectWebSocket (fun _ => Ok cn) c in
  connErr r = Some (WrapError "websocket auth" (ErrorString "auth failed: Invalid access token"))
  /\ client r = c /\ spawned r = false.
Proof.
  intros cn c r.
  assert (Hcn : closed cn = false) by reflexivity.
  destruct (connectWebSocket_handshake (fun _ => Ok cn) c "ws://localhost:8123/api/websocket" cn
              I eq_refl eq_refl Hcn) as (_ & Hsecond & Hfail).
  destruct (Hsecond _ _ [] eq_refl eq_refl (conj eq_refl (or_introl eq_refl)))
    as (_ & Hinvalid & _).
  destruct (Hinvalid eq_refl) as [Herr _].
  split; [exact Herr|].
  destruct (Hfail _ Herr) as (Hc & Hs & _). split; assumption.
Defined.

(** ** sendCommand: the registry entry, the command object and the frame written *)

Section SendCommand.

Lemma storeFields_union (fields : list (string * json)) (acc : gmap string json) :
  NoDup fields.*1 -> storeFields fields acc = list_to_map fields ∪ acc.
Proof.
  revert acc. induction fields as [|[k v] fields IH]; intros acc Hnd.
  - cbn. by rewrite (left_id_L ∅ (∪)).
  - rewrite fmap_cons in Hnd. apply NoDup_cons in Hnd as [Hk Hnd].
    unfold storeFields in *. cbn [foldl fst snd] in *. rewrite (IH _ Hnd).
    rewrite list_to_map_cons, <- insert_union_l. symmetry. apply insert_union_r.
    by apply not_elem_of_list_to_map_1.
Qed.

(** Decoding the encoding of a map gives the same fields. *)
Lemma storeFields_map_to_list (m : gmap string json) :
  storeFields (map_to_list m) ∅ = m.
Proof.
  rewrite storeFields_union by apply NoDup_fst_map_to_list.
  rewrite (right_id_L ∅ (∪)). apply list_to_map_to_list.
Qed.

Lemma makeMap_fresh (h : heap) : h !! (makeMap h).1 = None.
Proof.
  unfold makeMap. cbn [fst]. apply not_elem_of_dom. apply is_fresh.
Qed.

Lemma defer_returns (f : wsConn -> wsConn) (out : outcome) (w : world) :
  out <> Blocks -> defer f (out, w) = (out, mkWorld (objs w) (f (sess w))).
Proof. intros H. destruct out; [reflexivity | reflexivity | contradiction]. Qed.

Lemma defer_fst (f : wsConn -> wsConn) (body : outcome * world) :
  (defer f body).1 = body.1.
Proof. destruct body as [[r|m|] w]; reflexivity. Qed.

Lemma defer_objs (f : wsConn -> wsConn) (body : outcome * world) :
  objs (defer f body).2 = objs body.2.
Proof. destruct body as [[r|m|] w]; reflexivity. Qed.

Lemma defer_conn (f : wsConn -> wsConn) (body : outcome * world) :
  (forall s, conn (f s) = conn s) ->
  conn (sess (defer f body).2) = conn (sess body.2).
Proof. intros Hf. destruct body as [[r|m|] w]; cbn; rewrite ?Hf; reflexivity. Qed.

Lemma defer_pending (id : Z) (body : outcome * world) :
  (defer (unregister id) body).1 <> Blocks ->
  pending (sess (defer (unregister id) body).2) !! id = None.
Proof.
  destruct body as [[r|m|] w]; cbn; intros H; try apply lookup_delete_eq. contradiction.
Qed.

(** The reader never writes. *)
Lemma dispatch_conn (resp : wsResponse) (ws ws' : wsConn) :
  dispatch resp ws = Some ws' -> conn ws' = conn ws.
Proof.
  unfold dispatch, chanSend.
  destruct (Z.eqb (ID resp) 0); [by intros [= <-]|].
  destruct (pending ws !! ID resp) as [ch|]; [|by intros [= <-]].
  destruct (chans ws !! ch) as [[|]|]; [|discriminate..].
  by intros [= <-].
Qed.

Lemma ReadJSON_outbox (c : Conn) : outbox (ReadJSON c).2 = outbox c.
Proof.
  unfold ReadJSON. destruct (closed c); [reflexivity|].
  destruct (inbox c) as [|[r|e] rest]; reflexivity.
Qed.

Lemma close_outbox (ws : wsConn) : outbox (conn (close ws)) = outbox (conn ws).
Proof. unfold close. destruct (done ws); reflexivity. Qed.

Lemma readerIter_outbox (ws ws' : wsConn) (b : bool) :
  readerIter ws = Some (ws', b) -> outbox (conn ws') = outbox (conn ws).
Proof.
  unfold readerIter. pose proof (ReadJSON_outbox (conn ws)) as Ho.
  destruct (ReadJSON (conn ws)) as [[resp|e] c]; cbn [snd] in Ho.
  - destruct (dispatch resp (setConn c ws)) as [ws1|] eqn:Hd; [|discriminate].
    intros [= <- <-]. by rewrite (dispatch_conn _ _ _ Hd).
  - intros [= <- <-]. by rewrite close_outbox.
Qed.

Lemma readerRun_outbox (n : nat) (ws ws' : wsConn) :
  readerRun n ws = Some ws' -> outbox (conn ws') = outbox (conn ws).
Proof.
  revert ws. induction n as [|n IH]; intros ws; cbn [readerRun].
  - by intros [= <-].
  - destruct (readerIter ws) as [[ws1 [|]]|] eqn:Hi; [| |discriminate].
    + intros H. rewrite (IH _ H). apply (readerIter_outbox _ _ _ Hi).
    + intros [= <-]. apply (readerIter_outbox _ _ _ Hi).
Qed.

(** [sendCommand] is its body under the deferred delete. *)
Lemma sendCommand_deferred (ctx : Context) (cmd : value) (bg pick : nat) (w : world) :
  exists body, sendCommand ctx cmd bg pick w = defer (unregister (nextID (sess w)).1) body.
Proof.
  unfold sendCommand, nextID, register, makeChan. cbn [fst snd].
  eexists. reflexivity.
Qed.

Lemma sendCommand_unregisters (ctx : Context) (cmd : value) (bg pick : nat) (w : world) :
  (sendCommand ctx cmd bg pick w).1 <> Blocks ->
  pending (sess (sendCommand ctx cmd bg pick w).2) !! (nextID (sess w)).1 = None.
Proof.
  destruct (sendCommand_deferred ctx cmd bg pick w) as [body ->].
  apply defer_pending.
Qed.

Lemma WriteJSON_outbox (v : gmap string json) (c c' : Conn) (oe : option error) :
  WriteJSON v c = (oe, c') ->
  outbox c' = match oe with Some _ => outbox c | None => outbox c ++ [v] end.
Proof.
  unfold WriteJSON. destruct (closed c); [by intros [= <- <-]|].
  destruct (wscript c) as [|[e|] rest]; by intros [= <- <-].
Qed.

Lemma chanRecv_conn (ch : chan) (ws : wsConn) : conn (chanRecv ch ws) = conn ws.
Proof. reflexivity. Qed.

Lemma unregister_conn (id : Z) (ws : wsConn) : conn (unregister id ws) = conn ws.
Proof. reflexivity. Qed.

(** The heap and the outbox after [sendCommand]: every object that existed
    is as it was; and either nothing was written, or the one frame written
    is the content of a map made by this call, which holds the fields of the
    marshalled command and the assigned id. *)
Lemma sendCommand_frame (ctx : Context) (cmd : value) (bg pick : nat) (w : world) :
  let r := sendCommand ctx cmd bg pick w in
  let id := (nextID (sess w)).1 in
  (forall l, is_Some (objs w !! l) -> objs r.2 !! l = objs w !! l)
  /\ (outbox (conn (sess r.2)) = outbox (conn (sess w))
      \/ exists l' fields,
           objs w !! l' = None
           /\ Marshal (makeMap (objs w)).2 cmd = Ok (JObject fields)
           /\ objs r.2 !! l' = Some (<["id" := JNumber id]> (storeFields fields ∅))
           /\ outbox (conn (sess r.2))
              = outbox (conn (sess w)) ++ [<["id" := JNumber id]> (storeFields fields ∅)]).
Proof.
  intros r id. subst r id.
  unfold sendCommand, nextID, register, makeChan. cbn [fst snd] in *.
  set (id := wrap64 (msgID (sess w) + 1)).
  rewrite defer_objs, defer_conn by reflexivity.
  pose proof (makeMap_fresh (objs w)) as Hfresh.
  unfold makeMap in *. cbn [fst snd] in *.
  set (l' := fresh (dom (objs w))) in *.
  set (h1 := <[l' := ∅]> (objs w)).
  assert (Hold : forall (h : heap) l, is_Some (objs w !! l) ->
            (forall k, k <> l' -> h !! k = h1 !! k) -> h !! l = objs w !! l).
  { intros h l [m Hm] Hh. assert (l <> l') by congruence.
    rewrite Hh by done. unfold h1. by rewrite lookup_insert_ne. }
  destruct (Marshal h1 cmd) as [data|err] eqn:HM.
  2:{ cbn. split; [intros l Hl; by apply Hold | by left]. }
  destruct data as [|b|n|str|items|fields];
    try (cbn; split; [intros l Hl; by apply Hold | by left]).
  cbn [Unmarshal mapassign mapvalue mbind option_bind].
  set (body := storeFields fields (default ∅ (h1 !! l'))).
  assert (Hbody : body = storeFields fields ∅)
    by (unfold body, h1; by rewrite lookup_insert_eq).
  set (h2 := <[l' := body]> h1).
  assert (Hh2 : h2 !! l' = Some body) by (unfold h2; by rewrite lookup_insert_eq).
  rewrite Hh2. change (default ∅ (Some body)) with body.
  set (frame := <["id" := JNumber id]> body).
  set (h3 := <[l' := frame]> h2).
  assert (Hh3 : h3 !! l' = Some frame) by (unfold h3; by rewrite lookup_insert_eq).
  change (mapvalue (Some l') h3) with (default ∅ (h3 !! l')).
  rewrite Hh3. change (default ∅ (Some frame)) with frame.
  assert (Hne : forall k, k <> l' -> h3 !! k = h1 !! k).
  { intros k Hk. unfold h3, h2. by rewrite !lookup_insert_ne. }
  destruct (WriteJSON frame (conn (sess w))) as [oe c] eqn:HW.
  pose proof (WriteJSON_outbox _ _ _ _ HW) as Hout.
  cbn [conn setConn setPending setChans setMsgID].
  rewrite HW.
  destruct oe as [err|].
  { cbn. split; [intros l Hl; by apply Hold | by left]. }
  assert (Hwritten : forall ob, ob = outbox c ->
            exists l0 fields0, objs w !! l0 = None
              /\ Ok (JObject fields) = Ok (JObject fields0)
              /\ h3 !! l0 = Some (<["id" := JNumber id]> (storeFields fields0 ∅))
              /\ ob = outbox (conn (sess w)) ++ [<["id" := JNumber id]> (storeFields fields0 ∅)]).
  { intros ob ->. exists l', fields. rewrite Hout, <- Hbody. done. }
  match goal with |- context [readerRun bg ?s] => set (ws2 := s) end.
  destruct (readerRun bg ws2) as [ws3|] eqn:HR.
  2:{ cbn [snd objs sess]. split; [intros l Hl; exact (Hold h3 l Hl Hne)|].
      right. by apply Hwritten. }
  pose proof (readerRun_outbox _ _ _ HR) as Hout3.
  match goal with |- context [choose pick ?r] =>
    destruct (choose pick r) as [[e| |resp]|] end;
    cbn [snd objs sess];
    (split; [intros l Hl; exact (Hold h3 l Hl Hne)|]);
    right; apply Hwritten; rewrite ?chanRecv_conn; exact Hout3.
Qed.

(** A command that does not marshal to an object or to null: the call
    returns the unmarshal error and writes nothing. *)
Lemma sendCommand_not_object (ctx : Context) (doc : json) (bg pick : nat) (w : world) :
  jsonKind doc <> "object" -> jsonKind doc <> "null" ->
  (sendCommand ctx (VOther doc) bg pick w).1
  = Return (Err (WrapError "unmarshal command"
      (ErrorString ("json: cannot unmarshal " +:+ jsonKind doc
                    +:+ " into Go value of type map[string]interface {}"))))
  /\ outbox (conn (sess (sendCommand ctx (VOther doc) bg pick w).2)) = outbox (conn (sess w)).
Proof.
  intros Ho Hn.
  unfold sendCommand, nextID, register, makeChan, makeMap. cbn [fst snd].
  rewrite defer_fst, defer_conn by reflexivity.
  destruct doc; cbn in Ho, Hn |- *; try contradiction; split; reflexivity.
Qed.

(** The id written is the assigned one, whatever id the command carries. *)
Lemma sendCommand_id_injected (ctx : Context) (cmd : value) (bg pick : nat) (w : world) :
  let r := sendCommand ctx cmd bg pick w in
  outbox (conn (sess r.2)) = outbox (conn (sess w))
  \/ exists frame, outbox (conn (sess r.2)) = outbox (conn (sess w)) ++ [frame]
                   /\ frame !! "id" = Some (JNumber (nextID (sess w)).1).
Proof.
  destruct (sendCommand_frame ctx cmd bg pick w) as [_ [H | (l' & fields & _ & _ & _ & H)]].
  - by left.
  - right. eexists. split; [exact H|]. apply lookup_insert_eq.
Qed.

End SendCommand.

(** C8.  Whatever the outcome of [sendCommand], every map object that existed
    before the call, the caller's command among them, is unchanged after it;
    and if a frame was written, it is the content of a map this call made,
    holding the assigned id and, for a command that is a map, the fields of
    that map. *)
Theorem sendCommand_preserves_command (ctx : Context) (cmd : value) (bg pick : nat)
    (w : world) :
  let r := sendCommand ctx cmd bg pick w in
  let id := (nextID (sess w)).1 in
  (forall l, is_Some (objs w !! l) -> objs r.2 !! l = objs w !! l)
  /\ (outbox (conn (sess r.2)) = outbox (conn (sess w))
      \/ exists l' frame,
           objs w !! l' = None
           /\ objs r.2 !! l' = Some frame
           /\ outbox (conn (sess r.2)) = outbox (conn (sess w)) ++ [frame]
           /\ frame !! "id" = Some (JNumber id)
           /\ forall l m, cmd = VMap l -> objs w !! l = Some m ->
                          frame = <["id" := JNumber id]> m).
Proof.
  intros r id.
  destruct (sendCommand_frame ctx cmd bg pick w)
    as [Hold [H | (l' & fields & Hfresh & HM & Hobj & Hout)]].
  - split; [exact Hold | by left].
  - split; [exact Hold|]. right. exists l', (<["id" := JNumber id]> (storeFields fields ∅)).
    split; [exact Hfresh|]. split; [exact Hobj|]. split; [exact Hout|].
    split; [apply lookup_insert_eq|].
    intros l m -> Hm. pose proof (makeMap_fresh (objs w)) as Hf.
    unfold Marshal, makeMap in HM, Hf. cbn [fst snd] in HM, Hf.
    rewrite lookup_insert_ne in HM by congruence.
    rewrite Hm in HM. injection HM as <-. by rewrite storeFields_map_to_list.
Qed.

Lemma sendCommand_preserves_command_witness :
  let cmd : gmap string json := {[ "type" := JString "lovelace/config"; "id" := JNumber 99 ]} in
  let h : heap := {[ 0%nat := cmd ]} in
  let w := mkWorld h (newWsConn (mkConn [] [] [] false)) in
  objs (sendCommand None (VMap 0%nat) 0 0 w).2 !! 0%nat = Some cmd.
Proof.
  intros cmd h w.
  destruct (sendCommand_preserves_command None (VMap 0%nat) 0 0 w) as [Hold _].
  rewrite (Hold 0%nat); [reflexivity|]. exists cmd. reflexivity.
Defined.

(** C10, at the command nil (which marshals to null): [json.Unmarshal]
    accepts null and leaves the map variable nil, and the assignment of the id
    panics; no error is returned.  Nothing is written. *)
Theorem sendCommand_nil_command (ctx : Context) (bg pick : nat) (w : world) :
  (sendCommand ctx VNil bg pick w).1 = Panic "assignment to entry in nil map"
  /\ outbox (conn (sess (sendCommand ctx VNil bg pick w).2)) = outbox (conn (sess w)).
Proof.
  unfold sendCommand, nextID, register, makeChan, makeMap. cbn [fst snd].
  rewrite defer_fst, defer_conn by reflexivity. split; reflexivity.
Qed.

(** ** sendCommand as an execution of the goroutine machine *)

Section Bridge.
Import Machine.

Lemma run_app (tr1 tr2 : list action) (s : state) :
  run (tr1 ++ tr2) s = match run tr1 s with Some s1 => run tr2 s1 | None => None end.
Proof.
  revert s. induction tr1 as [|a tr1 IH]; intros s; cbn [run app]; [done|].
  destruct (step a s); [apply IH | done].
Qed.

Lemma reachable_run (tr : list action) (s s' : state) :
  reachable s -> run tr s = Some s' -> reachable s'.
Proof.
  intros (h & c & tr0 & H0) Hrun. exists h, c, (tr0 ++ tr).
  by rewrite run_app, H0.
Qed.

Lemma world_eta (w : world) : mkWorld (objs w) (sess w) = w.
Proof. by destruct w. Qed.

(** The reader iterations that [sendCommand] lets pass are steps of the
    reader goroutine. *)
Lemma readerRun_as_run (n : nat) (w : world) (gs : list goroutine) (ws' : wsConn) :
  readerRun n (sess w) = Some ws' ->
  exists k, (k <= n)%nat
    /\ run (repeat Reader k) (mkState w gs) = Some (mkState (mkWorld (objs w) ws') gs).
Proof.
  revert w. induction n as [|n IH]; intros w; cbn [readerRun].
  - intros [= <-]. exists 0%nat. split; [lia|]. cbn. by rewrite world_eta.
  - destruct (readerIter (sess w)) as [[ws1 [|]]|] eqn:Hi; [| |discriminate].
    + intros Hrun. destruct (IH (mkWorld (objs w) ws1) Hrun) as (k & Hk & Hr).
      exists (S k). split; [lia|]. cbn [repeat run step store callers]. by rewrite Hi.
    + intros [= <-]. exists 1%nat. split; [lia|]. cbn [repeat run step store callers].
      by rewrite Hi.
Qed.

Lemma insert_insert_same {A} (l : list A) (i : nat) (x y : A) :
  <[i := y]> (<[i := x]> l) = <[i := y]> l.
Proof.
  revert i. induction l as [|a l IH]; intros [|i]; cbn; [done..|]. f_equal. apply IH.
Qed.

Lemma step_caller (s : state) (i pick : nat) (g g' : goroutine) (w' : world) :
  callers s !! i = Some g -> callerStep pick g (store s) = Some (g', w') ->
  step (Caller i pick) s = Some (mkState w' (<[i := g']> (callers s))).
Proof. intros Hg Hc. cbn [step]. by rewrite Hg, Hc. Qed.

(** A step of the caller at position [i]. *)
Lemma step_at (gs : list goroutine) (i pick : nat) (g g' : goroutine) (w w' : world) :
  (i < length gs)%nat -> callerStep pick g w = Some (g', w') ->
  step (Caller i pick) (mkState w (<[i := g]> gs)) = Some (mkState w' (<[i := g']> gs)).
Proof.
  intros Hlt Hc.
  rewrite (step_caller (mkState w (<[i := g]> gs)) i pick g g' w');
    [|by apply list_lookup_insert_eq|done].
  cbn [callers]. by rewrite insert_insert_same.
Qed.

Lemma run_cons (a : action) (tr : list action) (s s1 s' : state) :
  step a s = Some s1 -> run tr s1 = Some s' -> run (a :: tr) s = Some s'.
Proof. intros Hs Hr. cbn [run]. by rewrite Hs. Qed.

(** Every execution of [sendCommand] that returns is an execution of one
    caller of the machine, interleaved with the reader, while the other
    callers stand still. *)
Lemma sendCommand_as_run (ctx : Context) (cmd : value) (bg pick : nat) (w : world)
    (gs : list goroutine) (i : nat) :
  gs !! i = Some (mkGo ctx cmd AtEntry) ->
  (sendCommand ctx cmd bg pick w).1 <> Blocks ->
  exists tr,
    run tr (mkState w gs)
    = Some (mkState (sendCommand ctx cmd bg pick w).2
              (<[i := mkGo ctx cmd (Returned (nextID (sess w)).1
                                      (sendCommand ctx cmd bg pick w).1)]> gs)).
Proof.
  intros Hg.
  assert (Hlt : (i < length gs)%nat) by (by eapply lookup_lt_Some).
  replace (mkState w gs) with (mkState w (<[i := mkGo ctx cmd AtEntry]> gs))
    by (by rewrite list_insert_id).
  unfold sendCommand, nextID, register, makeChan. cbn [fst snd].
  set (id := wrap64 (msgID (sess w) + 1)).
  set (ws1 := setPending _ _).
  set (ch := length (chans (setMsgID id (sess w)))).
  assert (Hstart : forall tr s',
            run tr (mkState (mkWorld (objs w) ws1) (<[i := mkGo ctx cmd (AtEncode id ch)]> gs))
              = Some s' ->
            run (Caller i 0 :: Caller i 0 :: tr) (mkState w (<[i := mkGo ctx cmd AtEntry]> gs))
              = Some s').
  { intros tr s' H.
    eapply run_cons; [apply step_at; [done | reflexivity]|].
    eapply run_cons; [apply step_at; [done | reflexivity]|]. exact H. }
  assert (Hend : forall h ws out,
            run [Caller i 0] (mkState (mkWorld h ws) (<[i := mkGo ctx cmd (AtDefer id ch out)]> gs))
            = Some (mkState (mkWorld h (unregister id ws))
                      (<[i := mkGo ctx cmd (Returned id out)]> gs))).
  { intros h ws out. eapply run_cons; [apply step_at; [done | reflexivity]|]. reflexivity. }
  clearbody ws1 ch id.
  assert (Hencoded : forall g' w',
            callerStep 0 (mkGo ctx cmd (AtEncode id ch)) (mkWorld (objs w) ws1) = Some (g', w') ->
            forall tr s', run tr (mkState w' (<[i := g']> gs)) = Some s' ->
            run (Caller i 0 :: Caller i 0 :: Caller i 0 :: tr)
              (mkState w (<[i := mkGo ctx cmd AtEntry]> gs)) = Some s').
  { intros g' w' Hc tr s' H. apply Hstart.
    eapply run_cons; [apply step_at; [done | exact Hc]|]. exact H. }
  unfold callerStep in Hencoded. cbn [g_at g_cmd objs sess goto g_ctx] in Hencoded.
  unfold makeMap in *. cbn [fst snd] in *.
  destruct (Marshal _ cmd) as [data|err] eqn:HM.
  2:{ intros _. exists [Caller i 0; Caller i 0; Caller i 0; Caller i 0]%nat.
      eapply Hencoded; [reflexivity|]. apply Hend. }
  destruct (Unmarshal data _ _) as [[m h2]|err] eqn:HU.
  2:{ intros _. exists [Caller i 0; Caller i 0; Caller i 0; Caller i 0]%nat.
      eapply Hencoded; [reflexivity|]. apply Hend. }
  destruct (mapassign m "id" (JNumber id) h2) as [h3|] eqn:HA.
  2:{ intros _. exists [Caller i 0; Caller i 0; Caller i 0; Caller i 0]%nat.
      eapply Hencoded; [reflexivity|]. apply Hend. }
  specialize (Hencoded _ _ eq_refl).
  destruct (WriteJSON (mapvalue m h3) (conn ws1)) as [[err|] c] eqn:HW.
  { intros _. exists [Caller i 0; Caller i 0; Caller i 0; Caller i 0; Caller i 0]%nat.
    apply Hencoded.
    eapply run_cons; [apply step_at; [done|]|apply Hend].
    unfold callerStep. cbn [goto g_at g_ctx g_cmd objs sess]. by rewrite HW. }
  set (ws2 := setConn c ws1).
  assert (Hwrite : forall tr s',
            run tr (mkState (mkWorld h3 ws2) (<[i := mkGo ctx cmd (AtSelect id ch)]> gs))
              = Some s' ->
            run (Caller i 0 :: Caller i 0 :: Caller i 0 :: Caller i 0 :: tr)
              (mkState w (<[i := mkGo ctx cmd AtEntry]> gs)) = Some s').
  { intros tr s' H. apply Hencoded.
    eapply run_cons; [apply step_at; [done|]|exact H].
    unfold callerStep. cbn [goto g_at g_ctx g_cmd objs sess]. by rewrite HW. }
  destruct (readerRun bg ws2) as [ws3|] eqn:HR; [|by intros []].
  destruct (readerRun_as_run bg (mkWorld h3 ws2) (<[i := mkGo ctx cmd (AtSelect id ch)]> gs)
              ws3 HR) as (k & _ & Hk).
  cbn [objs] in Hk.
  destruct (choose pick (ready ctx ch ws3)) as [[e| |resp]|] eqn:Hch; [| | |by intros []];
    intros _;
    exists ([Caller i 0; Caller i 0; Caller i 0; Caller i 0]%nat
              ++ repeat Reader k ++ [Caller i pick; Caller i 0]%nat);
    apply Hwrite; rewrite run_app, Hk;
    (eapply run_cons; [apply step_at; [done|]|apply Hend]);
    unfold callerStep; cbn [goto g_at g_ctx g_cmd objs sess]; by rewrite Hch.
Qed.

End Bridge.

(** ** The correlation invariant of the goroutine machine *)

Section Correlation.
Import Machine.

Lemma Core_call (gs : list goroutine) cs p (g : goroutine) :
  inFlight (g_at g) = None -> answer (g_at g) = None ->
  Core gs cs p -> Core (gs ++ [g]) cs p.
Proof.
  intros Hf Ha [Hc Ho Hp Hr].
  assert (Hold : forall i x, (gs ++ [g]) !! i = Some x ->
            gs !! i = Some x \/ x = g).
  { intros i x H. apply lookup_app_Some in H as [H | [_ H]]; [by left|].
    right. apply list_lookup_singleton_Some in H as [_ ->]. done. }
  split.
  - intros i x id ch Hi Hx. destruct (Hold _ _ Hi) as [Hi' | ->]; [eauto | congruence].
  - intros i j x y id id' ch Hi Hj Hx Hy.
    destruct (Hold _ _ Hi) as [Hi' | ->]; [|congruence].
    destruct (Hold _ _ Hj) as [Hj' | ->]; [eauto | congruence].
  - intros id ch Hid. destruct (Hp _ _ Hid) as (Hcs & i & x & Hi & Hx).
    split; [done|]. exists i, x. split; [|done]. by apply lookup_app_l_Some.
  - intros i x id r Hi Hx. destruct (Hold _ _ Hi) as [Hi' | ->]; [eauto | congruence].
Qed.

(** A caller moves between frames with the same channel and answer. *)
Lemma Core_same (gs : list goroutine) cs p (i : nat) (g g' : goroutine) :
  gs !! i = Some g ->
  inFlight (g_at g') = inFlight (g_at g) -> answer (g_at g') = answer (g_at g) ->
  Core gs cs p -> Core (<[i := g']> gs) cs p.
Proof.
  intros Hg Hf Ha [Hc Ho Hp Hr].
  assert (Hold : forall j x, <[i := g']> gs !! j = Some x ->
            exists y, gs !! j = Some y /\ inFlight (g_at x) = inFlight (g_at y)
                      /\ answer (g_at x) = answer (g_at y)).
  { intros j x H. apply list_lookup_insert_Some in H as [(<- & <- & _) | [_ H]]; eauto. }
  split.
  - intros j x id ch Hj Hx. destruct (Hold _ _ Hj) as (y & Hy & Hfy & _).
    rewrite Hfy in Hx. eauto.
  - intros j k x y id id' ch Hj Hk Hx Hy.
    destruct (Hold _ _ Hj) as (x0 & Hx0 & Hfx & _).
    destruct (Hold _ _ Hk) as (y0 & Hy0 & Hfy & _).
    rewrite Hfx in Hx. rewrite Hfy in Hy. eauto.
  - intros id ch Hid. destruct (Hp _ _ Hid) as (Hcs & j & x & Hj & Hx).
    split; [done|]. destruct (decide (j = i)) as [-> | Hne].
    + exists i, g'. split; [apply list_lookup_insert_eq; by eapply lookup_lt_Some|].
      congruence.
    + exists j, x. split; [by rewrite list_lookup_insert_ne | done].
  - intros j x id r Hj Hx. destruct (Hold _ _ Hj) as (y & Hy & _ & Hay).
    rewrite Hay in Hx. eauto.
Qed.

(** Lines 203-206: a caller registers a new channel. *)
Lemma Core_register (gs : list goroutine) cs p (i : nat) (g g' : goroutine) (id : Z) :
  gs !! i = Some g -> inFlight (g_at g) = None ->
  inFlight (g_at g') = Some (id, length cs) -> answer (g_at g') = None ->
  Core gs cs p -> Core (<[i := g']> gs) (cs ++ [[]]) (<[id := length cs]> p).
Proof.
  intros Hg Hf Hf' Ha' [Hc Ho Hp Hr].
  assert (Hlt : forall j x id' ch, gs !! j = Some x -> inFlight (g_at x) = Some (id', ch) ->
            (ch < length cs)%nat).
  { intros j x id' ch Hj Hx. destruct (Hc _ _ _ _ Hj Hx) as (buf & Hb & _).
    by eapply lookup_lt_Some. }
  split.
  - intros j x id' ch Hj Hx.
    apply list_lookup_insert_Some in Hj as [(<- & <- & _) | [Hne Hj]].
    + rewrite Hf' in Hx. injection Hx as <- <-. exists [].
      split; [by rewrite lookup_app_r, Nat.sub_diag | by intros r ?%elem_of_nil].
    + destruct (Hc _ _ _ _ Hj Hx) as (buf & Hb & Hall). exists buf.
      split; [by apply lookup_app_l_Some | done].
  - intros j k x y id1 id2 ch Hj Hk Hx Hy.
    apply list_lookup_insert_Some in Hj as [(<- & <- & _) | [Hnj Hj]];
      apply list_lookup_insert_Some in Hk as [(<- & <- & _) | [Hnk Hk]]; [done| | |eauto].
    + rewrite Hf' in Hx. injection Hx as <- <-.
      pose proof (Hlt _ _ _ _ Hk Hy). lia.
    + rewrite Hf' in Hy. injection Hy as <- <-.
      pose proof (Hlt _ _ _ _ Hj Hx). lia.
  - intros id' ch Hid. apply lookup_insert_Some in Hid as [[<- <-] | [Hne Hid]].
    + split; [by rewrite lookup_app_r, Nat.sub_diag|].
      exists i, g'. split; [apply list_lookup_insert_eq; by eapply lookup_lt_Some | done].
    + destruct (Hp _ _ Hid) as (Hcs & j & x & Hj & Hx).
      split; [by apply lookup_app_l_Some|].
      exists j, x. split; [|done]. rewrite list_lookup_insert_ne; [done|].
      intros <-. congruence.
  - intros j x id' r Hj Hx.
    apply list_lookup_insert_Some in Hj as [(<- & <- & _) | [Hne Hj]]; [congruence | eauto].
Qed.

(** The select receives the buffered response. *)
Lemma Core_recv (gs : list goroutine) cs p (i : nat) (g g' : goroutine) (id : Z) (ch : chan)
    (resp : wsResponse) (buf : list wsResponse) :
  gs !! i = Some g -> inFlight (g_at g) = Some (id, ch) ->
  cs !! ch = Some (resp :: buf) ->
  inFlight (g_at g') = Some (id, ch) ->
  (forall id' r, answer (g_at g') = Some (id', r) -> id' = id /\ r = resp) ->
  Core gs cs p -> Core (<[i := g']> gs) (<[ch := buf]> cs) p.
Proof.
  intros Hg Hf Hcs Hf' Ha' [Hc Ho Hp Hr].
  assert (Hlen : (ch < length cs)%nat) by (by eapply lookup_lt_Some).
  destruct (Hc _ _ _ _ Hg Hf) as (buf0 & Hb0 & Hall0).
  assert (buf0 = resp :: buf) as -> by congruence.
  split.
  - intros j x id' ch' Hj Hx.
    apply list_lookup_insert_Some in Hj as [(<- & <- & _) | [Hne Hj]].
    + rewrite Hf' in Hx. injection Hx as <- <-. exists buf.
      split; [by apply list_lookup_insert_eq|].
      intros r Hin. apply Hall0. by apply elem_of_cons; right.
    + destruct (Hc _ _ _ _ Hj Hx) as (b & Hb & Hall). exists b. split; [|done].
      rewrite list_lookup_insert_ne; [done|]. intros <-.
      apply Hne. by eapply (Ho i j).
  - intros j k x y id1 id2 ch' Hj Hk Hx Hy.
    apply list_lookup_insert_Some in Hj as [(<- & <- & _) | [Hnj Hj]];
      apply list_lookup_insert_Some in Hk as [(<- & <- & _) | [Hnk Hk]]; [done| | |eauto].
    + rewrite Hf' in Hx. injection Hx as <- <-. by eapply (Ho i k).
    + rewrite Hf' in Hy. injection Hy as <- <-. by eapply (Ho j i).
  - intros id' ch' Hid. destruct (Hp _ _ Hid) as (Hcs' & j & x & Hj & Hx).
    assert (ch' <> ch) by congruence.
    split; [by rewrite list_lookup_insert_ne|].
    destruct (decide (j = i)) as [-> | Hne].
    + assert (x = g) as -> by congruence. congruence.
    + exists j, x. split; [by rewrite list_lookup_insert_ne | done].
  - intros j x id' r Hj Hx.
    apply list_lookup_insert_Some in Hj as [(<- & <- & _) | [Hne Hj]]; [|eauto].
    destruct (Ha' _ _ Hx) as [-> ->]. apply Hall0. by apply elem_of_cons; left.
Qed.

(** The deferred delete: the caller leaves, its entry goes. *)
Lemma Core_unregister (gs : list goroutine) cs p (i : nat) (g g' : goroutine) (id : Z)
    (ch : chan) :
  gs !! i = Some g -> inFlight (g_at g) = Some (id, ch) ->
  inFlight (g_at g') = None -> answer (g_at g') = answer (g_at g) ->
  Core gs cs p -> Core (<[i := g']> gs) cs (delete id p).
Proof.
  intros Hg Hf Hf' Ha' [Hc Ho Hp Hr].
  split.
  - intros j x id' ch' Hj Hx.
    apply list_lookup_insert_Some in Hj as [(<- & <- & _) | [Hne Hj]]; [congruence | eauto].
  - intros j k x y id1 id2 ch' Hj Hk Hx Hy.
    apply list_lookup_insert_Some in Hj as [(<- & <- & _) | [Hnj Hj]]; [congruence|].
    apply list_lookup_insert_Some in Hk as [(<- & <- & _) | [Hnk Hk]]; [congruence | eauto].
  - intros id' ch' Hid. apply lookup_delete_Some in Hid as [Hne Hid].
    destruct (Hp _ _ Hid) as (Hcs' & j & x & Hj & Hx).
    split; [done|]. exists j, x. split; [|done].
    rewrite list_lookup_insert_ne; [done|]. intros <-. congruence.
  - intros j x id' r Hj Hx.
    apply list_lookup_insert_Some in Hj as [(<- & <- & _) | [Hne Hj]]; [|eauto].
    rewrite Ha' in Hx. eauto.
Qed.

(** Lines 186-193: the reader hands a response to the registered channel. *)
Lemma Core_dispatch (gs : list goroutine) cs p (resp : wsResponse) (ch : chan) :
  p !! ID resp = Some ch ->
  Core gs cs p -> Core gs (<[ch := [resp]]> cs) (delete (ID resp) p).
Proof.
  intros Hid [Hc Ho Hp Hr].
  destruct (Hp _ _ Hid) as (Hcs & i & g & Hg & Hf).
  assert (Hlen : (ch < length cs)%nat) by (by eapply lookup_lt_Some).
  split.
  - intros j x id' ch' Hj Hx. destruct (decide (ch' = ch)) as [-> | Hne].
    + assert (j = i) as -> by (by eapply (Ho j i)).
      assert (x = g) as -> by congruence.
      assert (id' = ID resp) as -> by congruence.
      exists [resp]. split; [by apply list_lookup_insert_eq|].
      by intros r ->%list_elem_of_singleton.
    + destruct (Hc _ _ _ _ Hj Hx) as (b & Hb & Hall). exists b.
      split; [by rewrite list_lookup_insert_ne | done].
  - eauto.
  - intros id' ch' Hid'. apply lookup_delete_Some in Hid' as [Hne Hid'].
    destruct (Hp _ _ Hid') as (Hcs' & j & x & Hj & Hx).
    split; [|eauto]. rewrite list_lookup_insert_ne; [done|]. intros <-.
    assert (i = j) as -> by (by eapply (Ho i j)).
    congruence.
  - eauto.
Qed.

Lemma received_ok (resp r : wsResponse) : received resp = Ok r -> r = resp.
Proof.
  unfold received. destruct (Error resp); [discriminate|].
  destruct (negb (Success resp) && String.eqb (Type_ resp) "result")%bool; congruence.
Qed.

Lemma choose_elem (pick : nat) (cases : list selectCase) (c : selectCase) :
  choose pick cases = Some c -> c ∈ cases.
Proof. unfold choose. apply list_elem_of_lookup_2. Qed.

Lemma ready_resp (ctx : Context) (ch : chan) (ws : wsConn) (resp : wsResponse) :
  CaseResp resp ∈ ready ctx ch ws -> exists buf, chans ws !! ch = Some (resp :: buf).
Proof.
  unfold ready. intros H.
  apply elem_of_app in H as [H | H].
  { destruct ctx; [apply list_elem_of_singleton in H; discriminate | by apply elem_of_nil in H]. }
  apply elem_of_app in H as [H | H].
  { destruct (done ws); [apply list_elem_of_singleton in H; discriminate | by apply elem_of_nil in H]. }
  destruct (chans ws !! ch) as [[|r buf]|]; try by apply elem_of_nil in H.
  apply list_elem_of_singleton in H. injection H as ->. eauto.
Qed.

Lemma ready_ctx (ctx : Context) (ch : chan) (ws : wsConn) (e : ctxError) :
  CaseCtxDone e ∈ ready ctx ch ws -> ctx = Some e.
Proof.
  unfold ready. intros H.
  apply elem_of_app in H as [H | H].
  { destruct ctx; [apply list_elem_of_singleton in H; congruence | by apply elem_of_nil in H]. }
  apply elem_of_app in H as [H | H].
  { destruct (done ws); [apply list_elem_of_singleton in H; discriminate | by apply elem_of_nil in H]. }
  destruct (chans ws !! ch) as [[|r buf]|]; try by apply elem_of_nil in H.
  apply list_elem_of_singleton in H. discriminate.
Qed.

Lemma WriteJSON_closed (v : gmap string json) (c : Conn) :
  closed (WriteJSON v c).2 = closed c.
Proof.
  unfold WriteJSON. destruct (closed c) eqn:Hc; [done|].
  destruct (wscript c) as [|[e|] rest]; done.
Qed.

Lemma ReadJSON_closed (c : Conn) : closed (ReadJSON c).2 = closed c.
Proof.
  unfold ReadJSON. destruct (closed c) eqn:Hc; [done|].
  destruct (inbox c) as [|[r|e] rest]; done.
Qed.

(** A step that leaves the channel and the answer of the caller as they
    were. *)
Ltac keeps_frame g Hat :=
  apply (Core_same _ _ _ _ g); [done | by rewrite Hat | by rewrite Hat | done].

(** A step of a caller keeps the invariant. *)
Lemma Core_callerStep (gs : list goroutine) (i pick : nat) (g g' : goroutine) (w w' : world) :
  gs !! i = Some g -> callerStep pick g w = Some (g', w') ->
  Core gs (chans (sess w)) (pending (sess w)) ->
  Core (<[i := g']> gs) (chans (sess w')) (pending (sess w'))
  /\ done (sess w') = done (sess w) /\ closed (conn (sess w')) = closed (conn (sess w)).
Proof.
  intros Hg Hstep HC. unfold callerStep in Hstep.
  destruct (g_at g) as [|id|id ch|id ch cmdMap|id ch|id ch out|id out] eqn:Hat.
  - (* msgID.Add *)
    injection Hstep as <- <-. split; [|done]. keeps_frame g Hat.
  - (* register *)
    injection Hstep as <- <-. split; [|done].
    apply (Core_register _ _ _ _ g); [done| by rewrite Hat | done | done | done].
  - (* marshal, unmarshal, assign *)
    unfold makeMap in Hstep. cbn [fst snd] in Hstep.
    destruct (Marshal _ (g_cmd g)) as [data|err].
    2:{ injection Hstep as <- <-. split; [|done]. keeps_frame g Hat. }
    destruct (Unmarshal data _ _) as [[m h2]|err].
    2:{ injection Hstep as <- <-. split; [|done]. keeps_frame g Hat. }
    destruct (mapassign m "id" (JNumber id) h2) as [h3|];
      injection Hstep as <- <-; (split; [|done]); keeps_frame g Hat.
  - (* write *)
    pose proof (WriteJSON_closed (mapvalue cmdMap (objs w)) (conn (sess w))) as Hcl.
    destruct (WriteJSON _ (conn (sess w))) as [[err|] c]; cbn [snd] in Hcl;
      injection Hstep as <- <-; (split; [|done]); keeps_frame g Hat.
  - (* select *)
    destruct (choose pick _) as [[e| |resp]|] eqn:Hch; [| | |discriminate].
    + injection Hstep as <- <-. split; [|done]. keeps_frame g Hat.
    + injection Hstep as <- <-. split; [|done]. keeps_frame g Hat.
    + injection Hstep as <- <-. split; [|done].
      apply choose_elem, ready_resp in Hch as [buf Hbuf].
      cbn [sess chanRecv chans pending setChans]. rewrite Hbuf. cbn [default tail].
      apply (Core_recv _ _ _ _ g _ id ch resp buf); [done| by rewrite Hat |done|done| |done].
      intros id' r. cbn [goto g_at answer].
      destruct (received resp) as [r0|e0] eqn:Hrec; [|discriminate].
      intros [= <- <-]. split; [done|]. by apply received_ok.
  - (* deferred delete *)
    injection Hstep as <- <-. split; [|done].
    apply (Core_unregister _ _ _ _ g _ id ch); [done| by rewrite Hat | done | | done].
    rewrite Hat. by destruct out as [[r|e]|m|].
  - discriminate.
Qed.

(** What [dispatch] does (lines 186-193): a response with a nonzero id
    whose entry exists goes into the channel of that entry, no other
    channel changes, and the entry is removed; every other response changes
    nothing. *)
Lemma dispatch_spec (resp : wsResponse) (ws : wsConn) :
  match pending ws !! ID resp with
  | Some ch =>
    ID resp <> 0 -> chans ws !! ch = Some [] ->
    exists ws', dispatch resp ws = Some ws'
      /\ chans ws' = <[ch := [resp]]> (chans ws)
      /\ pending ws' = delete (ID resp) (pending ws)
      /\ conn ws' = conn ws /\ done ws' = done ws /\ msgID ws' = msgID ws
  | None => dispatch resp ws = Some ws
  end
  /\ (ID resp = 0 -> dispatch resp ws = Some ws).
Proof.
  unfold dispatch, chanSend. split.
  - destruct (pending ws !! ID resp) as [ch|] eqn:Hp.
    + intros Hne Hch. apply Z.eqb_neq in Hne. rewrite Hne, Hch.
      eexists. split; [reflexivity|]. done.
    + by destruct (Z.eqb (ID resp) 0).
  - intros ->. done.
Qed.

Lemma Core_dispatch_step (gs : list goroutine) (resp : wsResponse) (ws : wsConn) :
  Core gs (chans ws) (pending ws) ->
  exists ws', dispatch resp ws = Some ws'
    /\ Core gs (chans ws') (pending ws')
    /\ conn ws' = conn ws /\ done ws' = done ws.
Proof.
  intros HC. destruct (dispatch_spec resp ws) as [Hsome Hzero].
  destruct (decide (ID resp = 0)) as [Hz | Hnz].
  { exists ws. by rewrite Hzero. }
  destruct (pending ws !! ID resp) as [ch|] eqn:Hp.
  - destruct (core_pending _ _ _ HC _ _ Hp) as [Hch _].
    destruct (Hsome Hnz Hch) as (ws' & Hd & Hcs & Hpe & Hco & Hdo & _).
    exists ws'. rewrite Hcs, Hpe. split; [done|]. split; [|done].
    by apply Core_dispatch.
  - exists ws. done.
Qed.

(** Under the invariant the reader never blocks in its send. *)
Lemma Core_readerIter (gs : list goroutine) (ws : wsConn) :
  Core gs (chans ws) (pending ws) ->
  (done ws = true -> closed (conn ws) = true) ->
  exists ws' b, readerIter ws = Some (ws', b)
    /\ Core gs (chans ws') (pending ws')
    /\ (done ws' = true -> closed (conn ws') = true).
Proof.
  intros HC Hcl. unfold readerIter.
  pose proof (ReadJSON_closed (conn ws)) as Hrc.
  destruct (ReadJSON (conn ws)) as [[resp|e] c]; cbn [snd] in Hrc.
  - destruct (Core_dispatch_step gs resp (setConn c ws) HC) as (ws' & Hd & HC' & Hco & Hdo).
    rewrite Hd. exists ws', true. split; [done|]. split; [done|].
    rewrite Hco, Hdo. cbn. rewrite Hrc. exact Hcl.
  - exists (close (setConn c ws)), false. split; [done|].
    unfold close. cbn [done setConn].
    destruct (done ws) eqn:Hd; cbn; [|done].
    split; [done|]. intros _. rewrite Hrc. by apply Hcl.
Qed.

Lemma Inv_init (h : heap) (c : Conn) : Inv (init h c).
Proof.
  split; [|discriminate]. cbn. split.
  - intros i g id ch Hi. by rewrite lookup_nil in Hi.
  - intros i j g g' id id' ch Hi. by rewrite lookup_nil in Hi.
  - intros id ch Hid. by rewrite lookup_empty in Hid.
  - intros i g id r Hi. by rewrite lookup_nil in Hi.
Qed.

Lemma Inv_step (a : action) (s s' : state) : Inv s -> step a s = Some s' -> Inv s'.
Proof.
  intros [HC Hcl] Hstep. destruct a as [ctx cmd|i pick|i e| |]; cbn [step] in Hstep.
  - injection Hstep as <-. split; [|done]. cbn. by apply Core_call.
  - destruct (callers s !! i) as [g|] eqn:Hg; [|discriminate].
    destruct (callerStep pick g (store s)) as [[g' w']|] eqn:Hcs; [|discriminate].
    injection Hstep as <-.
    destruct (Core_callerStep _ _ _ _ _ _ _ Hg Hcs HC) as (HC' & Hd & Hc).
    split; [done|]. cbn. by rewrite Hd, Hc.
  - destruct (callers s !! i) as [g|] eqn:Hg; [|discriminate].
    injection Hstep as <-. split; [|done]. cbn.
    by apply (Core_same _ _ _ _ g).
  - destruct (Core_readerIter _ _ HC Hcl) as (ws' & b & Hr & HC' & Hcl').
    rewrite Hr in Hstep. injection Hstep as <-. by split.
  - injection Hstep as <-. split.
    + cbn. unfold close. by destruct (done (sess (store s))).
    + cbn. unfold close. destruct (done (sess (store s))) eqn:Hd; cbn; [|done].
      intros _. by apply Hcl.
Qed.

Lemma Inv_run (tr : list action) (s s' : state) : Inv s -> run tr s = Some s' -> Inv s'.
Proof.
  revert s. induction tr as [|a tr IH]; intros s HI; cbn [run].
  - by intros [= <-].
  - destruct (step a s) as [s1|] eqn:Hs; [|discriminate].
    apply IH. by eapply Inv_step.
Qed.

Lemma reachable_Inv (s : state) : reachable s -> Inv s.
Proof. intros (h & c & tr & Hrun). eapply Inv_run; [apply Inv_init | exact Hrun]. Qed.

End Correlation.

(** ** Identifiers *)

Section Identifiers.
Import Machine.

Lemma wrap64_small (z : Z) : min_int64 <= z <= max_int64 -> wrap64 z = z.
Proof.
  unfold wrap64, min_int64, max_int64. intros H.
  rewrite Z.mod_small by lia. lia.
Qed.

Lemma wrap64_range (z : Z) : min_int64 <= wrap64 z <= max_int64.
Proof.
  unfold wrap64, min_int64, max_int64.
  pose proof (Z.mod_pos_bound (z + 2 ^ 63) (2 ^ 64) ltac:(lia)). lia.
Qed.

Lemma wrap64_succ (z : Z) : wrap64 (wrap64 z + 1) = wrap64 (z + 1).
Proof.
  unfold wrap64.
  replace ((z + 2 ^ 63) mod 2 ^ 64 - 2 ^ 63 + 1 + 2 ^ 63)
    with ((z + 2 ^ 63) mod 2 ^ 64 + 1) by lia.
  replace (z + 1 + 2 ^ 63) with ((z + 2 ^ 63) + 1) by lia.
  rewrite Zplus_mod_idemp_l. reflexivity.
Qed.

Lemma wrap64_max : wrap64 (max_int64 + 1) = min_int64.
Proof. reflexivity. Qed.

Lemma issued_app (gs gs' : list goroutine) : issued (gs ++ gs') = (issued gs + issued gs')%nat.
Proof. induction gs as [|g gs IH]; cbn [issued app]; [done|]. rewrite IH. lia. Qed.

Lemma issued_insert (gs : list goroutine) (i : nat) (g g' : goroutine) :
  gs !! i = Some g ->
  (issued (<[i := g']> gs) + hasId g = issued gs + hasId g')%nat.
Proof.
  revert i. induction gs as [|x gs IH]; intros [|i] H; try discriminate.
  - injection H as ->. cbn [issued insert list_insert]. lia.
  - cbn [issued]. change (<[S i := g']> (x :: gs)) with (x :: <[i := g']> gs).
    cbn [issued]. specialize (IH i H). lia.
Qed.

Lemma issued_le_length (gs : list goroutine) : (issued gs <= length gs)%nat.
Proof.
  induction gs as [|g gs IH]; cbn [issued length]; [done|].
  unfold hasId. destruct (frameId (g_at g)); lia.
Qed.

Lemma issued_lt_length (gs : list goroutine) (i : nat) (g : goroutine) :
  gs !! i = Some g -> frameId (g_at g) = None -> (issued gs < length gs)%nat.
Proof.
  revert i. induction gs as [|x gs IH]; intros [|i] H Hf; try discriminate.
  - injection H as ->. cbn [issued length]. unfold hasId. rewrite Hf.
    pose proof (issued_le_length gs). lia.
  - cbn [issued length]. specialize (IH i H Hf).
    unfold hasId. destruct (frameId (g_at x)); lia.
Qed.

(** After its first step a caller keeps its id, and the counter is only
    changed by the first step. *)
Lemma callerStep_frameId (pick : nat) (g g' : goroutine) (w w' : world) :
  callerStep pick g w = Some (g', w') ->
  match frameId (g_at g) with
  | Some id => frameId (g_at g') = Some id /\ msgID (sess w') = msgID (sess w)
  | None => frameId (g_at g') = Some (wrap64 (msgID (sess w) + 1))
            /\ msgID (sess w') = wrap64 (msgID (sess w) + 1)
  end.
Proof.
  unfold callerStep.
  destruct (g_at g) as [|id|id ch|id ch cmdMap|id ch|id ch out|id out];
    cbn [frameId].
  - by intros [= <- <-].
  - by intros [= <- <-].
  - unfold makeMap. cbn [fst snd].
    destruct (Marshal _ (g_cmd g)) as [data|err]; [|by intros [= <- <-]].
    destruct (Unmarshal data _ _) as [[m h2]|err]; [|by intros [= <- <-]].
    destruct (mapassign m "id" (JNumber id) h2) as [h3|]; by intros [= <- <-].
  - destruct (WriteJSON _ (conn (sess w))) as [[err|] c]; by intros [= <- <-].
  - destruct (choose pick _) as [[e| |resp]|]; [| | |discriminate]; by intros [= <- <-].
  - by intros [= <- <-].
  - discriminate.
Qed.

Lemma dispatch_msgID (resp : wsResponse) (ws ws' : wsConn) :
  dispatch resp ws = Some ws' -> msgID ws' = msgID ws.
Proof.
  unfold dispatch, chanSend.
  destruct (Z.eqb (ID resp) 0); [by intros [= <-]|].
  destruct (pending ws !! ID resp) as [ch|]; [|by intros [= <-]].
  destruct (chans ws !! ch) as [[|]|]; [|discriminate..].
  by intros [= <-].
Qed.

Lemma readerIter_msgID (ws ws' : wsConn) (b : bool) :
  readerIter ws = Some (ws', b) -> msgID ws' = msgID ws.
Proof.
  unfold readerIter.
  destruct (ReadJSON (conn ws)) as [[resp|e] c].
  - destruct (dispatch resp (setConn c ws)) as [ws1|] eqn:Hd; [|discriminate].
    intros [= <- <-]. by rewrite (dispatch_msgID _ _ _ Hd).
  - intros [= <- <-]. unfold close. by destruct (done (setConn c ws)).
Qed.

Lemma step_length (a : action) (s s' : state) :
  step a s = Some s' -> (length (callers s) <= length (callers s'))%nat.
Proof.
  destruct a as [ctx cmd|i pick|i e| |]; cbn [step].
  - intros [= <-]. cbn. rewrite length_app. lia.
  - destruct (callers s !! i) as [g|]; [|discriminate].
    destruct (callerStep pick g (store s)) as [[g' w']|]; [|discriminate].
    intros [= <-]. cbn. by rewrite length_insert.
  - destruct (callers s !! i) as [g|]; [|discriminate].
    intros [= <-]. cbn. by rewrite length_insert.
  - destruct (readerIter _) as [[ws' b]|]; [|discriminate]. by intros [= <-].
  - by intros [= <-].
Qed.

Lemma run_length (tr : list action) (s s' : state) :
  run tr s = Some s' -> (length (callers s) <= length (callers s'))%nat.
Proof.
  revert s. induction tr as [|a tr IH]; intros s; cbn [run].
  - by intros [= <-].
  - destruct (step a s) as [s1|] eqn:Hs; [|discriminate].
    intros H. pose proof (step_length _ _ _ Hs). specialize (IH _ H). lia.
Qed.

Lemma IdInv_init (h : heap) (c : Conn) : IdInv (init h c).
Proof.
  split; cbn.
  - done.
  - intros i g id Hi. by rewrite lookup_nil in Hi.
  - intros i j g g' id Hi. by rewrite lookup_nil in Hi.
Qed.

Lemma IdInv_step (a : action) (s s' : state) :
  IdInv s -> step a s = Some s' -> Z.of_nat (length (callers s')) <= max_int64 -> IdInv s'.
Proof.
  intros [Hc Hr Hu] Hstep Hbound.
  destruct a as [ctx cmd|i pick|i e| |]; cbn [step] in Hstep.
  - (* a new caller, without id *)
    injection Hstep as <-. cbn in *.
    assert (Hold : forall j x id, (callers s ++ [mkGo ctx cmd AtEntry]) !! j = Some x ->
              frameId (g_at x) = Some id -> callers s !! j = Some x).
    { intros j x id H Hx. apply lookup_app_Some in H as [H | [_ H]]; [done|].
      apply list_lookup_singleton_Some in H as [_ <-]. discriminate. }
    split; cbn.
    + rewrite issued_app. cbn. lia.
    + intros j x id Hj Hx. eauto.
    + intros j k x y id Hj Hk Hx Hy. eauto.
  - destruct (callers s !! i) as [g|] eqn:Hg; [|discriminate].
    destruct (callerStep pick g (store s)) as [[g' w']|] eqn:Hcs; [|discriminate].
    injection Hstep as <-. cbn in Hbound. rewrite length_insert in Hbound.
    pose proof (callerStep_frameId _ _ _ _ _ Hcs) as Hf.
    pose proof (issued_insert _ _ _ g' Hg) as Hiss.
    destruct (frameId (g_at g)) as [id|] eqn:Hid.
    + (* a caller that keeps its id *)
      destruct Hf as [Hf Hm].
      assert (Hsame : forall j x id', <[i := g']> (callers s) !! j = Some x ->
                frameId (g_at x) = Some id' ->
                exists y, callers s !! j = Some y /\ frameId (g_at y) = Some id').
      { intros j x id' H Hx.
        apply list_lookup_insert_Some in H as [(<- & <- & _) | [_ H]]; [|eauto].
        exists g. split; [done|]. congruence. }
      split; cbn.
      * rewrite Hm, Hc. unfold hasId in Hiss. rewrite Hid, Hf in Hiss. lia.
      * intros j x id' Hj Hx. destruct (Hsame _ _ _ Hj Hx) as (y & Hy & Hfy).
        rewrite Hm. eauto.
      * intros j k x y id' Hj Hk Hx Hy.
        destruct (Hsame _ _ _ Hj Hx) as (x0 & Hx0 & Hfx).
        destruct (Hsame _ _ _ Hk Hy) as (y0 & Hy0 & Hfy). eauto.
    + (* msgID.Add: the counter cannot have reached max_int64 *)
      destruct Hf as [Hf Hm].
      pose proof (issued_lt_length _ _ _ Hg Hid) as Hlt.
      assert (Hw : wrap64 (msgID (sess (store s)) + 1) = msgID (sess (store s)) + 1).
      { apply wrap64_small. unfold min_int64, max_int64 in *. lia. }
      rewrite Hw in Hf, Hm.
      split; cbn.
      * rewrite Hm, Hc. unfold hasId in Hiss. rewrite Hid, Hf in Hiss. lia.
      * intros j x id' Hj Hx. rewrite Hm.
        apply list_lookup_insert_Some in Hj as [(<- & <- & _) | [_ Hj]].
        -- assert (id' = msgID (sess (store s)) + 1) as -> by congruence. lia.
        -- specialize (Hr _ _ _ Hj Hx). lia.
      * intros j k x y id' Hj Hk Hx Hy.
        apply list_lookup_insert_Some in Hj as [(<- & <- & _) | [Hnj Hj]];
          apply list_lookup_insert_Some in Hk as [(<- & <- & _) | [Hnk Hk]]; [done| | |eauto].
        -- assert (id' = msgID (sess (store s)) + 1) as -> by congruence.
           specialize (Hr _ _ _ Hk Hy). lia.
        -- assert (id' = msgID (sess (store s)) + 1) as -> by congruence.
           specialize (Hr _ _ _ Hj Hx). lia.
  - (* a cancellation *)
    destruct (callers s !! i) as [g|] eqn:Hg; [|discriminate].
    injection Hstep as <-.
    pose proof (issued_insert _ _ _ (mkGo (cancel e (g_ctx g)) (g_cmd g) (g_at g)) Hg) as Hiss.
    assert (Hsame : forall j x id',
              <[i := mkGo (cancel e (g_ctx g)) (g_cmd g) (g_at g)]> (callers s) !! j = Some x ->
              frameId (g_at x) = Some id' ->
              exists y, callers s !! j = Some y /\ frameId (g_at y) = Some id').
    { intros j x id' H Hx.
      apply list_lookup_insert_Some in H as [(<- & <- & _) | [_ H]]; eauto. }
    split; cbn.
    + rewrite Hc. unfold hasId in Hiss. cbn [g_at] in Hiss. lia.
    + intros j x id' Hj Hx. destruct (Hsame _ _ _ Hj Hx) as (y & Hy & Hfy). eauto.
    + intros j k x y id' Hj Hk Hx Hy.
      destruct (Hsame _ _ _ Hj Hx) as (x0 & Hx0 & Hfx).
      destruct (Hsame _ _ _ Hk Hy) as (y0 & Hy0 & Hfy). eauto.
  - destruct (readerIter _) as [[ws' b]|] eqn:Hri; [|discriminate].
    injection Hstep as <-. pose proof (readerIter_msgID _ _ _ Hri) as Hm.
    split; cbn; [by rewrite Hm | intros; rewrite Hm; eauto | eauto].
  - injection Hstep as <-.
    assert (Hm : msgID (close (sess (store s))) = msgID (sess (store s)))
      by (unfold close; by destruct (done _)).
    split; cbn; [by rewrite Hm | intros; rewrite Hm; eauto | eauto].
Qed.

Lemma IdInv_run (tr : list action) (s s' : state) :
  IdInv s -> run tr s = Some s' -> Z.of_nat (length (callers s')) <= max_int64 -> IdInv s'.
Proof.
  revert s. induction tr as [|a tr IH]; intros s HI; cbn [run].
  - by intros [= <-].
  - destruct (step a s) as [s1|] eqn:Hs; [|discriminate].
    intros Hrun Hb. apply (IH s1); [|done|done].
    apply (IdInv_step a s); [done|done|].
    pose proof (run_length _ _ _ Hrun). lia.
Qed.

End Identifiers.

(** ** Correlation (C1) *)

Section CorrelationClaims.
Import Machine.

Lemma reader_delivers (s : state) (resp : wsResponse) (rest : list readResult) (ch : chan) :
  Inv s ->
  closed (conn (sess (store s))) = false ->
  inbox (conn (sess (store s))) = Frame resp :: rest ->
  ID resp <> 0 -> pending (sess (store s)) !! ID resp = Some ch ->
  exists s', step Reader s = Some s'
    /\ callers s' = callers s
    /\ chans (sess (store s')) = <[ch := [resp]]> (chans (sess (store s)))
    /\ pending (sess (store s')) = delete (ID resp) (pending (sess (store s)))
    /\ done (sess (store s')) = done (sess (store s)).
Proof.
  intros [HC _] Hcl Hin Hnz Hp. cbn [step]. unfold readerIter.
  rewrite (ReadJSON_frame _ resp rest Hcl Hin).
  destruct (core_pending _ _ _ HC _ _ Hp) as [Hch _].
  destruct (dispatch_spec resp
              (setConn (mkConn rest (wscript (conn (sess (store s))))
                          (outbox (conn (sess (store s)))) false) (sess (store s))))
    as [Hd _].
  cbn [pending setConn] in Hd. rewrite Hp in Hd.
  destruct (Hd Hnz Hch) as (ws' & Hdis & Hcs & Hpe & _ & Hdo & _).
  rewrite Hdis. eexists. split; [reflexivity|]. cbn. done.
Qed.

Lemma reader_drops (s : state) (resp : wsResponse) (rest : list readResult) :
  closed (conn (sess (store s))) = false ->
  inbox (conn (sess (store s))) = Frame resp :: rest ->
  ID resp = 0 \/ pending (sess (store s)) !! ID resp = None ->
  exists s', step Reader s = Some s'
    /\ callers s' = callers s
    /\ chans (sess (store s')) = chans (sess (store s))
    /\ pending (sess (store s')) = pending (sess (store s)).
Proof.
  intros Hcl Hin Hno. cbn [step]. unfold readerIter.
  rewrite (ReadJSON_frame _ resp rest Hcl Hin).
  set (ws1 := setConn _ _).
  assert (Hd : dispatch resp ws1 = Some ws1).
  { destruct (dispatch_spec resp ws1) as [Hsome Hzero].
    destruct Hno as [Hz | Hn]; [by apply Hzero|].
    cbn [pending ws1 setConn] in Hsome. by rewrite Hn in Hsome. }
  rewrite Hd. eexists. split; [reflexivity|]. done.
Qed.

(** [sendCommand], called in a reachable state by a goroutine of the machine,
    returns only a response that carries the id assigned to the call. *)
Lemma sendCommand_returns_own_response (s : state) (i : nat) (ctx : Context) (cmd : value)
    (bg pick : nat) (resp : wsResponse) :
  reachable s -> callers s !! i = Some (mkGo ctx cmd AtEntry) ->
  (sendCommand ctx cmd bg pick (store s)).1 = Return (Ok resp) ->
  ID resp = (nextID (sess (store s))).1.
Proof.
  intros Hreach Hg Hout.
  destruct (sendCommand_as_run ctx cmd bg pick (store s) (callers s) i Hg) as [tr Hrun];
    [by rewrite Hout|].
  assert (Hs : mkState (store s) (callers s) = s) by (by destruct s).
  rewrite Hs, Hout in Hrun.
  pose proof (reachable_Inv _ (reachable_run _ _ _ Hreach Hrun)) as [HC _].
  cbn [callers store] in HC.
  apply (core_answer _ _ _ HC i
           (mkGo ctx cmd (Returned (nextID (sess (store s))).1 (Return (Ok resp)))));
    [|reflexivity].
  apply list_lookup_insert_eq. by eapply lookup_lt_Some.
Qed.

End CorrelationClaims.

(** C1.  In every state the goroutines can reach on a session, whatever the
    order in which the peer's frames arrive: the channel of a call holds only
    responses whose id is the id assigned to that call, and a call returns
    only such a response; the reader hands a frame with a nonzero id that has
    a pending entry to the channel of that entry, which belongs to the one
    call with that id, changes no other channel and removes the entry; it
    drops a frame whose id is zero or has no entry; and [sendCommand] returns
    only a response that carries the id it assigned to the call. *)
Theorem responses_reach_their_callers (s : Machine.state) :
  Machine.reachable s ->
  (forall i g id ch,
     Machine.callers s !! i = Some g -> Machine.inFlight (Machine.g_at g) = Some (id, ch) ->
     exists buf, chans (sess (Machine.store s)) !! ch = Some buf
                 /\ forall r, r ∈ buf -> ID r = id)
  /\ (forall i g id r,
       Machine.callers s !! i = Some g -> Machine.answer (Machine.g_at g) = Some (id, r) ->
       ID r = id)
  /\ (forall resp rest ch,
       closed (conn (sess (Machine.store s))) = false ->
       inbox (conn (sess (Machine.store s))) = Frame resp :: rest ->
       ID resp <> 0 -> pending (sess (Machine.store s)) !! ID resp = Some ch ->
       exists s', Machine.step Machine.Reader s = Some s'
         /\ Machine.callers s' = Machine.callers s
         /\ chans (sess (Machine.store s')) !! ch = Some [resp]
         /\ (forall ch', ch' <> ch ->
               chans (sess (Machine.store s')) !! ch' = chans (sess (Machine.store s)) !! ch')
         /\ pending (sess (Machine.store s')) = delete (ID resp) (pending (sess (Machine.store s)))
         /\ exists i g, Machine.callers s !! i = Some g
              /\ Machine.inFlight (Machine.g_at g) = Some (ID resp, ch)
              /\ forall j g' id', Machine.callers s !! j = Some g' ->
                   Machine.inFlight (Machine.g_at g') = Some (id', ch) -> j = i)
  /\ (forall resp rest,
       closed (conn (sess (Machine.store s))) = false ->
       inbox (conn (sess (Machine.store s))) = Frame resp :: rest ->
       ID resp = 0 \/ pending (sess (Machine.store s)) !! ID resp = None ->
       exists s', Machine.step Machine.Reader s = Some s'
         /\ Machine.callers s' = Machine.callers s
         /\ chans (sess (Machine.store s')) = chans (sess (Machine.store s))
         /\ pending (sess (Machine.store s')) = pending (sess (Machine.store s)))
  /\ (forall i ctx cmd bg pick resp,
       Machine.callers s !! i = Some (Machine.mkGo ctx cmd Machine.AtEntry) ->
       (sendCommand ctx cmd bg pick (Machine.store s)).1 = Return (Ok resp) ->
       ID resp = (nextID (sess (Machine.store s))).1).
Proof.
  intros Hreach. pose proof (reachable_Inv s Hreach) as HI.
  pose proof HI as [HC _].
  split; [exact (Machine.core_chan _ _ _ HC)|].
  split; [exact (Machine.core_answer _ _ _ HC)|].
  split; [|split; [exact (reader_drops s)|]].
  2:{ intros i ctx cmd bg pick resp Hg Hout.
      exact (sendCommand_returns_own_response s i ctx cmd bg pick resp Hreach Hg Hout). }
  intros resp rest ch Hcl Hin Hnz Hp.
  destruct (reader_delivers s resp rest ch HI Hcl Hin Hnz Hp)
    as (s' & Hstep & Hcallers & Hcs & Hpe & _).
  destruct (Machine.core_pending _ _ _ HC _ _ Hp) as (Hempty & i & g & Hg & Hf).
  exists s'. split; [exact Hstep|]. split; [exact Hcallers|].
  split; [rewrite Hcs; apply list_lookup_insert_eq; by eapply lookup_lt_Some|].
  split; [intros ch' Hne; rewrite Hcs; by apply list_lookup_insert_ne|].
  split; [exact Hpe|].
  exists i, g. split; [exact Hg|]. split; [exact Hf|].
  intros j g' id' Hj Hf'. by eapply (Machine.core_owner _ _ _ HC j i).
Qed.

Lemma responses_reach_their_callers_witness :
  let r1 := mkWsResponse 1 "result" true "{}" None "" "" in
  let r2 := mkWsResponse 2 "result" true "[]" None "" "" in
  let c := mkConn [Frame r2; Frame r1] [] [] false in
  let cmdA := VOther (JObject [("type", JString "lovelace/config")]) in
  let cmdB := VOther (JObject [("type", JString "lovelace/resources")]) in
  let tr := [Machine.Call None cmdA; Machine.Call None cmdB;
             Machine.Caller 0 0; Machine.Caller 1 0; Machine.Caller 0 0; Machine.Caller 1 0;
             Machine.Caller 0 0; Machine.Caller 1 0; Machine.Caller 0 0; Machine.Caller 1 0;
             Machine.Reader; Machine.Reader;
             Machine.Caller 0 0; Machine.Caller 1 0; Machine.Caller 0 0; Machine.Caller 1 0]%nat in
  let s := default (Machine.init ∅ c) (Machine.run tr (Machine.init ∅ c)) in
  Machine.g_at <$> Machine.callers s
    = [Machine.Returned 1 (Return (Ok r1)); Machine.Returned 2 (Return (Ok r2))]
  /\ forall i g id r,
       Machine.callers s !! i = Some g -> Machine.answer (Machine.g_at g) = Some (id, r) ->
       ID r = id.
Proof.
  intros r1 r2 c cmdA cmdB tr s.
  split; [vm_compute; reflexivity|].
  apply (responses_reach_their_callers s).
  exists ∅, c, tr. vm_compute. reflexivity.
Defined.

(** ** Identifiers (C2) *)

Section IdentifierClaims.
Import Machine.

Lemma reachable_IdInv (s : state) :
  reachable s -> Z.of_nat (length (callers s)) <= max_int64 -> IdInv s.
Proof.
  intros (h & c & tr & Hrun) Hb. eapply IdInv_run; [apply IdInv_init | exact Hrun | exact Hb].
Qed.

(** The state after [issueIds n]. *)
Lemma issueIds_state (n : nat) (h : heap) (c : Conn) :
  issueIds n (init h c)
  = Some (mkState (mkWorld h (setMsgID (wrap64 (Z.of_nat n)) (newWsConn c)))
            ((fun k => mkGo None VNil (AtRegister (wrap64 (Z.of_nat (S k))))) <$> seq 0 n)).
Proof.
  induction n as [|n IH]; [reflexivity|].
  cbn [issueIds]. rewrite IH. clear IH.
  set (gs := (fun k => mkGo None VNil (AtRegister (wrap64 (Z.of_nat (S k))))) <$> seq 0 n).
  assert (Hlen : length gs = n) by (unfold gs; by rewrite length_fmap, length_seq).
  cbn [run step callers store]. rewrite Hlen.
  assert (Hlook : (gs ++ [mkGo None VNil AtEntry]) !! n = Some (mkGo None VNil AtEntry)).
  { rewrite lookup_app_r by lia. by rewrite Hlen, Nat.sub_diag. }
  rewrite Hlook. cbn [callerStep g_at nextID sess objs msgID setMsgID newWsConn goto g_ctx g_cmd].
  rewrite wrap64_succ.
  replace (Z.of_nat n + 1) with (Z.of_nat (S n)) by lia.
  f_equal. f_equal.
  rewrite insert_app_r_alt by lia. rewrite Hlen, Nat.sub_diag. cbn [insert list_insert].
  rewrite seq_S, fmap_app. reflexivity.
Qed.

Lemma issueIds_reachable (n : nat) (s s' : state) :
  reachable s -> issueIds n s = Some s' -> reachable s'.
Proof.
  revert s'. induction n as [|n IH]; intros s' Hs; cbn [issueIds].
  - by intros [= <-].
  - destruct (issueIds n s) as [s1|]; [|discriminate].
    intros Hrun. eapply reachable_run; [|exact Hrun]. by apply IH.
Qed.

End IdentifierClaims.

(** C2 (as amended).  On one session, as long as fewer than 2^63 calls were
    issued (so that the int64 counter has not wrapped around): the id a call
    obtains from [msgID.Add(1)] is one more than the counter and strictly
    greater than every id issued before on the session, and no pending entry
    exists for it; two calls never hold the same id; and a pending entry
    belongs to exactly one call in flight. *)
Theorem nextID_fresh_before_overflow (s : Machine.state) :
  Machine.reachable s ->
  Z.of_nat (length (Machine.callers s)) <= max_int64 ->
  (forall i g pick,
     Machine.callers s !! i = Some g -> Machine.g_at g = Machine.AtEntry ->
     let id := msgID (sess (Machine.store s)) + 1 in
     (nextID (sess (Machine.store s))).1 = id
     /\ (exists s', Machine.step (Machine.Caller i pick) s = Some s'
           /\ Machine.callers s' !! i = Some (Machine.goto (Machine.AtRegister id) g))
     /\ (forall j g' id', Machine.callers s !! j = Some g' ->
           Machine.frameId (Machine.g_at g') = Some id' -> id' < id)
     /\ pending (sess (Machine.store s)) !! id = None)
  /\ (forall i j g g' id,
       Machine.callers s !! i = Some g -> Machine.callers s !! j = Some g' ->
       Machine.frameId (Machine.g_at g) = Some id ->
       Machine.frameId (Machine.g_at g') = Some id -> i = j)
  /\ (forall id ch,
       pending (sess (Machine.store s)) !! id = Some ch ->
       exists i g, Machine.callers s !! i = Some g
         /\ Machine.inFlight (Machine.g_at g) = Some (id, ch)
         /\ forall j g' ch', Machine.callers s !! j = Some g' ->
              Machine.inFlight (Machine.g_at g') = Some (id, ch') -> j = i).
Proof.
  intros Hreach Hbound.
  pose proof (reachable_IdInv s Hreach Hbound) as [Hc Hr Hu].
  pose proof (reachable_Inv s Hreach) as [HC _].
  assert (Hfid : forall f id ch, Machine.inFlight f = Some (id, ch) -> Machine.frameId f = Some id).
  { intros f id ch. destruct f; cbn; congruence. }
  split; [|split].
  - intros i g pick Hg Hat id.
    assert (Hnone : Machine.frameId (Machine.g_at g) = None) by (by rewrite Hat).
    pose proof (issued_lt_length _ _ _ Hg Hnone) as Hlt.
    assert (Hw : wrap64 (msgID (sess (Machine.store s)) + 1) = id).
    { apply wrap64_small. unfold min_int64, max_int64 in *. lia. }
    split; [exact Hw|]. split; [|split].
    + cbn [Machine.step]. rewrite Hg. unfold Machine.callerStep. rewrite Hat.
      unfold nextID. rewrite Hw. eexists. split; [reflexivity|].
      cbn. apply list_lookup_insert_eq. by eapply lookup_lt_Some.
    + intros j g' id' Hj Hf. specialize (Hr _ _ _ Hj Hf). unfold id. lia.
    + destruct (pending (sess (Machine.store s)) !! id) as [ch|] eqn:Hp; [|done].
      destruct (Machine.core_pending _ _ _ HC _ _ Hp) as (_ & j & g' & Hj & Hf).
      specialize (Hr _ _ _ Hj (Hfid _ _ _ Hf)). unfold id in Hr. lia.
  - exact Hu.
  - intros id ch Hp.
    destruct (Machine.core_pending _ _ _ HC _ _ Hp) as (_ & i & g & Hg & Hf).
    exists i, g. split; [exact Hg|]. split; [exact Hf|].
    intros j g' ch' Hj Hf'. eapply Hu; eauto.
Qed.

Lemma nextID_fresh_before_overflow_witness :
  let c := mkConn [] [] [] false in
  let tr := [Machine.Call None VNil; Machine.Call None VNil; Machine.Call None VNil;
             Machine.Caller 0 0; Machine.Caller 2 0; Machine.Caller 0 0]%nat in
  let s := default (Machine.init ∅ c) (Machine.run tr (Machine.init ∅ c)) in
  (nextID (sess (Machine.store s))).1 = 3
  /\ pending (sess (Machine.store s)) !! 3 = None
  /\ forall j g' id', Machine.callers s !! j = Some g' ->
       Machine.frameId (Machine.g_at g') = Some id' -> id' < 3.
Proof.
  intros c tr s.
  assert (Hreach : Machine.reachable s) by (exists ∅, c, tr; vm_compute; reflexivity).
  assert (Hbound : Z.of_nat (length (Machine.callers s)) <= max_int64)
    by (vm_compute; discriminate).
  destruct (nextID_fresh_before_overflow s Hreach Hbound) as [Hnext _].
  destruct (Hnext 1%nat (Machine.mkGo None VNil Machine.AtEntry) 0%nat eq_refl eq_refl)
    as (Hid & _ & Hlt & Hp).
  split; [exact Hid|]. split; [exact Hp | exact Hlt].
Defined.

(** C2, as stated, fails when the counter has reached the largest int64:
    after 2^63 - 1 calls on a session (the first of which obtained id 1), the
    next [msgID.Add(1)] wraps around and returns the smallest int64, which is
    not greater than the ids issued before. *)
Lemma nextID_wraps_around :
  exists s g,
    Machine.reachable s
    /\ Machine.callers s !! 0%nat = Some g
    /\ Machine.frameId (Machine.g_at g) = Some 1
    /\ msgID (sess (Machine.store s)) = max_int64
    /\ (nextID (sess (Machine.store s))).1 = min_int64
    /\ ~ 1 < (nextID (sess (Machine.store s))).1.
Proof.
  assert (Hgen : forall n : nat, Z.of_nat (S n) = max_int64 ->
            exists s g, Machine.reachable s
              /\ Machine.callers s !! 0%nat = Some g
              /\ Machine.frameId (Machine.g_at g) = Some 1
              /\ msgID (sess (Machine.store s)) = max_int64
              /\ (nextID (sess (Machine.store s))).1 = min_int64
              /\ ~ 1 < (nextID (sess (Machine.store s))).1).
  { intros n Hn.
    pose proof (issueIds_state (S n) ∅ (mkConn [] [] [] false)) as Hst.
    eexists. exists (Machine.mkGo None VNil (Machine.AtRegister 1)).
    split.
    { eapply issueIds_reachable; [|exact Hst].
      exists ∅, (mkConn [] [] [] false), []. reflexivity. }
    cbn [Machine.callers Machine.store sess msgID setMsgID newWsConn nextID fst].
    rewrite Hn.
    split; [reflexivity|]. split; [reflexivity|].
    split; [reflexivity|]. split; [reflexivity|].
    change (wrap64 (wrap64 max_int64 + 1)) with min_int64.
    unfold min_int64. lia. }
  destruct (Z.to_nat max_int64) as [|n] eqn:Hn.
  - exfalso. unfold max_int64 in Hn. lia.
  - apply (Hgen n). rewrite <- Hn. unfold max_int64. lia.
Qed.

(** ** Waiting for the response (C5, C6, C7, C9) *)

Section Waiting.
Import Machine.

Lemma choose_singleton (pick : nat) (c : selectCase) : choose pick [c] = Some c.
Proof. unfold choose. cbn [length]. by rewrite Nat.mod_1_r. Qed.

(** The deferred delete, as a step of the machine. *)
Lemma step_defer (s : state) (i pick : nat) (g : goroutine) (id : Z) (ch : chan)
    (out : outcome) :
  callers s !! i = Some g -> g_at g = AtDefer id ch out ->
  step (Caller i pick) s
  = Some (mkState (mkWorld (objs (store s)) (unregister id (sess (store s))))
            (<[i := goto (Returned id out) g]> (callers s))).
Proof.
  intros Hg Hat. apply (step_caller s i pick g); [done|]. unfold callerStep. by rewrite Hat.
Qed.

Lemma dispatch_unregistered (id : Z) (resp : wsResponse) (ws : wsConn) :
  ID resp = id -> dispatch resp (unregister id ws) = Some (unregister id ws).
Proof.
  intros <-. unfold dispatch. destruct (Z.eqb (ID resp) 0); [done|].
  unfold unregister. cbn [pending setPending]. by rewrite lookup_delete_eq.
Qed.

End Waiting.

(** C5 (as amended).  When the select of a call receives a response, the call
    returns as follows: with a structured error in the response, the error
    carrying exactly its code and message; without one, with success false
    and type "result", the error "command failed"; in every other case
    (success true, or a type other than "result") the response itself, with
    its result payload. *)
Theorem sendCommand_response_outcome (s : Machine.state) (i pick pick' : nat)
    (g : Machine.goroutine) (id : Z) (respCh : chan) (resp : wsResponse) :
  Machine.callers s !! i = Some g ->
  Machine.g_at g = Machine.AtSelect id respCh ->
  choose pick (ready (Machine.g_ctx g) respCh (sess (Machine.store s))) = Some (CaseResp resp) ->
  (exists s', Machine.run [Machine.Caller i pick; Machine.Caller i pick'] s = Some s'
     /\ Machine.callers s' !! i
        = Some (Machine.goto (Machine.Returned id (Return (received resp))) g))
  /\ (forall e, Error resp = Some e ->
        received resp = Err (WebSocketError (wsError_Code e) (wsError_Message e)))
  /\ (Error resp = None -> Success resp = false -> Type_ resp = "result" ->
        received resp = Err (ErrorString "command failed"))
  /\ (Error resp = None -> Success resp = true \/ Type_ resp <> "result" ->
        received resp = Ok resp).
Proof.
  intros Hg Hat Hch. split; [|split; [|split]].
  - cbn [Machine.run].
    erewrite step_caller; [|exact Hg|unfold Machine.callerStep; rewrite Hat, Hch; reflexivity].
    assert (Hlt : (i < length (Machine.callers s))%nat) by (by eapply lookup_lt_Some).
    erewrite step_defer;
      [|cbn [Machine.callers]; by apply list_lookup_insert_eq|reflexivity].
    eexists. split; [reflexivity|]. cbn [Machine.callers].
    rewrite insert_insert_same. by apply list_lookup_insert_eq.
  - intros e He. unfold received. by rewrite He.
  - intros He Hs Ht. unfold received. rewrite He, Hs, Ht. reflexivity.
  - intros He [Hs | Ht]; unfold received; rewrite He.
    + by rewrite Hs.
    + apply String.eqb_neq in Ht. rewrite Ht. by rewrite andb_false_r.
Qed.

Lemma sendCommand_response_outcome_witness :
  let resp := mkWsResponse 1 "result" false "" (Some (mkWsError "not_found" "x")) "" "" in
  let c := mkConn [Frame resp] [] [] false in
  let cmd := VOther (JObject [("type", JString "lovelace/config")]) in
  let tr := [Machine.Call None cmd; Machine.Caller 0 0; Machine.Caller 0 0;
             Machine.Caller 0 0; Machine.Caller 0 0; Machine.Reader]%nat in
  let s := default (Machine.init ∅ c) (Machine.run tr (Machine.init ∅ c)) in
  exists s', Machine.run [Machine.Caller 0 0; Machine.Caller 0 0]%nat s = Some s'
    /\ Machine.g_at <$> Machine.callers s' !! 0%nat
       = Some (Machine.Returned 1 (Return (Err (WebSocketError "not_found" "x")))).
Proof.
  intros resp c cmd tr s.
  destruct (sendCommand_response_outcome s 0 0 0
              (Machine.mkGo None cmd (Machine.AtSelect 1 0%nat)) 1 0%nat resp)
    as [(s' & Hrun & Hret) _]; [vm_compute; reflexivity..|].
  exists s'. split; [exact Hrun|]. rewrite Hret. reflexivity.
Defined.

(** C5, as stated, fails for a response that is not of type "result": with
    success false and no structured error the call succeeds. *)
Lemma sendCommand_pong_succeeds :
  let resp := mkWsResponse 1 "pong" false "" None "" "" in
  let w := mkWorld ∅ (newWsConn (mkConn [Frame resp] [] [] false)) in
  let cmd := VOther (JObject [("type", JString "ping")]) in
  Success resp = false /\ Error resp = None
  /\ (sendCommand None cmd 1 0 w).1 = Return (Ok resp)
  /\ (sendCommand None cmd 1 0 w).1 <> Return (Err (ErrorString "command failed")).
Proof.
  intros resp w cmd.
  split; [reflexivity|]. split; [reflexivity|].
  split; [vm_compute; reflexivity | vm_compute; discriminate].
Qed.

Section CancelClose.
Import Machine.

Lemma ready_nil (ctx : Context) (ch : chan) (ws : wsConn) :
  ready ctx ch ws = [] ->
  ctx = None /\ done ws = false
  /\ (chans ws !! ch = None \/ chans ws !! ch = Some []).
Proof.
  unfold ready. destruct ctx as [e|]; [discriminate|].
  destruct (done ws); [discriminate|].
  destruct (chans ws !! ch) as [[|r buf]|]; [auto | discriminate | auto].
Qed.

Lemma ready_only_ctx (e : ctxError) (ch : chan) (ws : wsConn) :
  done ws = false -> (chans ws !! ch = None \/ chans ws !! ch = Some []) ->
  ready (Some e) ch ws = [CaseCtxDone e].
Proof. intros Hd Hc. unfold ready. rewrite Hd. by destruct Hc as [-> | ->]. Qed.

Lemma ready_only_done (ch : chan) (ws : wsConn) :
  done ws = true -> chans ws !! ch = Some [] -> ready None ch ws = [CaseWsDone].
Proof. intros Hd Hc. unfold ready. by rewrite Hd, Hc. Qed.

(** The two steps by which a call whose select fired without a response
    returns: the select, then the deferred delete. *)
Lemma run_select_error (s : state) (i pick pick' : nat) (g : goroutine) (id : Z)
    (ch : chan) (c : selectCase) (err : error) :
  callers s !! i = Some g -> g_at g = AtSelect id ch ->
  choose pick (ready (g_ctx g) ch (sess (store s))) = Some c ->
  (c = CaseWsDone /\ err = ErrorString "websocket connection closed"
   \/ exists e, c = CaseCtxDone e /\ err = ContextError e) ->
  run [Caller i pick; Caller i pick'] s
  = Some (mkState (mkWorld (objs (store s)) (unregister id (sess (store s))))
            (<[i := goto (Returned id (Return (Err err))) g]> (callers s))).
Proof.
  intros Hg Hat Hch Hc. cbn [run].
  assert (Hlt : (i < length (callers s))%nat) by (by eapply lookup_lt_Some).
  assert (Hsel : callerStep pick g (store s)
                 = Some (goto (AtDefer id ch (Return (Err err))) g, store s)).
  { unfold callerStep. rewrite Hat, Hch.
    destruct Hc as [[-> ->] | (e & -> & ->)]; reflexivity. }
  rewrite (step_caller _ _ _ _ _ _ Hg Hsel).
  erewrite step_defer; [|cbn [callers]; by apply list_lookup_insert_eq|reflexivity].
  cbn [store callers]. by rewrite insert_insert_same.
Qed.

Lemma close_done (ws : wsConn) : done (close ws) = true.
Proof. unfold close. by destruct (done ws) eqn:Hd. Qed.

Lemma close_registry (ws : wsConn) :
  chans (close ws) = chans ws /\ pending (close ws) = pending ws /\ msgID (close ws) = msgID ws.
Proof. unfold close. by destruct (done ws). Qed.

Lemma close_closed (ws : wsConn) :
  (done ws = true -> closed (conn ws) = true) -> closed (conn (close ws)) = true.
Proof. unfold close. destruct (done ws); [by intros H; apply H | done]. Qed.

(** The reader ends: at most one iteration per frame of the inbox, and one
    more; it leaves the session closed. *)
Lemma readerRun_exits (gs : list goroutine) (n : nat) (ws : wsConn) :
  Core gs (chans ws) (pending ws) ->
  (closed (conn ws) = false -> length (inbox (conn ws)) < n)%nat -> (0 < n)%nat ->
  exists ws', readerRun n ws = Some ws' /\ done ws' = true
    /\ Core gs (chans ws') (pending ws').
Proof.
  revert ws. induction n as [|n IH]; intros ws HC Hlen Hpos; [lia|].
  assert (Hexit : forall c, chans (close (setConn c ws)) = chans ws
                            /\ pending (close (setConn c ws)) = pending ws).
  { intros c. destruct (close_registry (setConn c ws)) as (-> & -> & _). done. }
  cbn [readerRun]. unfold readerIter.
  destruct (closed (conn ws)) eqn:Hcl.
  - unfold ReadJSON. rewrite Hcl. eexists. split; [reflexivity|].
    split; [apply close_done|]. by destruct (Hexit (conn ws)) as [-> ->].
  - specialize (Hlen eq_refl). unfold ReadJSON. rewrite Hcl.
    destruct (inbox (conn ws)) as [|[resp|e] rest] eqn:Hin.
    + eexists. split; [reflexivity|].
      split; [apply close_done|]. by destruct (Hexit (conn ws)) as [-> ->].
    + set (ws1 := setConn _ ws).
      destruct (Core_dispatch_step gs resp ws1 HC) as (ws2 & Hd & HC2 & Hco & Hdo).
      rewrite Hd. apply IH; [done| |cbn [length] in Hlen; lia].
      rewrite Hco. cbn [ws1 conn setConn inbox closed]. cbn [length] in Hlen. lia.
    + eexists. split; [reflexivity|].
      split; [apply close_done|].
      match goal with |- Core _ (chans (close (setConn ?c _))) _ =>
        by destruct (Hexit c) as [-> ->] end.
Qed.

Lemma reader_exits (gs : list goroutine) (ws : wsConn) :
  Core gs (chans ws) (pending ws) ->
  exists ws', reader ws = Some ws' /\ done ws' = true.
Proof.
  intros HC. destruct (readerRun_exits gs (S (length (inbox (conn ws)))) ws HC)
    as (ws' & Hr & Hd & _); [lia | lia |]. eauto.
Qed.

(** The return paths of [sendCommand]. *)
Lemma sendCommand_outcomes (ctx : Context) (cmd : value) (bg pick : nat) (w : world) :
  let out := (sendCommand ctx cmd bg pick w).1 in
  (exists e, out = Return (Err (WrapError "marshal command" e)))
  \/ (exists e, out = Return (Err (WrapError "unmarshal command" e)))
  \/ out = Panic "assignment to entry in nil map"
  \/ (exists e, out = Return (Err (WrapError "write command" e)))
  \/ (exists e, ctx = Some e /\ out = Return (Err (ContextError e)))
  \/ out = Return (Err (ErrorString "websocket connection closed"))
  \/ (exists resp, out = Return (received resp))
  \/ out = Blocks.
Proof.
  unfold sendCommand, nextID, register, makeChan, makeMap. cbn [fst snd].
  rewrite defer_fst.
  destruct (Marshal _ cmd) as [data|err]; [|left; by eexists].
  destruct (Unmarshal data _ _) as [[m h2]|err]; [|right; left; by eexists].
  destruct (mapassign m _ _ h2) as [h3|]; [|right; right; by left].
  destruct (WriteJSON _ _) as [[err|] c]; [do 3 right; left; by eexists|].
  destruct (readerRun bg _) as [ws3|]; [|do 7 right; done].
  destruct (choose pick _) as [[e| |resp]|] eqn:Hch; cbn [fst].
  - do 4 right. left. exists e. split; [|done].
    apply choose_elem in Hch. by apply ready_ctx in Hch.
  - do 5 right. by left.
  - do 6 right. left. by eexists.
  - do 7 right. done.
Qed.

(** A call whose context has already ended, on a live session whose peer
    stays silent: it sends its command and returns the context's error. *)
Lemma sendCommand_context_ended (e : ctxError) (cmd : value) (fields : list (string * json))
    (pick : nat) (w : world) :
  Marshal (makeMap (objs w)).2 cmd = Ok (JObject fields) ->
  writeSucceeds (conn (sess w)) -> done (sess w) = false ->
  (sendCommand (Some e) cmd 0 pick w).1 = Return (Err (ContextError e)).
Proof.
  intros HM Hw Hd.
  unfold sendCommand, nextID, register, makeChan. cbn [fst snd].
  rewrite defer_fst. unfold makeMap in *. cbn [fst snd] in *. rewrite HM.
  cbn [Unmarshal mapassign]. cbn [conn setPending setChans setMsgID].
  rewrite WriteJSON_ok by done. cbn [readerRun].
  rewrite ready_only_ctx.
  - by rewrite choose_singleton.
  - cbn. exact Hd.
  - right. cbn. by rewrite lookup_app_r, Nat.sub_diag.
Qed.

(** When [sendCommand] returns the error of a context, it is the error of
    the context of the call; its entry is gone and a later response with its
    id is dropped. *)
Lemma sendCommand_context_error (ctx : Context) (cmd : value) (bg pick : nat) (w : world)
    (e : ctxError) :
  (sendCommand ctx cmd bg pick w).1 = Return (Err (ContextError e)) ->
  ctx = Some e
  /\ pending (sess (sendCommand ctx cmd bg pick w).2) !! (nextID (sess w)).1 = None
  /\ forall resp, ID resp = (nextID (sess w)).1 ->
       dispatch resp (sess (sendCommand ctx cmd bg pick w).2)
       = Some (sess (sendCommand ctx cmd bg pick w).2).
Proof.
  intros Hout. split; [|split].
  - destruct (sendCommand_outcomes ctx cmd bg pick w)
      as [[x H]|[[x H]|[H|[[x H]|[[x [Hc H]]|[H|[[x H]|H]]]]]]];
      rewrite Hout in H; try discriminate.
    + congruence.
    + unfold received in H. destruct (Error x); [discriminate|].
      destruct (negb (Success x) && String.eqb (Type_ x) "result")%bool; discriminate.
  - apply sendCommand_unregisters. by rewrite Hout.
  - intros resp Hid. destruct (sendCommand_deferred ctx cmd bg pick w) as [body Hb].
    rewrite Hb in Hout |- *. destruct body as [[r|m|] w1]; cbn in Hout |- *; try discriminate.
    by apply dispatch_unregistered.
Qed.

End CancelClose.

(** C6.  A call is blocked in its select (no case is ready).  Its context is
    then cancelled, or its deadline passes, with error [e].  The call returns
    that very error, [ctx.Err()], and on its way out removes its entry from
    the pending map; a response with that id read afterwards finds no entry
    and is dropped, changing nothing.  More generally, whenever the select
    takes the context case, and whenever [sendCommand] returns the error of a
    context, that error is the error of the call's own context, its entry is
    removed and a later response with its id is dropped; and a call whose
    context has ended before the peer answers returns the context's error. *)
Theorem sendCommand_cancelled (s : Machine.state) (i pick pick' : nat)
    (g : Machine.goroutine) (id : Z) (respCh : chan) (e : ctxError) :
  Machine.callers s !! i = Some g ->
  Machine.g_at g = Machine.AtSelect id respCh ->
  ready (Machine.g_ctx g) respCh (sess (Machine.store s)) = [] ->
  (exists s',
     Machine.run [Machine.Cancel i e; Machine.Caller i pick; Machine.Caller i pick'] s = Some s'
     /\ Machine.callers s' !! i
        = Some (Machine.mkGo (Some e) (Machine.g_cmd g)
                  (Machine.Returned id (Return (Err (ContextError e)))))
     /\ pending (sess (Machine.store s')) = delete id (pending (sess (Machine.store s)))
     /\ pending (sess (Machine.store s')) !! id = None
     /\ forall resp, ID resp = id ->
          dispatch resp (sess (Machine.store s')) = Some (sess (Machine.store s')))
  /\ (forall w p e', choose p (ready (Machine.g_ctx g) respCh (sess w)) = Some (CaseCtxDone e') ->
        Machine.g_ctx g = Some e')
  /\ (forall ctx cmd bg p w e',
        (sendCommand ctx cmd bg p w).1 = Return (Err (ContextError e')) ->
        ctx = Some e'
        /\ pending (sess (sendCommand ctx cmd bg p w).2) !! (nextID (sess w)).1 = None
        /\ forall resp, ID resp = (nextID (sess w)).1 ->
             dispatch resp (sess (sendCommand ctx cmd bg p w).2)
             = Some (sess (sendCommand ctx cmd bg p w).2))
  /\ (forall e' cmd fields p w,
        Marshal (makeMap (objs w)).2 cmd = Ok (JObject fields) ->
        writeSucceeds (conn (sess w)) -> done (sess w) = false ->
        (sendCommand (Some e') cmd 0 p w).1 = Return (Err (ContextError e'))).
Proof.
  intros Hg Hat Hready.
  destruct (ready_nil _ _ _ Hready) as (Hctx & Hdone & Hch).
  assert (Hlt : (i < length (Machine.callers s))%nat) by (by eapply lookup_lt_Some).
  split.
  - change (Machine.run [Machine.Cancel i e; Machine.Caller i pick; Machine.Caller i pick'] s)
      with (match Machine.step (Machine.Cancel i e) s with
            | Some s1 => Machine.run [Machine.Caller i pick; Machine.Caller i pick'] s1
            | None => None
            end).
    cbn [Machine.step]. rewrite Hg, Hctx. cbn [Machine.cancel].
    set (g1 := Machine.mkGo (Some e) (Machine.g_cmd g) (Machine.g_at g)).
    set (s1 := Machine.mkState _ _).
    rewrite (run_select_error s1 i pick pick' g1 id respCh (CaseCtxDone e) (ContextError e)).
    + eexists. split; [reflexivity|]. cbn [Machine.callers Machine.store sess s1].
      rewrite insert_insert_same.
      split; [by apply list_lookup_insert_eq|].
      split; [reflexivity|].
      split; [apply lookup_delete_eq|].
      intros resp Hid. by apply dispatch_unregistered.
    + cbn [s1 Machine.callers]. by apply list_lookup_insert_eq.
    + cbn [g1 Machine.g_at]. exact Hat.
    + cbn [g1 Machine.g_ctx s1 Machine.store].
      rewrite (ready_only_ctx e respCh _ Hdone Hch). apply choose_singleton.
    + right. by exists e.
  - split; [|split; [exact sendCommand_context_error | exact sendCommand_context_ended]].
    intros w p e' Hc. apply choose_elem in Hc. by apply ready_ctx in Hc.
Qed.

Lemma sendCommand_cancelled_witness :
  let c := mkConn [] [] [] false in
  let cmd := VOther (JObject [("type", JString "lovelace/config")]) in
  let tr := [Machine.Call None cmd; Machine.Caller 0 0; Machine.Caller 0 0;
             Machine.Caller 0 0; Machine.Caller 0 0]%nat in
  let s := default (Machine.init ∅ c) (Machine.run tr (Machine.init ∅ c)) in
  exists s',
    Machine.run [Machine.Cancel 0 DeadlineExceeded; Machine.Caller 0 0; Machine.Caller 0 0]%nat s
      = Some s'
    /\ Machine.g_at <$> Machine.callers s' !! 0%nat
       = Some (Machine.Returned 1 (Return (Err (ContextError DeadlineExceeded))))
    /\ pending (sess (Machine.store s')) !! 1 = None.
Proof.
  intros c cmd tr s.
  destruct (sendCommand_cancelled s 0 0 0 (Machine.mkGo None cmd (Machine.AtSelect 1 0%nat))
              1 0%nat DeadlineExceeded)
    as [(s' & Hrun & Hret & _ & Hp & _) _]; [vm_compute; reflexivity..|].
  exists s'. split; [exact Hrun|]. rewrite Hret. split; [reflexivity | exact Hp].
Defined.

Section ReaderExit.
Import Machine.

Lemma readerRun_done (n : nat) (ws ws' : wsConn) :
  readerRun n ws = Some ws' ->
  (closed (conn ws) = false -> length (inbox (conn ws)) < n)%nat -> (0 < n)%nat ->
  done ws' = true.
Proof.
  revert ws. induction n as [|n IH]; intros ws Hrun Hlen Hpos; [lia|].
  cbn [readerRun] in Hrun. unfold readerIter in Hrun.
  destruct (closed (conn ws)) eqn:Hcl.
  - unfold ReadJSON in Hrun. rewrite Hcl in Hrun. injection Hrun as <-. apply close_done.
  - specialize (Hlen eq_refl). unfold ReadJSON in Hrun. rewrite Hcl in Hrun.
    destruct (inbox (conn ws)) as [|[resp|e] rest] eqn:Hin.
    + injection Hrun as <-. apply close_done.
    + destruct (dispatch resp _) as [ws2|] eqn:Hd; [|discriminate].
      apply (IH ws2 Hrun); [|cbn [length] in Hlen; lia].
      rewrite (dispatch_conn _ _ _ Hd). cbn [conn setConn inbox]. cbn [length] in Hlen. lia.
    + injection Hrun as <-. apply close_done.
Qed.

Lemma reader_done (ws ws' : wsConn) : reader ws = Some ws' -> done ws' = true.
Proof. intros H. apply (readerRun_done _ _ _ H); lia. Qed.

Lemma choose_nonempty (pick : nat) (c : selectCase) (cases : list selectCase) :
  exists c', choose pick (c :: cases) = Some c'.
Proof.
  unfold choose. apply lookup_lt_is_Some. apply Nat.mod_upper_bound. cbn [length]. lia.
Qed.

(** A call still pending when the reader's read fails: it returns, with the
    connection-closed error or, if its context has ended as well, possibly
    with the error of its context. *)
Lemma pending_call_unblocked (s : state) (i pick pick' : nat) (g : goroutine) (id : Z)
    (ch : chan) (e : error) (c : Conn) :
  Inv s -> callers s !! i = Some g -> g_at g = AtSelect id ch ->
  pending (sess (store s)) !! id = Some ch ->
  ReadJSON (conn (sess (store s))) = (Err e, c) ->
  exists s' err, run [Reader; Caller i pick; Caller i pick'] s = Some s'
    /\ callers s' !! i = Some (goto (Returned id (Return (Err err))) g)
    /\ (err = ErrorString "websocket connection closed"
        \/ exists e', g_ctx g = Some e' /\ err = ContextError e')
    /\ (g_ctx g = None -> err = ErrorString "websocket connection closed")
    /\ pending (sess (store s')) !! id = None
    /\ done (sess (store s')) = true.
Proof.
  intros [HC _] Hg Hat Hp Hread.
  destruct (core_pending _ _ _ HC _ _ Hp) as [Hch _].
  assert (Hlt : (i < length (callers s))%nat) by (by eapply lookup_lt_Some).
  change (run [Reader; Caller i pick; Caller i pick'] s)
    with (match step Reader s with
          | Some s1 => run [Caller i pick; Caller i pick'] s1
          | None => None
          end).
  cbn [step]. unfold readerIter. rewrite Hread.
  set (ws1 := close (setConn c (sess (store s)))).
  destruct (close_registry (setConn c (sess (store s)))) as (Hcs & Hpe & _).
  set (s1 := mkState _ _).
  assert (Hready : ready (g_ctx g) ch (sess (store s1))
                   = match g_ctx g with Some e' => [CaseCtxDone e'] | None => [] end
                     ++ [CaseWsDone]).
  { cbn [s1 store sess]. unfold ready. fold ws1. unfold ws1.
    rewrite close_done, Hcs. cbn [chans setConn]. rewrite Hch. by rewrite app_nil_r. }
  assert (Hsel : exists sc err, choose pick (ready (g_ctx g) ch (sess (store s1))) = Some sc
            /\ (sc = CaseWsDone /\ err = ErrorString "websocket connection closed"
                \/ exists e', sc = CaseCtxDone e' /\ err = ContextError e')
            /\ (err = ErrorString "websocket connection closed"
                \/ exists e', g_ctx g = Some e' /\ err = ContextError e')
            /\ (g_ctx g = None -> err = ErrorString "websocket connection closed")).
  { rewrite Hready. destruct (g_ctx g) as [e'|]; cbn [app].
    - destruct (choose_nonempty pick (CaseCtxDone e') [CaseWsDone]) as [sc Hsc].
      pose proof (choose_elem _ _ _ Hsc) as Hin.
      exists sc. apply elem_of_cons in Hin as [-> | Hin].
      + exists (ContextError e'). split; [done|]. split; [right; by exists e'|].
        split; [right; by exists e' | done].
      + apply list_elem_of_singleton in Hin as ->.
        exists (ErrorString "websocket connection closed").
        split; [done|]. split; [by left|]. split; [by left | done].
    - exists CaseWsDone, (ErrorString "websocket connection closed").
      split; [apply choose_singleton|]. split; [by left|]. split; [by left | done]. }
  destruct Hsel as (sc & err & Hch' & Hcase & Herr & Hlive).
  rewrite (run_select_error s1 i pick pick' g id ch sc err); [|done|done|done|done].
  exists (mkState (mkWorld (objs (store s1)) (unregister id (sess (store s1))))
            (<[i := goto (Returned id (Return (Err err))) g]> (callers s1))), err.
  split; [reflexivity|]. cbn [callers store sess s1].
  split; [by apply list_lookup_insert_eq|]. split; [done|]. split; [done|].
  split; [apply lookup_delete_eq|]. cbn. apply close_done.
Qed.

End ReaderExit.

(** C7 (as amended).  When a read of the reader fails, the reader returns and
    the session is closed; every call still pending at that moment stops
    waiting and fails: with "websocket connection closed" when its context is
    live, and with that error or the error of its context when the context
    has ended as well.  The client's session reference is not cleared: it
    still refers to the closed session.  The next [connectWebSocket] finds
    that session closed and runs the connect path again, which on success
    installs a fresh session; a live session is reused. *)
Theorem reader_exit_closes_session :
  (forall ws e c,
     ReadJSON (conn ws) = (Err e, c) ->
     readerIter ws = Some (close (setConn c ws), false)
     /\ done (close (setConn c ws)) = true
     /\ ((done ws = true -> closed (conn ws) = true) ->
         closed (conn (close (setConn c ws))) = true))
  /\ (forall s i pick pick' g id ch e c,
       Machine.reachable s ->
       Machine.callers s !! i = Some g -> Machine.g_at g = Machine.AtSelect id ch ->
       pending (sess (Machine.store s)) !! id = Some ch ->
       ReadJSON (conn (sess (Machine.store s))) = (Err e, c) ->
       exists s' err,
         Machine.run [Machine.Reader; Machine.Caller i pick; Machine.Caller i pick'] s = Some s'
         /\ Machine.callers s' !! i
            = Some (Machine.goto (Machine.Returned id (Return (Err err))) g)
         /\ (err = ErrorString "websocket connection closed"
             \/ exists e', Machine.g_ctx g = Some e' /\ err = ContextError e')
         /\ (Machine.g_ctx g = None -> err = ErrorString "websocket connection closed")
         /\ pending (sess (Machine.store s')) !! id = None
         /\ done (sess (Machine.store s')) = true)
  /\ (forall c s s',
       ws c = Some s -> reader s = Some s' ->
       readerReturned c = Some (setWs (Some s') c)
       /\ ws (setWs (Some s') c) = Some s' /\ done s' = true)
  /\ (forall dial c s wsURL cn s',
       ws c = Some s -> done s = true ->
       buildWebSocketURL c = Ok wsURL -> dial wsURL = Ok cn ->
       authenticate (token c) (newWsConn cn) = (None, s') ->
       connectWebSocket dial c = mkConnected None (setWs (Some s') c) None true
       /\ done s' = false /\ msgID s' = 0 /\ pending s' = ∅)
  /\ (forall dial c s,
       ws c = Some s -> done s = false ->
       connectWebSocket dial c = mkConnected None c None false).
Proof.
  split; [|split; [|split; [|split]]].
  - intros ws e c Hread. unfold readerIter. rewrite Hread.
    split; [reflexivity|]. split; [apply close_done|].
    intros Hcl. apply close_closed. cbn [done conn setConn].
    pose proof (ReadJSON_closed (conn ws)) as Hc. rewrite Hread in Hc. cbn [snd] in Hc.
    rewrite Hc. exact Hcl.
  - intros s i pick pick' g id ch e c Hreach Hg Hat Hp Hread.
    exact (pending_call_unblocked s i pick pick' g id ch e c
             (reachable_Inv s Hreach) Hg Hat Hp Hread).
  - intros c s s' Hws Hr. unfold readerReturned. rewrite Hws, Hr.
    split; [reflexivity|]. split; [reflexivity|]. exact (reader_done s s' Hr).
  - intros dial c s wsURL cn s' Hws Hd Hu Hdial Hauth.
    rewrite (connectWebSocket_dialled dial c wsURL cn); [|unfold needsConnect; by rewrite Hws|done|done].
    rewrite Hauth. split; [reflexivity|].
    destruct (authenticate_sends_token _ _ _ Hauth) as (_ & Hm & Hp & _ & Hdn & _).
    by rewrite Hm, Hp, Hdn.
  - intros dial c s Hws Hd. unfold connectWebSocket. by rewrite Hws, Hd.
Qed.

Lemma reader_exit_closes_session_witness :
  let dead := close (newWsConn (mkConn [] [] [] false)) in
  let c := mkClient "http://localhost:8123" "secret" (Some dead) in
  let cn := mkConn [Frame (mkWsResponse 0 "auth_required" false "" None "2024.1.0" "");
                    Frame (mkWsResponse 0 "auth_ok" false "" None "2024.1.0" "")]
                   [] [] false in
  let r := connectWebSocket (fun _ => Ok cn) c in
  let cmd := VOther (JObject [("type", JString "lovelace/config")]) in
  let tr := [Machine.Call None cmd; Machine.Caller 0 0; Machine.Caller 0 0;
             Machine.Caller 0 0; Machine.Caller 0 0]%nat in
  let s := default (Machine.init ∅ (mkConn [] [] [] false))
             (Machine.run tr (Machine.init ∅ (mkConn [] [] [] false))) in
  (connErr r = None /\ spawned r = true /\ (done <$> ws (client r)) = Some false)
  /\ exists s',
       Machine.run [Machine.Reader; Machine.Caller 0 0; Machine.Caller 0 0]%nat s = Some s'
       /\ Machine.g_at <$> Machine.callers s' !! 0%nat
          = Some (Machine.Returned 1 (Return (Err (ErrorString "websocket connection closed")))).
Proof.
  intros dead c cn r cmd tr s.
  destruct reader_exit_closes_session as (_ & Hpending & _ & Hreconnect & _).
  split.
  - destruct (Hreconnect (fun _ => Ok cn) c dead "ws://localhost:8123/api/websocket" cn
                (setConn (mkConn [] [] [authMessage "secret"] false) (newWsConn cn))
                eq_refl eq_refl eq_refl eq_refl eq_refl) as (Hr & _).
    subst r. rewrite Hr. repeat split.
  - assert (Hreach : Machine.reachable s)
      by (exists ∅, (mkConn [] [] [] false), tr; vm_compute; reflexivity).
    destruct (Hpending s 0%nat 0%nat 0%nat (Machine.mkGo None cmd (Machine.AtSelect 1 0%nat))
                1 0%nat errEOF
                (mkConn [] [] [{[ "type" := JString "lovelace/config"; "id" := JNumber 1 ]}] false)
                Hreach) as (s' & err & Hrun & Hret & _ & Hlive & _);
      [vm_compute; reflexivity..|].
    exists s'. split; [exact Hrun|]. rewrite Hret, (Hlive eq_refl). reflexivity.
Defined.

(** C7, as stated, fails on the session reference: after the reader has
    returned, the client still holds the (closed) session; the field is
    cleared by [CloseWebSocket] only. *)
Lemma reader_exit_keeps_reference :
  let c := mkClient "http://localhost:8123" "secret"
             (Some (newWsConn (mkConn [ReadError errEOF] [] [] false))) in
  exists c' s', readerReturned c = Some c' /\ ws c' = Some s' /\ done s' = true
                /\ ws c' <> None
                /\ ws (CloseWebSocket c).1 = None.
Proof.
  intros c. eexists. eexists.
  split; [vm_compute; reflexivity|].
  split; [reflexivity|]. split; [reflexivity|]. split; [discriminate | reflexivity].
Qed.

(** C9.  [sendCommand] returns by one of its paths: a marshal or unmarshal
    failure, the panic of the id assignment, a write failure, the
    cancellation of the context, the closing of the session, or a response
    (a result, a remote error or the generic failure).  Whenever it returns,
    the pending map has no entry for the id of the call; in every reachable
    state each entry of the pending map belongs to a call that registered and
    has not returned; and the step by which a call returns is the deferred
    delete of its entry. *)
Theorem sendCommand_entry_removed :
  (forall ctx cmd bg pick w,
     let out := (sendCommand ctx cmd bg pick w).1 in
     ((exists e, out = Return (Err (WrapError "marshal command" e)))
      \/ (exists e, out = Return (Err (WrapError "unmarshal command" e)))
      \/ out = Panic "assignment to entry in nil map"
      \/ (exists e, out = Return (Err (WrapError "write command" e)))
      \/ (exists e, ctx = Some e /\ out = Return (Err (ContextError e)))
      \/ out = Return (Err (ErrorString "websocket connection closed"))
      \/ (exists resp, out = Return (received resp))
      \/ out = Blocks)
     /\ (out <> Blocks ->
         pending (sess (sendCommand ctx cmd bg pick w).2) !! (nextID (sess w)).1 = None))
  /\ (forall s id ch,
       Machine.reachable s -> pending (sess (Machine.store s)) !! id = Some ch ->
       exists i g, Machine.callers s !! i = Some g
                   /\ Machine.inFlight (Machine.g_at g) = Some (id, ch))
  /\ (forall s s' i pick g g' id out,
       Machine.callers s !! i = Some g ->
       Machine.step (Machine.Caller i pick) s = Some s' ->
       Machine.callers s' !! i = Some g' -> Machine.g_at g' = Machine.Returned id out ->
       (exists ch, Machine.g_at g = Machine.AtDefer id ch out)
       /\ pending (sess (Machine.store s')) !! id = None).
Proof.
  split; [|split].
  - intros ctx cmd bg pick w out. split; [apply sendCommand_outcomes|].
    apply sendCommand_unregisters.
  - intros s id ch Hreach Hp. destruct (reachable_Inv s Hreach) as [HC _].
    by destruct (Machine.core_pending _ _ _ HC _ _ Hp) as [_ H].
  - intros s s' i pick g g' id out Hg Hstep Hg' Hat'.
    assert (Hlt : (i < length (Machine.callers s))%nat) by (by eapply lookup_lt_Some).
    cbn [Machine.step] in Hstep. rewrite Hg in Hstep.
    destruct (Machine.callerStep pick g (Machine.store s)) as [[g1 w1]|] eqn:Hcs; [|discriminate].
    injection Hstep as <-. cbn [Machine.callers Machine.store] in *.
    rewrite list_lookup_insert_eq in Hg' by done. injection Hg' as ->.
    unfold Machine.callerStep in Hcs.
    destruct (Machine.g_at g) as [|id0|id0 ch0|id0 ch0 cmdMap|id0 ch0|id0 ch0 out0|id0 out0].
    + injection Hcs as <- <-. discriminate.
    + injection Hcs as <- <-. discriminate.
    + unfold makeMap in Hcs. cbn [fst snd] in Hcs.
      destruct (Marshal _ (Machine.g_cmd g)) as [data|err]; [|injection Hcs as <- <-; discriminate].
      destruct (Unmarshal data _ _) as [[m h2]|err]; [|injection Hcs as <- <-; discriminate].
      destruct (mapassign m "id" (JNumber id0) h2) as [h3|];
        injection Hcs as <- <-; discriminate.
    + destruct (WriteJSON _ _) as [[err|] c]; injection Hcs as <- <-; discriminate.
    + destruct (choose pick _) as [[e| |resp]|]; [| | |discriminate];
        injection Hcs as <- <-; discriminate.
    + injection Hcs as <- <-. cbn [Machine.goto Machine.g_at] in Hat'.
      injection Hat' as <- <-. split; [by eexists|]. apply lookup_delete_eq.
    + discriminate.
Qed.

Lemma sendCommand_entry_removed_witness :
  let w := mkWorld ∅ (newWsConn (mkConn [] [Some errClosed] [] false)) in
  let cmd := VOther (JObject [("type", JString "lovelace/config")]) in
  (sendCommand None cmd 0 0 w).1 = Return (Err (WrapError "write command" errClosed))
  /\ pending (sess (sendCommand None cmd 0 0 w).2) !! 1 = None.
Proof.
  intros w cmd. destruct sendCommand_entry_removed as (Hseq & _).
  split; [vm_compute; reflexivity|].
  apply (Hseq None cmd 0%nat 0%nat w). vm_compute. discriminate.
Defined.

(** * The session beyond the specification: what the reader, [close],
      [sendCommand] and the handshake touch *)

Section Footprints.
Import Machine.

Lemma dispatch_keeps (resp : wsResponse) (ws ws' : wsConn) :
  dispatch resp ws = Some ws' ->
  conn ws' = conn ws /\ msgID ws' = msgID ws /\ done ws' = done ws
  /\ length (chans ws') = length (chans ws)
  /\ forall id ch, pending ws' !! id = Some ch -> pending ws !! id = Some ch.
Proof.
  unfold dispatch. destruct (ID resp =? 0); [by intros [= <-]|].
  destruct (pending ws !! ID resp) as [c|] eqn:Hp; [|by intros [= <-]].
  unfold chanSend. destruct (chans ws !! c) as [[|r buf]|]; try discriminate.
  intros [= <-]. cbn [conn msgID done chans pending setPending setChans].
  rewrite length_insert. repeat split; try done.
  intros id ch H. apply lookup_delete_Some in H. tauto.
Qed.

Lemma ReadJSON_keeps (c : Conn) :
  wscript (ReadJSON c).2 = wscript c /\ outbox (ReadJSON c).2 = outbox c
  /\ closed (ReadJSON c).2 = closed c
  /\ (inbox (ReadJSON c).2 = inbox c \/ inbox (ReadJSON c).2 = tail (inbox c)).
Proof.
  unfold ReadJSON. destruct (closed c) eqn:Hc; [by auto|].
  destruct (inbox c) as [|[r|e] rest] eqn:Hi; cbn; rewrite ?Hi; repeat split; auto.
Qed.

Lemma close_keeps (ws : wsConn) :
  inbox (conn (close ws)) = inbox (conn ws) /\ wscript (conn (close ws)) = wscript (conn ws)
  /\ outbox (conn (close ws)) = outbox (conn ws).
Proof. unfold close. by destruct (done ws). Qed.

Lemma readerIter_keeps (ws ws' : wsConn) (b : bool) :
  readerIter ws = Some (ws', b) ->
  outbox (conn ws') = outbox (conn ws) /\ wscript (conn ws') = wscript (conn ws)
  /\ msgID ws' = msgID ws /\ length (chans ws') = length (chans ws)
  /\ (forall id ch, pending ws' !! id = Some ch -> pending ws !! id = Some ch)
  /\ (inbox (conn ws') = inbox (conn ws) \/ inbox (conn ws') = tail (inbox (conn ws)))
  /\ (done ws = true -> done ws' = true).
Proof.
  unfold readerIter.
  destruct (ReadJSON_keeps (conn ws)) as (Hw & Ho & _ & Hi).
  destruct (ReadJSON (conn ws)) as [[resp|e] c]; cbn [snd] in *.
  - destruct (dispatch resp (setConn c ws)) as [ws1|] eqn:Hd; [|discriminate].
    intros [= <- <-]. destruct (dispatch_keeps _ _ _ Hd) as (Hc & Hm & Hdn & Hl & Hp).
    rewrite Hc, Hm, Hdn, Hl. cbn [conn setConn msgID chans done]. repeat split; done.
  - intros [= <- <-].
    destruct (close_keeps (setConn c ws)) as (Hci & Hcw & Hco).
    destruct (close_registry (setConn c ws)) as (Hcc & Hcp & Hcm).
    rewrite Hci, Hcw, Hco, Hcc, Hcp, Hcm. cbn [conn setConn msgID chans pending].
    repeat split; try done. intros _. apply close_done.
Qed.

Lemma readerRun_registry (n : nat) (ws ws' : wsConn) :
  readerRun n ws = Some ws' ->
  msgID ws' = msgID ws /\ length (chans ws') = length (chans ws)
  /\ (forall id ch, pending ws' !! id = Some ch -> pending ws !! id = Some ch)
  /\ (done ws = true -> done ws' = true).
Proof.
  revert ws. induction n as [|n IH]; intros ws; cbn [readerRun].
  - by intros [= <-].
  - destruct (readerIter ws) as [[ws1 b]|] eqn:Hit; [|discriminate].
    destruct (readerIter_keeps _ _ _ Hit) as (_ & _ & Hm & Hl & Hp & _ & Hd).
    destruct b; [|intros [= <-]; done].
    intros Hrun. destruct (IH _ Hrun) as (Hm' & Hl' & Hp' & Hd').
    rewrite Hm', Hl', Hm, Hl. repeat split; try done.
    + intros id ch H. by apply Hp, Hp'.
    + intros H. by apply Hd', Hd.
Qed.

End Footprints.

(** X1.  The reader goroutine only consumes: whatever the number of
    iterations, it writes nothing to the connection and uses up none of the
    write results, does not touch the id counter, makes no channel, adds no
    pending entry (the entries it leaves were there before), takes the frames
    of the inbox in order, at most one per iteration, and never reopens a
    closed session. *)
Theorem reader_footprint (n : nat) (ws ws' : wsConn) :
  readerRun n ws = Some ws' ->
  outbox (conn ws') = outbox (conn ws) /\ wscript (conn ws') = wscript (conn ws)
  /\ msgID ws' = msgID ws /\ length (chans ws') = length (chans ws)
  /\ (forall id ch, pending ws' !! id = Some ch -> pending ws !! id = Some ch)
  /\ (exists k, (k <= n)%nat /\ inbox (conn ws') = drop k (inbox (conn ws)))
  /\ (done ws = true -> done ws' = true).
Proof.
  revert ws. induction n as [|n IH]; intros ws; cbn [readerRun].
  - intros [= <-]. repeat split; try done. exists 0%nat. split; [lia|done].
  - destruct (readerIter ws) as [[ws1 b]|] eqn:Hit; [|discriminate].
    destruct (readerIter_keeps _ _ _ Hit) as (Ho & Hw & Hm & Hl & Hp & Hi & Hd).
    assert (Hlast : ws' = ws1 ->
      outbox (conn ws') = outbox (conn ws) /\ wscript (conn ws') = wscript (conn ws)
      /\ msgID ws' = msgID ws /\ length (chans ws') = length (chans ws)
      /\ (forall id ch, pending ws' !! id = Some ch -> pending ws !! id = Some ch)
      /\ (exists k, (k <= S n)%nat /\ inbox (conn ws') = drop k (inbox (conn ws)))
      /\ (done ws = true -> done ws' = true)).
    { intros ->. repeat split; try done.
      destruct Hi as [Hi|Hi]; [exists 0%nat | exists 1%nat]; (split; [lia|]);
        rewrite Hi; [done | by destruct (inbox (conn ws))]. }
    destruct b; [|intros [= <-]; by apply Hlast].
    intros Hrun. destruct (IH _ Hrun) as (Ho' & Hw' & Hm' & Hl' & Hp' & (k & Hk & Hi') & Hd').
    rewrite Ho', Hw', Hm', Hl', Ho, Hw, Hm, Hl. repeat split; try done.
    + intros id ch H. by apply Hp, Hp'.
    + destruct Hi as [Hi|Hi]; rewrite Hi in Hi'.
      * exists k. split; [lia|done].
      * exists (S k). split; [lia|]. rewrite Hi'.
        destruct (inbox (conn ws)); cbn; [by rewrite ?drop_nil | done].
    + intros H. by apply Hd', Hd.
Qed.

Lemma reader_footprint_witness :
  let r1 := mkWsResponse 1 "result" true "{}" None "" "" in
  let ev := mkWsResponse 0 "event" false "" None "" "" in
  let ws := mkWsConn (mkConn [Frame ev; Frame r1; Frame ev] [None] [∅] false)
              1 {[ 1 := 0%nat ]} [[]] false in
  let ws' := default ws (readerRun 2 ws) in
  outbox (conn ws') = outbox (conn ws) /\ wscript (conn ws') = wscript (conn ws)
  /\ msgID ws' = msgID ws /\ length (chans ws') = length (chans ws)
  /\ (forall id ch, pending ws' !! id = Some ch -> pending ws !! id = Some ch)
  /\ (exists k, (k <= 2)%nat /\ inbox (conn ws') = drop k (inbox (conn ws)))
  /\ (done ws = true -> done ws' = true).
Proof.
  intros r1 ev ws ws'. apply (reader_footprint 2 ws ws'). vm_compute. reflexivity.
Defined.

(** X2.  One call of [sendCommand] advances the id counter by exactly one
    (with the int64 wrap-around) whatever its outcome, makes exactly one
    channel, writes at most one frame, and when it returns it leaves no
    pending entry that was not there before the call: the entries left are
    entries of other calls. *)
Theorem sendCommand_footprint (ctx : Context) (cmd : value) (bg pick : nat) (w : world) :
  let r := sendCommand ctx cmd bg pick w in
  let id := (nextID (sess w)).1 in
  msgID (sess r.2) = wrap64 (msgID (sess w) + 1)
  /\ length (chans (sess r.2)) = S (length (chans (sess w)))
  /\ (outbox (conn (sess r.2)) = outbox (conn (sess w))
      \/ exists frame, outbox (conn (sess r.2)) = outbox (conn (sess w)) ++ [frame])
  /\ (r.1 <> Blocks ->
      forall id' ch, pending (sess r.2) !! id' = Some ch ->
        id' <> id /\ pending (sess w) !! id' = Some ch)
  /\ (done (sess w) = true -> done (sess r.2) = true).
Proof.
  intros r id.
  assert (Hout : outbox (conn (sess r.2)) = outbox (conn (sess w))
      \/ exists frame, outbox (conn (sess r.2)) = outbox (conn (sess w)) ++ [frame]).
  { destruct (sendCommand_id_injected ctx cmd bg pick w) as [H|(frame & H & _)];
      [by left | right; by exists frame]. }
  assert (Hshape : exists wsX out,
    r = defer (unregister id) (out, mkWorld (objs r.2) wsX)
    /\ msgID wsX = wrap64 (msgID (sess w) + 1)
    /\ length (chans wsX) = S (length (chans (sess w)))
    /\ (forall id' ch, pending wsX !! id' = Some ch ->
          id' = id \/ pending (sess w) !! id' = Some ch)
    /\ (done (sess w) = true -> done wsX = true)).
  { subst r id. unfold sendCommand, nextID, register, makeChan, makeMap. cbn [fst snd].
    set (id := wrap64 (msgID (sess w) + 1)).
    match goal with |- context [defer _ ?b] => set (body := b) end.
    set (ws1 := setPending _ _) in body.
    assert (H1 : msgID ws1 = id /\ length (chans ws1) = S (length (chans (sess w)))
                 /\ (forall id' ch, pending ws1 !! id' = Some ch ->
                       id' = id \/ pending (sess w) !! id' = Some ch)
                 /\ (done (sess w) = true -> done ws1 = true)).
    { unfold ws1. cbn. rewrite length_app. cbn. repeat split; [lia| |done].
      intros id' ch H. destruct (decide (id' = id)) as [->|Hne]; [by left|].
      right. by rewrite lookup_insert_ne in H. }
    destruct H1 as (Hm1 & Hl1 & Hp1 & Hd1).
    assert (Hany : forall out h wsX,
      body = (out, mkWorld h wsX) ->
      msgID wsX = msgID ws1 -> length (chans wsX) = length (chans ws1) ->
      (forall id' ch, pending wsX !! id' = Some ch -> pending ws1 !! id' = Some ch) ->
      (done ws1 = true -> done wsX = true) ->
      exists wsX out,
        defer (unregister id) body
        = defer (unregister id) (out, mkWorld (objs (defer (unregister id) body).2) wsX)
        /\ msgID wsX = id
        /\ length (chans wsX) = S (length (chans (sess w)))
        /\ (forall id' ch, pending wsX !! id' = Some ch ->
              id' = id \/ pending (sess w) !! id' = Some ch)
        /\ (done (sess w) = true -> done wsX = true)).
    { intros out h wsX Hb Hm Hl Hp Hd. exists wsX, out.
      rewrite defer_objs, Hb. cbn [snd objs].
      repeat split; [congruence|congruence| |auto].
      intros id' ch H. by apply Hp1, Hp. }
    subst body.
    destruct (Marshal _ cmd) as [data|err]; [|by eapply Hany].
    destruct (Unmarshal data _ _) as [[m h2]|err]; [|by eapply Hany].
    destruct (mapassign m _ _ h2) as [h3|]; [|by eapply Hany].
    destruct (WriteJSON _ _) as [[err|] c]; [by eapply Hany|].
    destruct (readerRun bg _) as [ws3|] eqn:HR; [|by eapply Hany].
    destruct (readerRun_registry _ _ _ HR) as (Hm3 & Hl3 & Hp3 & Hd3).
    destruct (choose pick _) as [[e| |resp]|]; try (by eapply Hany).
    eapply Hany; [reflexivity| | | |]; cbn [msgID chans pending done chanRecv setChans];
      rewrite ?length_insert; try done. }
  destruct Hshape as (wsX & out & Hr & Hm & Hl & Hp & Hd).
  split; [|split; [|split; [exact Hout|split]]].
  - rewrite Hr. by destruct out.
  - rewrite Hr. by destruct out.
  - intros Hnb id' ch. rewrite Hr in Hnb |- *.
    destruct out; [| |done]; cbn [defer snd sess unregister setPending pending];
      intros H; apply lookup_delete_Some in H as [Hne H];
      (split; [done|]); by destruct (Hp _ _ H).
  - intros H. rewrite Hr. by destruct out; cbn; auto.
Qed.

Section Closed.
Import Machine.

Lemma WriteJSON_on_closed (v : gmap string json) (c : Conn) :
  closed c = true -> WriteJSON v c = (Some errClosed, c).
Proof. intros H. unfold WriteJSON. by rewrite H. Qed.

Lemma ReadJSON_on_closed (c : Conn) :
  closed c = true -> ReadJSON c = (Err errClosed, c).
Proof. intros H. unfold ReadJSON. by rewrite H. Qed.

Lemma close_on_closed (ws : wsConn) :
  closed (conn ws) = true ->
  closed (conn (close ws)) = true /\ inbox (conn (close ws)) = inbox (conn ws)
  /\ outbox (conn (close ws)) = outbox (conn ws).
Proof. intros H. unfold close. by destruct (done ws). Qed.

Lemma callerStep_on_closed (pick : nat) (g g' : goroutine) (w w' : world) :
  closed (conn (sess w)) = true -> callerStep pick g w = Some (g', w') ->
  conn (sess w') = conn (sess w) /\ done (sess w') = done (sess w).
Proof.
  intros Hc. unfold callerStep.
  destruct (g_at g) as [|id|id ch|id ch m|id ch|id ch out|id out].
  - by intros [= <- <-].
  - by intros [= <- <-].
  - unfold makeMap. cbn [fst snd].
    destruct (Marshal _ _) as [data|err]; [|by intros [= <- <-]].
    destruct (Unmarshal data _ _) as [[m h2]|err]; [|by intros [= <- <-]].
    destruct (mapassign m _ _ h2) as [h3|]; by intros [= <- <-].
  - rewrite WriteJSON_on_closed by done. intros [= <- <-]. by destruct (sess w).
  - destruct (choose pick _) as [[e| |resp]|]; [| | |discriminate]; by intros [= <- <-].
  - by intros [= <- <-].
  - discriminate.
Qed.

Lemma step_on_closed (a : action) (s s' : state) :
  closed (conn (sess (store s))) = true -> step a s = Some s' ->
  closed (conn (sess (store s'))) = true
  /\ outbox (conn (sess (store s'))) = outbox (conn (sess (store s)))
  /\ inbox (conn (sess (store s'))) = inbox (conn (sess (store s)))
  /\ (done (sess (store s)) = true -> done (sess (store s')) = true).
Proof.
  intros Hc. destruct a as [ctx cmd|i pick|i e| |]; cbn [step].
  - by intros [= <-].
  - destruct (callers s !! i) as [g|]; [|discriminate].
    destruct (callerStep pick g (store s)) as [[g' w']|] eqn:Hstep; [|discriminate].
    intros [= <-]. cbn [store].
    destruct (callerStep_on_closed _ _ _ _ _ Hc Hstep) as [-> ->]. done.
  - destruct (callers s !! i) as [g|]; [|discriminate]. by intros [= <-].
  - unfold readerIter. rewrite ReadJSON_on_closed by done.
    intros [= <-]. cbn [store sess].
    assert (Hsame : setConn (conn (sess (store s))) (sess (store s)) = sess (store s))
      by (by destruct (sess (store s))).
    rewrite Hsame. destruct (close_on_closed _ Hc) as (-> & -> & ->).
    repeat split. intros _. apply close_done.
  - intros [= <-]. cbn [store sess].
    destruct (close_on_closed _ Hc) as (-> & -> & ->).
    repeat split. intros _. apply close_done.
Qed.

End Closed.

(** X3.  A closed connection is dead for good: from a state whose
    connection is closed (by the reader's exit or by CloseWebSocket),
    whatever the callers, the reader, cancellations and further closes do,
    the connection stays closed, no frame is written to it and none is read
    from it any more, and a closed session is never reopened. *)
Theorem closed_session_stays_closed (tr : list Machine.action) (s s' : Machine.state) :
  closed (conn (sess (Machine.store s))) = true ->
  Machine.run tr s = Some s' ->
  closed (conn (sess (Machine.store s'))) = true
  /\ outbox (conn (sess (Machine.store s'))) = outbox (conn (sess (Machine.store s)))
  /\ inbox (conn (sess (Machine.store s'))) = inbox (conn (sess (Machine.store s)))
  /\ (done (sess (Machine.store s)) = true -> done (sess (Machine.store s')) = true).
Proof.
  revert s. induction tr as [|a tr IH]; intros s Hc; cbn [Machine.run].
  - by intros [= <-].
  - destruct (Machine.step a s) as [s1|] eqn:Hstep; [|discriminate].
    destruct (step_on_closed _ _ _ Hc Hstep) as (Hc1 & Ho1 & Hi1 & Hd1).
    intros Hrun. destruct (IH _ Hc1 Hrun) as (Hc' & Ho' & Hi' & Hd').
    rewrite Ho', Hi', Ho1, Hi1. repeat split; [done|]. intros H. by apply Hd', Hd1.
Qed.

Lemma closed_session_stays_closed_witness :
  let cmd := VOther (JObject [("type", JString "lovelace/config")]) in
  let r1 := mkWsResponse 1 "result" true "{}" None "" "" in
  let s := Machine.mkState (mkWorld ∅ (close (newWsConn (mkConn [Frame r1] [] [] false)))) [] in
  let tr := [Machine.Call None cmd; Machine.Caller 0 0; Machine.Caller 0 0; Machine.Caller 0 0;
             Machine.Reader; Machine.Caller 0 0; Machine.Caller 0 0; Machine.Shutdown]%nat in
  let s' := default s (Machine.run tr s) in
  closed (conn (sess (Machine.store s'))) = true
  /\ outbox (conn (sess (Machine.store s'))) = outbox (conn (sess (Machine.store s)))
  /\ inbox (conn (sess (Machine.store s'))) = inbox (conn (sess (Machine.store s)))
  /\ (done (sess (Machine.store s)) = true -> done (sess (Machine.store s')) = true).
Proof.
  intros cmd r1 s tr s'. apply (closed_session_stays_closed tr s s'); vm_compute; reflexivity.
Defined.

(** X4.  A call on a session whose connection is closed does not wait: it
    never blocks and never returns a response.  For a command that encodes
    to an object it is the write that fails, so the call returns the error
    "write command: ..." (not "websocket connection closed", and not the
    context's error even when the context has ended); nothing is written
    and the call's pending entry is removed. *)
Theorem sendCommand_on_closed_connection (ctx : Context) (cmd : value) (bg pick : nat)
    (w : world) :
  closed (conn (sess w)) = true ->
  let r := sendCommand ctx cmd bg pick w in
  r.1 <> Blocks
  /\ (forall resp, r.1 <> Return (Ok resp))
  /\ (forall fields, Marshal (makeMap (objs w)).2 cmd = Ok (JObject fields) ->
        exists e, r.1 = Return (Err (WrapError "write command" e)))
  /\ outbox (conn (sess r.2)) = outbox (conn (sess w))
  /\ pending (sess r.2) !! (nextID (sess w)).1 = None.
Proof.
  intros Hc r.
  assert (Hout : r.1 <> Blocks /\ (forall resp, r.1 <> Return (Ok resp))
     /\ (forall fields, Marshal (makeMap (objs w)).2 cmd = Ok (JObject fields) ->
           exists e, r.1 = Return (Err (WrapError "write command" e)))
     /\ outbox (conn (sess r.2)) = outbox (conn (sess w))).
  { subst r. unfold sendCommand, nextID, register, makeChan, makeMap. cbn [fst snd].
    rewrite defer_fst, defer_conn by reflexivity.
    destruct (Marshal _ cmd) as [data|err];
      [|cbn; repeat split; try done; intros fields [=]].
    destruct data as [|b|n|str|items|fields];
      try (cbn; repeat split; try done; intros fields' [=]).
    cbn [Unmarshal mapassign]. cbn [conn setPending setChans setMsgID].
    rewrite WriteJSON_on_closed by done. cbn.
    repeat split; try done. intros _ _. by eexists. }
  destruct Hout as (Hnb & Hnr & Hw & Ho). repeat split; try done.
  by apply sendCommand_unregisters.
Qed.

Lemma sendCommand_on_closed_connection_witness :
  let cmd := VOther (JObject [("type", JString "lovelace/config")]) in
  let w := mkWorld ∅ (close (newWsConn (mkConn [] [] [] false))) in
  let r := sendCommand (Some Canceled) cmd 0 0 w in
  r.1 <> Blocks
  /\ (forall resp, r.1 <> Return (Ok resp))
  /\ (forall fields, Marshal (makeMap (objs w)).2 cmd = Ok (JObject fields) ->
        exists e, r.1 = Return (Err (WrapError "write command" e)))
  /\ outbox (conn (sess r.2)) = outbox (conn (sess w))
  /\ pending (sess r.2) !! (nextID (sess w)).1 = None.
Proof.
  intros cmd w. apply (sendCommand_on_closed_connection (Some Canceled) cmd 0 0 w).
  vm_compute. reflexivity.
Defined.

(** * The client: connecting, closing and [wsCommand] *)

Section ClientFacts.

Lemma authenticate_keeps (tok : string) (ws : wsConn) :
  let r := authenticate tok ws in
  msgID r.2 = msgID ws /\ pending r.2 = pending ws /\ chans r.2 = chans ws
  /\ done r.2 = done ws /\ closed (conn r.2) = closed (conn ws).
Proof.
  cbn zeta. unfold authenticate.
  pose proof (ReadJSON_closed (conn ws)) as Hr1.
  destruct (ReadJSON (conn ws)) as [[r1|e1] c1]; cbn [snd] in Hr1; [|done].
  destruct (negb (String.eqb (Type_ r1) "auth_required")); [done|].
  cbn [conn setConn].
  pose proof (WriteJSON_closed (authMessage tok) c1) as Hw.
  destruct (WriteJSON (authMessage tok) c1) as [[e2|] c2]; cbn [snd] in Hw;
    [cbn; repeat split; congruence|].
  pose proof (ReadJSON_closed c2) as Hr2.
  destruct (ReadJSON c2) as [[r2|e3] c3]; cbn [snd] in Hr2; [|cbn; repeat split; congruence].
  destruct (String.eqb (Type_ r2) "auth_ok");
    [|destruct (String.eqb (Type_ r2) "auth_invalid")]; cbn; repeat split; congruence.
Qed.

Lemma connectWebSocket_live (dial : string -> result Conn) (c : Client) :
  connErr (connectWebSocket dial c) = None ->
  exists s, ws (client (connectWebSocket dial c)) = Some s /\ done s = false.
Proof.
  unfold connectWebSocket.
  destruct (ws c) as [s|] eqn:Hws.
  - destruct (done s) eqn:Hd; cbn [negb].
    + destruct (buildWebSocketURL c) as [u|e]; [|discriminate].
      destruct (dial u) as [cn|e]; [|discriminate].
      pose proof (authenticate_keeps (token c) (newWsConn cn)) as (_ & _ & _ & Hdn & _).
      destruct (authenticate (token c) (newWsConn cn)) as [[e|] s']; [discriminate|].
      intros _. exists s'. split; [done|]. exact Hdn.
    + intros _. exists s. cbn [client]. by rewrite Hws.
  - destruct (buildWebSocketURL c) as [u|e]; [|discriminate].
    destruct (dial u) as [cn|e]; [|discriminate].
    pose proof (authenticate_keeps (token c) (newWsConn cn)) as (_ & _ & _ & Hdn & _).
    destruct (authenticate (token c) (newWsConn cn)) as [[e|] s']; [discriminate|].
    intros _. exists s'. split; [done|]. exact Hdn.
Qed.

End ClientFacts.

(** X5.  [connectWebSocket] is idempotent: after a call that returned no
    error the client holds a live session, and a further call returns at
    once with the same client, whatever the network would answer: it does
    not dial, drops no connection and starts no second reader. *)
Theorem connectWebSocket_idempotent (dial dial' : string -> result Conn) (c : Client) :
  connErr (connectWebSocket dial c) = None ->
  let c1 := client (connectWebSocket dial c) in
  (exists s, ws c1 = Some s /\ done s = false)
  /\ connectWebSocket dial' c1 = mkConnected None c1 None false.
Proof.
  intros Hok c1. destruct (connectWebSocket_live dial c Hok) as (s & Hs & Hd).
  fold c1 in Hs. split; [by exists s|].
  unfold connectWebSocket. by rewrite Hs, Hd.
Qed.

Lemma connectWebSocket_idempotent_witness :
  let cn := mkConn [Frame (mkWsResponse 0 "auth_required" false "" None "2024.1.0" "");
                    Frame (mkWsResponse 0 "auth_ok" false "" None "2024.1.0" "")]
                   [] [] false in
  let c := mkClient "http://localhost:8123" "secret" None in
  let c1 := client (connectWebSocket (fun _ => Ok cn) c) in
  (exists s, ws c1 = Some s /\ done s = false)
  /\ connectWebSocket (fun _ => Err (ErrorString "connection refused")) c1
     = mkConnected None c1 None false.
Proof.
  intros cn c.
  apply (connectWebSocket_idempotent (fun _ => Ok cn)
           (fun _ => Err (ErrorString "connection refused")) c).
  vm_compute. reflexivity.
Defined.

(** X6.  Every error of [connectWebSocket] names the stage that failed, and
    the stages fail in order: "build websocket URL" (the network is not
    dialled: the result is the same for every network), "websocket dial"
    (no connection was opened, none is dropped), "websocket auth" (the
    handshake failed on the dialled connection, which is closed).  In each
    case the client is left as it was and no reader is started. *)
Theorem connectWebSocket_error_stages (dial : string -> result Conn) (c : Client) (e : error) :
  connErr (connectWebSocket dial c) = Some e ->
  let r := connectWebSocket dial c in
  client r = c /\ spawned r = false /\ needsConnect c
  /\ ((exists e0, buildWebSocketURL c = Err e0 /\ e = WrapError "build websocket URL" e0
         /\ dropped r = None /\ forall dial', connectWebSocket dial' c = r)
      \/ (exists u e0, buildWebSocketURL c = Ok u /\ dial u = Err e0
            /\ e = WrapError "websocket dial" e0 /\ dropped r = None)
      \/ (exists u cn e0, buildWebSocketURL c = Ok u /\ dial u = Ok cn
            /\ (authenticate (token c) (newWsConn cn)).1 = Some e0
            /\ e = WrapError "websocket auth" e0
            /\ dropped r = Some (Close (conn (authenticate (token c) (newWsConn cn)).2)))).
Proof.
  intros He r. subst r.
  destruct (connectWebSocket_failure dial c e He) as (Hc & Hs & _).
  split; [exact Hc|]. split; [exact Hs|]. clear Hc Hs.
  revert He. unfold connectWebSocket, needsConnect.
  set (live := match ws c with Some s => negb (done s) | None => false end).
  assert (Hlive : live = false ->
            match ws c with Some s => done s = true | None => True end).
  { unfold live. destruct (ws c) as [s|]; [|done]. by destruct (done s). }
  destruct live; [discriminate|]. specialize (Hlive eq_refl).
  destruct (buildWebSocketURL c) as [u|e0] eqn:Hu.
  - destruct (dial u) as [cn|e0] eqn:Hd.
    + destruct (authenticate (token c) (newWsConn cn)) as [[e0|] s] eqn:Ha; [|discriminate].
      intros [= <-]. split; [done|]. right; right. exists u, cn, e0. by rewrite Ha.
    + intros [= <-]. split; [done|]. right; left. by exists u, e0.
  - intros [= <-]. split; [done|]. left. exists e0. repeat split.
Qed.

Lemma connectWebSocket_error_stages_witness :
  let c := mkClient "ftp://files.example.com" "secret" None in
  let dial := fun _ : string => Ok (mkConn [] [] [] false) in
  let e := WrapError "build websocket URL" (ErrorString "unsupported scheme: ftp") in
  let r := connectWebSocket dial c in
  client r = c /\ spawned r = false /\ needsConnect c
  /\ ((exists e0, buildWebSocketURL c = Err e0 /\ e = WrapError "build websocket URL" e0
         /\ dropped r = None /\ forall dial', connectWebSocket dial' c = r)
      \/ (exists u e0, buildWebSocketURL c = Ok u /\ dial u = Err e0
            /\ e = WrapError "websocket dial" e0 /\ dropped r = None)
      \/ (exists u cn e0, buildWebSocketURL c = Ok u /\ dial u = Ok cn
            /\ (authenticate (token c) (newWsConn cn)).1 = Some e0
            /\ e = WrapError "websocket auth" e0
            /\ dropped r = Some (Close (conn (authenticate (token c) (newWsConn cn)).2)))).
Proof.
  intros c dial e. apply (connectWebSocket_error_stages dial c e). vm_compute. reflexivity.
Defined.

(** X7.  [CloseWebSocket] closes the session, if there is one, and clears
    the client's reference to it; URL and token stay.  Called again, or on
    a client without a session, it does nothing.  The closed session keeps
    its registry (the callers still holding it fail by themselves), and
    the next [connectWebSocket] dials again: the session it installs starts
    with the id counter at 0 and an empty pending map. *)
Theorem CloseWebSocket_resets (dial : string -> result Conn) (c : Client) :
  let c' := (CloseWebSocket c).1 in
  ws c' = None /\ baseURL c' = baseURL c /\ token c' = token c
  /\ CloseWebSocket c' = (c', None)
  /\ (forall s, ws c = Some s ->
        (CloseWebSocket c).2 = Some (close s) /\ done (close s) = true
        /\ pending (close s) = pending s /\ msgID (close s) = msgID s)
  /\ (ws c = None -> CloseWebSocket c = (c, None))
  /\ (forall wsURL cn s',
        buildWebSocketURL c = Ok wsURL -> dial wsURL = Ok cn ->
        authenticate (token c) (newWsConn cn) = (None, s') ->
        connectWebSocket dial c' = mkConnected None (setWs (Some s') c) None true
        /\ msgID s' = 0 /\ pending s' = ∅ /\ done s' = false).
Proof.
  intros c'.
  assert (Hc' : ws c' = None /\ baseURL c' = baseURL c /\ token c' = token c).
  { subst c'. unfold CloseWebSocket. destruct (ws c) as [s|] eqn:Hws; cbn; by rewrite ?Hws. }
  destruct Hc' as (Hn & Hb & Ht).
  split; [exact Hn|]. split; [exact Hb|]. split; [exact Ht|]. split; [|split; [|split]].
  - unfold CloseWebSocket at 1. by rewrite Hn.
  - intros s Hs. unfold CloseWebSocket. rewrite Hs. cbn [snd].
    destruct (close_registry s) as (_ & Hp & Hm). by rewrite close_done.
  - intros Hs. unfold CloseWebSocket. by rewrite Hs.
  - intros wsURL cn s' Hu Hd Ha.
    pose proof (authenticate_keeps (token c) (newWsConn cn)) as (Hm & Hp & _ & Hdn & _).
    rewrite Ha in Hm, Hp, Hdn. cbn [snd] in Hm, Hp, Hdn.
    split; [|by rewrite Hm, Hp, Hdn].
    unfold connectWebSocket. rewrite Hn.
    assert (Hu' : buildWebSocketURL c' = buildWebSocketURL c)
      by (unfold buildWebSocketURL; by rewrite Hb).
    rewrite Hu', Hu, Hd, Ht, Ha. unfold setWs. by rewrite Hb, Ht.
Qed.

(** X8.  The handshake leaves the registry alone (id counter, pending map,
    channels, closed signal), reads at most two frames, and writes at most
    one: the credential message, and only after a first frame of type
    auth_required.  It succeeds only if the connection is open and the
    peer's first two frames are auth_required and auth_ok. *)
Theorem authenticate_footprint (tok : string) (ws : wsConn) :
  let r := authenticate tok ws in
  msgID r.2 = msgID ws /\ pending r.2 = pending ws /\ chans r.2 = chans ws
  /\ done r.2 = done ws
  /\ (exists k, (k <= 2)%nat /\ inbox (conn r.2) = drop k (inbox (conn ws)))
  /\ (outbox (conn r.2) = outbox (conn ws)
      \/ outbox (conn r.2) = outbox (conn ws) ++ [authMessage tok]
         /\ exists r1 rest, inbox (conn ws) = Frame r1 :: rest /\ Type_ r1 = "auth_required")
  /\ (r.1 = None ->
      closed (conn ws) = false
      /\ exists r1 r2 rest, inbox (conn ws) = Frame r1 :: Frame r2 :: rest
           /\ Type_ r1 = "auth_required" /\ Type_ r2 = "auth_ok").
Proof.
  intros r.
  destruct (authenticate_keeps tok ws) as (Hm & Hp & Hc & Hd & _). fold r in Hm, Hp, Hc, Hd.
  split; [exact Hm|]. split; [exact Hp|]. split; [exact Hc|]. split; [exact Hd|].
  clear Hm Hp Hc Hd.
  assert (Hr : r = authenticate tok ws) by reflexivity. clearbody r.
  unfold authenticate in Hr. unfold ReadJSON at 1 in Hr.
  destruct (closed (conn ws)) eqn:Hcl.
  { subst r. cbn. split; [exists 0%nat; by split; [lia|]|]. split; [by left|done]. }
  destruct (inbox (conn ws)) as [|[r1|e1] rest] eqn:Hin.
  { subst r. cbn. rewrite Hin. split; [exists 0%nat; by split; [lia|]|]. split; [by left|done]. }
  2:{ subst r. cbn. split; [exists 1%nat; by split; [lia|]|]. split; [by left|done]. }
  destruct (String.eqb (Type_ r1) "auth_required") eqn:Ht1; cbn [negb] in Hr.
  2:{ subst r. cbn. split; [exists 1%nat; by split; [lia|]|]. split; [by left|done]. }
  apply String.eqb_eq in Ht1. cbn [conn setConn] in Hr.
  unfold WriteJSON in Hr. cbn [closed wscript inbox outbox] in Hr.
  assert (Hsent : forall ws1 : wsConn,
    outbox (conn ws1) = outbox (conn ws) ++ [authMessage tok] ->
    outbox (conn ws1) = outbox (conn ws)
    \/ outbox (conn ws1) = outbox (conn ws) ++ [authMessage tok]
       /\ exists r1' rest', Frame r1 :: rest = Frame r1' :: rest'
                            /\ Type_ r1' = "auth_required").
  { intros ws1 H. right. split; [exact H|]. by exists r1, rest. }
  assert (Hrest : forall (scr : list (option error)) (ws1 : wsConn),
    let r := match ReadJSON (mkConn rest scr (outbox (conn ws) ++ [authMessage tok]) false) with
             | (Err err, c) => (Some (WrapError "read auth response" err), setConn c ws1)
             | (Ok authResp, c) =>
               let ws2 := setConn c ws1 in
               if String.eqb (Type_ authResp) "auth_ok" then (None, ws2)
               else if String.eqb (Type_ authResp) "auth_invalid" then
                 let msg := if String.eqb (Message authResp) "" then "invalid authentication"
                            else Message authResp in
                 (Some (ErrorString ("auth failed: " +:+ msg)), ws2)
               else (Some (ErrorString ("unexpected auth response: " +:+ Type_ authResp)), ws2)
             end in
    (exists k, (k <= 2)%nat /\ inbox (conn r.2) = drop k (Frame r1 :: rest))
    /\ outbox (conn r.2) = outbox (conn ws) ++ [authMessage tok]
    /\ (r.1 = None -> exists r2 rest', rest = Frame r2 :: rest' /\ Type_ r2 = "auth_ok")).
  { intros scr ws1. cbn zeta. unfold ReadJSON. cbn [closed inbox wscript outbox].
    destruct rest as [|[r2|e2] rest'].
    - cbn. split; [exists 1%nat; by split; [lia|]|]. done.
    - destruct (String.eqb (Type_ r2) "auth_ok") eqn:Hok.
      + apply String.eqb_eq in Hok. cbn.
        split; [exists 2%nat; by split; [lia|]|]. split; [done|]. intros _. by exists r2, rest'.
      + destruct (String.eqb (Type_ r2) "auth_invalid"); cbn;
          (split; [exists 2%nat; by split; [lia|]|]); done.
    - cbn. split; [exists 2%nat; by split; [lia|]|]. done. }
  destruct (wscript (conn ws)) as [|[e2|] scr]; subst r.
  - destruct (Hrest [] (setConn (mkConn rest [] (outbox (conn ws)) false) ws)) as (Hk & Ho & Hs).
    split; [exact Hk|]. split; [by apply Hsent|].
    intros Hn. split; [done|]. destruct (Hs Hn) as (r2 & rest' & -> & Hok). by exists r1, r2, rest'.
  - cbn. split; [exists 1%nat; by split; [lia|]|]. split; [by left|done].
  - destruct (Hrest scr (setConn (mkConn rest (None :: scr) (outbox (conn ws)) false) ws))
      as (Hk & Ho & Hs).
    split; [exact Hk|]. split; [by apply Hsent|].
    intros Hn. split; [done|]. destruct (Hs Hn) as (r2 & rest' & -> & Hok). by exists r1, r2, rest'.
Qed.

(** X9.  When connecting fails, [wsCommand] returns the error of
    [connectWebSocket] as it is (wrapped with the stage that failed and
    nothing more), does not reach [sendCommand] (no id is used, nothing is
    written) and leaves the client and the caller's objects as they were. *)
Theorem wsCommand_connect_error (dial : string -> result Conn)
    (decode : string -> option error) (ctx : Context) (cmd : value) (bg pick : nat)
    (c : Client) (h : heap) (e : error) :
  connErr (connectWebSocket dial c) = Some e ->
  wsCommand dial decode ctx cmd bg pick c h = (Return (Err e), c, h)
  /\ exists stage e0, e = WrapError stage e0
       /\ (stage = "build websocket URL" \/ stage = "websocket dial"
           \/ stage = "websocket auth").
Proof.
  intros He. split.
  - unfold wsCommand. rewrite He.
    by destruct (connectWebSocket_failure dial c e He) as (-> & _ & _).
  - revert He. unfold connectWebSocket.
    destruct (match ws c with Some s => negb (done s) | None => false end); [discriminate|].
    destruct (buildWebSocketURL c) as [u|e0]; [|intros [= <-]; eexists _, _; eauto].
    destruct (dial u) as [cn|e0]; [|intros [= <-]; eexists _, _; eauto].
    destruct (authenticate (token c) (newWsConn cn)) as [[e0|] s]; [|discriminate].
    intros [= <-]. eexists _, _; eauto.
Qed.

Lemma wsCommand_connect_error_witness :
  let c := mkClient "http://localhost:8123" "secret" None in
  let dial := fun _ : string => Err (ErrorString "connection refused") in
  let cmd := VOther (JObject [("type", JString "lovelace/resources")]) in
  let e := WrapError "websocket dial" (ErrorString "connection refused") in
  wsCommand dial (fun _ => None) None cmd 0 0 c ∅ = (Return (Err e), c, ∅)
  /\ exists stage e0, e = WrapError stage e0
       /\ (stage = "build websocket URL" \/ stage = "websocket dial"
           \/ stage = "websocket auth").
Proof.
  intros c dial cmd e.
  apply (wsCommand_connect_error dial (fun _ => None) None cmd 0 0 c ∅ e).
  vm_compute. reflexivity.
Defined.

(** X10.  When connecting succeeds, [wsCommand] is [sendCommand] on the
    client's live session (the session is there: no nil dereference),
    followed by the decoding of the result: the decoder is consulted only
    for a successful response with a non-empty payload, and its error is
    returned wrapped by "decode result"; every other outcome of
    [sendCommand] is passed on unchanged.  Whatever the outcome, the client
    keeps the session, and when the call returns its pending entry is gone:
    a failed decoding leaks nothing. *)
Theorem wsCommand_sends (dial : string -> result Conn) (decode : string -> option error)
    (ctx : Context) (cmd : value) (bg pick : nat) (c : Client) (h : heap) :
  connErr (connectWebSocket dial c) = None ->
  exists s, ws (client (connectWebSocket dial c)) = Some s /\ done s = false /\
    let sc := sendCommand ctx cmd bg pick (mkWorld h s) in
    let r := wsCommand dial decode ctx cmd bg pick c h in
    ws r.1.2 = Some (sess sc.2) /\ r.2 = objs sc.2
    /\ baseURL r.1.2 = baseURL c /\ token r.1.2 = token c
    /\ (forall resp, sc.1 = Return (Ok resp) ->
          r.1.1 = if String.eqb (Result resp) "" then Return (Ok resp)
                  else match decode (Result resp) with
                       | Some err => Return (Err (WrapError "decode result" err))
                       | None => Return (Ok resp)
                       end)
    /\ ((forall resp, sc.1 <> Return (Ok resp)) -> r.1.1 = sc.1)
    /\ (r.1.1 <> Blocks -> pending (sess sc.2) !! (nextID s).1 = None).
Proof.
  intros Hok. destruct (connectWebSocket_live dial c Hok) as (s & Hs & Hd).
  exists s. split; [exact Hs|]. split; [exact Hd|]. intros sc r.
  assert (Hbt : baseURL (client (connectWebSocket dial c)) = baseURL c
                /\ token (client (connectWebSocket dial c)) = token c).
  { clear. unfold connectWebSocket.
    destruct (match ws c with Some s => negb (done s) | None => false end); [done|].
    destruct (buildWebSocketURL c) as [u|e0]; [|done].
    destruct (dial u) as [cn|e0]; [|done].
    by destruct (authenticate (token c) (newWsConn cn)) as [[e0|] s]. }
  destruct Hbt as (Hb & Ht).
  assert (Hr : r = (match sc.1 with
                    | Return (Ok resp) =>
                      match (if String.eqb (Result resp) "" then None
                             else decode (Result resp)) with
                      | Some err => Return (Err (WrapError "decode result" err))
                      | None => Return (Ok resp)
                      end
                    | other => other
                    end,
                    setWs (Some (sess sc.2)) (client (connectWebSocket dial c)), objs sc.2)).
  { subst r. unfold wsCommand. rewrite Hok, Hs. fold sc.
    destruct sc as [[[resp|e]|msg|] w]; cbn [fst snd]; [|done..].
    by destruct (if String.eqb (Result resp) "" then None else decode (Result resp)). }
  rewrite Hr. cbn [fst snd ws setWs baseURL token].
  split; [done|]. split; [done|]. split; [exact Hb|]. split; [exact Ht|].
  split; [|split].
  - intros resp ->. by destruct (String.eqb (Result resp) "").
  - intros Hno. destruct sc.1 as [[resp|e]|msg|]; [|done..]. by destruct (Hno resp).
  - intros Hnb. apply (sendCommand_unregisters ctx cmd bg pick (mkWorld h s)).
    fold sc. intros Hb'. apply Hnb. by rewrite Hb'.
Qed.

Lemma wsCommand_sends_witness :
  let cn := mkConn [Frame (mkWsResponse 0 "auth_required" false "" None "2024.1.0" "");
                    Frame (mkWsResponse 0 "auth_ok" false "" None "2024.1.0" "");
                    Frame (mkWsResponse 1 "result" true "[1,2" None "" "")]
                   [] [] false in
  let c := mkClient "http://localhost:8123" "secret" None in
  let dial := fun _ : string => Ok cn in
  let decode := fun _ : string => Some (ErrorString "unexpected end of JSON input") in
  let cmd := VOther (JObject [("type", JString "lovelace/resources")]) in
  exists s, ws (client (connectWebSocket dial c)) = Some s /\ done s = false /\
    let sc := sendCommand None cmd 1 0 (mkWorld ∅ s) in
    let r := wsCommand dial decode None cmd 1 0 c ∅ in
    ws r.1.2 = Some (sess sc.2) /\ r.2 = objs sc.2
    /\ baseURL r.1.2 = baseURL c /\ token r.1.2 = token c
    /\ (forall resp, sc.1 = Return (Ok resp) ->
          r.1.1 = if String.eqb (Result resp) "" then Return (Ok resp)
                  else match decode (Result resp) with
                       | Some err => Return (Err (WrapError "decode result" err))
                       | None => Return (Ok resp)
                       end)
    /\ ((forall resp, sc.1 <> Return (Ok resp)) -> r.1.1 = sc.1)
    /\ (r.1.1 <> Blocks -> pending (sess sc.2) !! (nextID s).1 = None).
Proof.
  intros cn c dial decode cmd.
  apply (wsCommand_sends dial decode None cmd 1 0 c ∅). vm_compute. reflexivity.
Defined.

(** * More on the goroutines: the reader's send, the ids in use, and
      CloseWebSocket under pending calls *)

Section MachineMore.
Import Machine.

Lemma Core_readerRun (gs : list goroutine) (n : nat) (ws : wsConn) :
  Core gs (chans ws) (pending ws) ->
  (done ws = true -> closed (conn ws) = true) ->
  exists ws', readerRun n ws = Some ws'.
Proof.
  revert ws. induction n as [|n IH]; intros ws HC Hd; cbn [readerRun]; [by eexists|].
  destruct (Core_readerIter gs ws HC Hd) as (ws1 & b & -> & HC1 & Hd1).
  destruct b; [by apply IH | by eexists].
Qed.

Lemma Dense_step (a : action) (s s' : state) :
  IdInv s -> Dense s -> step a s = Some s' ->
  Z.of_nat (length (callers s')) <= max_int64 -> Dense s'.
Proof.
  intros HI HD Hstep Hb. unfold Dense in *. destruct a as [ctx cmd|i pick|i e| |]; cbn [step] in Hstep.
  - injection Hstep as <-. intros id Hid. cbn [store callers] in *.
    destruct (HD id Hid) as (j & g & Hg & Hf). exists j, g. split; [|done].
    by apply lookup_app_l_Some.
  - destruct (callers s !! i) as [g|] eqn:Hg; [|discriminate].
    destruct (callerStep pick g (store s)) as [[g' w']|] eqn:Hc; [|discriminate].
    injection Hstep as <-. cbn [store callers] in *.
    pose proof (callerStep_frameId _ _ _ _ _ Hc) as Hf.
    assert (Hlt : (i < length (callers s))%nat) by (by eapply lookup_lt_Some).
    intros id Hid. destruct (frameId (g_at g)) as [id0|] eqn:Hfg.
    + destruct Hf as [Hf' Hm]. rewrite Hm in Hid.
      destruct (HD id Hid) as (j & gj & Hgj & Hfj).
      destruct (decide (j = i)) as [->|Hne].
      * exists i, g'. split; [by apply list_lookup_insert_eq|]. congruence.
      * exists j, gj. split; [|done]. by rewrite list_lookup_insert_ne.
    + destruct Hf as [Hf' Hm]. rewrite Hm in Hid.
      pose proof (id_counter s HI) as Hcnt.
      pose proof (issued_lt_length _ _ _ Hg Hfg) as Hiss.
      rewrite length_insert in Hb.
      assert (Hw : wrap64 (msgID (sess (store s)) + 1) = msgID (sess (store s)) + 1).
      { apply wrap64_small. unfold min_int64, max_int64 in *. lia. }
      rewrite Hw in Hid, Hf'.
      destruct (decide (id = msgID (sess (store s)) + 1)) as [->|Hne].
      * exists i, g'. split; [by apply list_lookup_insert_eq | done].
      * destruct (HD id ltac:(lia)) as (j & gj & Hgj & Hfj).
        assert (j <> i) by (intros ->; congruence).
        exists j, gj. split; [|done]. by rewrite list_lookup_insert_ne.
  - destruct (callers s !! i) as [g|] eqn:Hg; [|discriminate].
    injection Hstep as <-. cbn [store callers] in *.
    assert (Hlt : (i < length (callers s))%nat) by (by eapply lookup_lt_Some).
    intros id Hid. destruct (HD id Hid) as (j & gj & Hgj & Hfj).
    destruct (decide (j = i)) as [->|Hne].
    + eexists i, _. split; [by apply list_lookup_insert_eq|]. cbn [g_at]. congruence.
    + exists j, gj. split; [|done]. by rewrite list_lookup_insert_ne.
  - destruct (readerIter (sess (store s))) as [[ws' b]|] eqn:Hr; [|discriminate].
    injection Hstep as <-. cbn [store callers sess] in *.
    intros id Hid. rewrite (readerIter_msgID _ _ _ Hr) in Hid. by apply HD.
  - injection Hstep as <-. cbn [store callers sess] in *.
    intros id Hid. destruct (close_registry (sess (store s))) as (_ & _ & Hm).
    rewrite Hm in Hid. by apply HD.
Qed.

Lemma Dense_run (tr : list action) (s s' : state) :
  IdInv s -> Dense s -> run tr s = Some s' ->
  Z.of_nat (length (callers s')) <= max_int64 -> Dense s'.
Proof.
  revert s. induction tr as [|a tr IH]; intros s HI HD; cbn [run].
  - by intros [= <-].
  - destruct (step a s) as [s1|] eqn:Hstep; [|discriminate]. intros Hrun Hb.
    pose proof (run_length _ _ _ Hrun) as Hlen.
    assert (Hb1 : Z.of_nat (length (callers s1)) <= max_int64) by lia.
    apply (IH s1); [by eapply IdInv_step | by eapply Dense_step | done | done].
Qed.

End MachineMore.

(** X11.  The reader never stalls: in every reachable state an iteration of
    the reader goes through, and so does any number of them.  Its send
    [ch <- &resp], made with [pendingMu] held, finds the channel of a pending
    entry empty (the entry is deleted on delivery, and the channel has room
    for one response), so it cannot block the registry. *)
Theorem reader_never_blocks (s : Machine.state) (n : nat) :
  Machine.reachable s ->
  (exists s', Machine.step Machine.Reader s = Some s')
  /\ (exists ws', readerRun n (sess (Machine.store s)) = Some ws')
  /\ (forall id ch, pending (sess (Machine.store s)) !! id = Some ch ->
        chans (sess (Machine.store s)) !! ch = Some []).
Proof.
  intros Hreach. destruct (reachable_Inv s Hreach) as [HC Hd].
  split; [|split].
  - destruct (Core_readerIter _ _ HC Hd) as (ws' & b & Hit & _).
    cbn [Machine.step]. rewrite Hit. by eexists.
  - by eapply Core_readerRun.
  - intros id ch Hp. by destruct (Machine.core_pending _ _ _ HC _ _ Hp).
Qed.

Lemma reader_never_blocks_witness :
  let r1 := mkWsResponse 1 "result" true "{}" None "" "" in
  let c := mkConn [Frame r1; Frame r1] [] [] false in
  let cmd := VOther (JObject [("type", JString "lovelace/config")]) in
  let tr := [Machine.Call None cmd; Machine.Caller 0 0; Machine.Caller 0 0;
             Machine.Caller 0 0; Machine.Caller 0 0]%nat in
  let s := default (Machine.init ∅ c) (Machine.run tr (Machine.init ∅ c)) in
  (exists s', Machine.step Machine.Reader s = Some s')
  /\ (exists ws', readerRun 3 (sess (Machine.store s)) = Some ws')
  /\ (forall id ch, pending (sess (Machine.store s)) !! id = Some ch ->
        chans (sess (Machine.store s)) !! ch = Some []).
Proof.
  intros r1 c cmd tr s. apply (reader_never_blocks s 3).
  exists ∅, c, tr. vm_compute. reflexivity.
Defined.

(** X12.  As long as fewer than 2^63 calls were issued on a session, the
    ids in use are exactly 1, 2, ..., n, where n is the value of the counter
    and the number of calls that went through [msgID.Add]: every id held by a
    call or stored in the pending map lies in that range, and every number
    of the range is the id of a call.  In particular no call gets the id 0,
    which the reader takes for a frame that answers no call. *)
Theorem ids_count_from_one (s : Machine.state) :
  Machine.reachable s ->
  Z.of_nat (length (Machine.callers s)) <= max_int64 ->
  let n := msgID (sess (Machine.store s)) in
  n = Z.of_nat (Machine.issued (Machine.callers s))
  /\ (forall i g id, Machine.callers s !! i = Some g ->
        Machine.frameId (Machine.g_at g) = Some id -> 1 <= id <= n /\ id <> 0)
  /\ (forall id ch, pending (sess (Machine.store s)) !! id = Some ch -> 1 <= id <= n)
  /\ (forall id, 1 <= id <= n ->
        exists i g, Machine.callers s !! i = Some g
                    /\ Machine.frameId (Machine.g_at g) = Some id).
Proof.
  intros Hreach Hb n.
  pose proof (reachable_IdInv s Hreach Hb) as HI.
  destruct (reachable_Inv s Hreach) as [HC _].
  split; [exact (Machine.id_counter s HI)|]. split; [|split].
  - intros i g id Hg Hf. pose proof (Machine.id_range s HI i g id Hg Hf). subst n. lia.
  - intros id ch Hp.
    destruct (Machine.core_pending _ _ _ HC _ _ Hp) as (_ & i & g & Hg & Hfl).
    apply (Machine.id_range s HI i g id Hg).
    destruct (Machine.g_at g); cbn in Hfl |- *; congruence.
  - destruct Hreach as (h & c & tr & Hrun).
    apply (Dense_run tr (Machine.init h c) s); [apply IdInv_init | | done | done].
    intros id Hid. cbn in Hid. lia.
Qed.

Lemma ids_count_from_one_witness :
  let c := mkConn [] [] [] false in
  let tr := [Machine.Call None VNil; Machine.Call None VNil; Machine.Call None VNil;
             Machine.Caller 2 0; Machine.Caller 0 0; Machine.Caller 0 0]%nat in
  let s := default (Machine.init ∅ c) (Machine.run tr (Machine.init ∅ c)) in
  let n := msgID (sess (Machine.store s)) in
  n = Z.of_nat (Machine.issued (Machine.callers s))
  /\ (forall i g id, Machine.callers s !! i = Some g ->
        Machine.frameId (Machine.g_at g) = Some id -> 1 <= id <= n /\ id <> 0)
  /\ (forall id ch, pending (sess (Machine.store s)) !! id = Some ch -> 1 <= id <= n)
  /\ (forall id, 1 <= id <= n ->
        exists i g, Machine.callers s !! i = Some g
                    /\ Machine.frameId (Machine.g_at g) = Some id).
Proof.
  intros c tr s. apply (ids_count_from_one s).
  - exists ∅, c, tr. vm_compute. reflexivity.
  - vm_compute. discriminate.
Defined.

(** X13.  CloseWebSocket while calls are pending: a call waiting in its
    select returns as soon as it runs again; it does not wait for the peer.
    It returns "websocket connection closed", or the error of its own
    context if that has ended, or its own response if the reader had already
    delivered it; a call whose entry is still pending and whose context is
    live returns "websocket connection closed".  Its pending entry is
    removed. *)
Theorem CloseWebSocket_unblocks_callers (s : Machine.state) (i pick pick' : nat)
    (g : Machine.goroutine) (id : Z) (ch : chan) :
  Machine.reachable s ->
  Machine.callers s !! i = Some g -> Machine.g_at g = Machine.AtSelect id ch ->
  exists s' out,
    Machine.run [Machine.Shutdown; Machine.Caller i pick; Machine.Caller i pick'] s = Some s'
    /\ Machine.callers s' !! i = Some (Machine.goto (Machine.Returned id out) g)
    /\ pending (sess (Machine.store s')) !! id = None
    /\ done (sess (Machine.store s')) = true
    /\ (out = Return (Err (ErrorString "websocket connection closed"))
        \/ (exists e, Machine.g_ctx g = Some e /\ out = Return (Err (ContextError e)))
        \/ (exists resp, ID resp = id /\ out = Return (received resp)))
    /\ (Machine.g_ctx g = None -> pending (sess (Machine.store s)) !! id = Some ch ->
        out = Return (Err (ErrorString "websocket connection closed"))).
Proof.
  intros Hreach Hg Hat. destruct (reachable_Inv s Hreach) as [HC _].
  assert (Hlt : (i < length (Machine.callers s))%nat) by (by eapply lookup_lt_Some).
  assert (Hfl : Machine.inFlight (Machine.g_at g) = Some (id, ch)) by (by rewrite Hat).
  destruct (Machine.core_chan _ _ _ HC i g id ch Hg Hfl) as (buf & Hbuf & Hids).
  set (ws1 := close (sess (Machine.store s))).
  destruct (close_registry (sess (Machine.store s))) as (Hcs & Hpe & _). fold ws1 in Hcs, Hpe.
  assert (Hdn : done ws1 = true) by apply close_done.
  set (s1 := Machine.mkState (mkWorld (objs (Machine.store s)) ws1) (Machine.callers s)).
  assert (Hready : ready (Machine.g_ctx g) ch ws1
                   = match Machine.g_ctx g with Some e => [CaseCtxDone e] | None => [] end
                     ++ [CaseWsDone]
                     ++ match buf with resp :: _ => [CaseResp resp] | [] => [] end).
  { unfold ready. by rewrite Hdn, Hcs, Hbuf. }
  assert (Hsel : exists c, choose pick (ready (Machine.g_ctx g) ch ws1) = Some c).
  { rewrite Hready. destruct (Machine.g_ctx g); cbn [app]; apply choose_nonempty. }
  destruct Hsel as [c Hc].
  pose proof (choose_elem _ _ _ Hc) as Hin.
  set (out := match c with
              | CaseCtxDone e => Return (Err (ContextError e))
              | CaseWsDone => Return (Err (ErrorString "websocket connection closed"))
              | CaseResp resp => Return (received resp)
              end).
  set (w2 := match c with
             | CaseResp _ => mkWorld (objs (Machine.store s)) (chanRecv ch ws1)
             | _ => mkWorld (objs (Machine.store s)) ws1
             end).
  assert (Hstep : Machine.callerStep pick g (Machine.store s1)
                  = Some (Machine.goto (Machine.AtDefer id ch out) g, w2)).
  { unfold Machine.callerStep. rewrite Hat. cbn [s1 Machine.store sess objs]. rewrite Hc.
    unfold out, w2. by destruct c. }
  exists (Machine.mkState (mkWorld (objs w2) (unregister id (sess w2)))
            (<[i := Machine.goto (Machine.Returned id out) g]> (Machine.callers s))), out.
  split; [|split; [|split; [|split; [|split]]]].
  - change (Machine.run [Machine.Shutdown; Machine.Caller i pick; Machine.Caller i pick'] s)
      with (Machine.run [Machine.Caller i pick; Machine.Caller i pick'] s1).
    cbn [Machine.run].
    rewrite (step_caller s1 i pick g _ _ Hg Hstep).
    erewrite step_defer; [|cbn [Machine.callers]; by apply list_lookup_insert_eq|reflexivity].
    cbn [Machine.store Machine.callers]. by rewrite insert_insert_same.
  - cbn [Machine.callers]. by apply list_lookup_insert_eq.
  - cbn [Machine.store sess unregister setPending pending]. apply lookup_delete_eq.
  - cbn [Machine.store sess unregister setPending done]. unfold w2. by destruct c.
  - unfold out. destruct c as [e| |resp].
    + right; left. exists e. split; [|done]. by apply ready_ctx in Hin.
    + by left.
    + right; right. exists resp. split; [|done].
      apply ready_resp in Hin as [buf' Hbuf']. rewrite Hcs, Hbuf in Hbuf'.
      injection Hbuf' as ->. apply Hids. by left.
  - intros Hctx Hp. destruct (Machine.core_pending _ _ _ HC _ _ Hp) as [Hempty _].
    rewrite Hbuf in Hempty. injection Hempty as ->.
    rewrite Hready, Hctx in Hin. cbn [app] in Hin.
    apply list_elem_of_singleton in Hin. unfold out. by rewrite Hin.
Qed.

Lemma CloseWebSocket_unblocks_callers_witness :
  let c := mkConn [] [] [] false in
  let cmd := VOther (JObject [("type", JString "lovelace/config")]) in
  let tr := [Machine.Call None cmd; Machine.Caller 0 0; Machine.Caller 0 0;
             Machine.Caller 0 0; Machine.Caller 0 0]%nat in
  let s := default (Machine.init ∅ c) (Machine.run tr (Machine.init ∅ c)) in
  let g := Machine.mkGo None cmd (Machine.AtSelect 1 0%nat) in
  exists s' out,
    Machine.run [Machine.Shutdown; Machine.Caller 0 0; Machine.Caller 0 0]%nat s = Some s'
    /\ Machine.callers s' !! 0%nat = Some (Machine.goto (Machine.Returned 1 out) g)
    /\ pending (sess (Machine.store s')) !! 1 = None
    /\ done (sess (Machine.store s')) = true
    /\ (out = Return (Err (ErrorString "websocket connection closed"))
        \/ (exists e, Machine.g_ctx g = Some e /\ out = Return (Err (ContextError e)))
        \/ (exists resp, ID resp = 1 /\ out = Return (received resp)))
    /\ (Machine.g_ctx g = None -> pending (sess (Machine.store s)) !! 1 = Some 0%nat ->
        out = Return (Err (ErrorString "websocket connection closed"))).
Proof.
  intros c cmd tr s g. apply (CloseWebSocket_unblocks_callers s 0 0 0 g 1 0%nat).
  - exists ∅, c, tr. vm_compute. reflexivity.
  - vm_compute. reflexivity.
  - reflexivity.
Defined.

(** * The REST client: responses, requests and service calls *)

Section RestFacts.
Context (env : Env) (c : Client).

(** The request [doRequest] builds for a method, a path and an encoded body. *)
Lemma doRequest_cases (method path : string) (body : option bodyValue) :
  let r := doRequest env c method path body in
  (exists e, body <> None /\ r = ([], HErr (RequestError "marshal request body" e)))
  \/ (exists e, newRequestError env method (baseURL c +:+ path) = Some e
        /\ r = ([], HErr (RequestError "create request" e)))
  \/ (exists req,
        newRequestError env method (baseURL c +:+ path) = None
        /\ http.Method req = method /\ http.URL req = baseURL c +:+ path
        /\ http.Header req !! "Authorization" = Some ("Bearer " +:+ token c)
        /\ http.Header req !! "Content-Type" = Some "application/json"
        /\ match body with
           | Some b => exists doc, marshalBody env b = Ok doc /\ http.Body req = Some doc
           | None => http.Body req = None
           end
        /\ ((exists e, Do env req = Err e /\ r = ([req], HErr (RequestError "execute request" e)))
            \/ (exists resp, Do env req = Ok resp /\ r = ([req], HOk resp)))).
Proof.
  cbn zeta. unfold doRequest.
  assert (Hhdr : forall (m u : string) (b : option json),
    let req := http.mkRequest m u
                 (<["Content-Type" := "application/json"]>
                    (<["Authorization" := "Bearer " +:+ token c]> ∅)) b in
    http.Method req = m /\ http.URL req = u
    /\ http.Header req !! "Authorization" = Some ("Bearer " +:+ token c)
    /\ http.Header req !! "Content-Type" = Some "application/json").
  { intros m u b. cbn. repeat split;
      first [by rewrite lookup_insert_eq
            | rewrite lookup_insert_ne by done; by rewrite lookup_insert_eq]. }
  destruct body as [b|].
  - destruct (marshalBody env b) as [doc|e] eqn:Hm.
    + destruct (newRequestError env method (baseURL c +:+ path)) as [e|] eqn:Hn.
      * right; left. by exists e.
      * right; right. eexists. split; [done|].
        destruct (Hhdr method (baseURL c +:+ path) (Some doc)) as (H1 & H2 & H3 & H4).
        split; [exact H1|]. split; [exact H2|]. split; [exact H3|]. split; [exact H4|].
        split; [by exists doc|].
        destruct (Do env _) as [resp|e]; [right | left]; by eexists.
    + left. by exists e.
  - destruct (newRequestError env method (baseURL c +:+ path)) as [e|] eqn:Hn.
    + right; left. by exists e.
    + right; right. eexists. split; [done|].
      destruct (Hhdr method (baseURL c +:+ path) None) as (H1 & H2 & H3 & H4).
      split; [exact H1|]. split; [exact H2|]. split; [exact H3|]. split; [exact H4|].
      split; [done|].
      destruct (Do env _) as [resp|e]; [right | left]; by eexists.
Qed.

Lemma checkResponse_ok (resp : http.Response) :
  checkResponse env resp = None <-> 200 <= http.StatusCode resp < 300.
Proof.
  unfold checkResponse.
  destruct (andb (200 <=? http.StatusCode resp) (http.StatusCode resp <? 300)) eqn:Hr.
  - apply andb_true_iff in Hr as [H1 H2]. split; [lia | done].
  - apply andb_false_iff in Hr. split; [|lia].
    repeat match goal with |- context [if ?b then _ else _] => destruct b end; discriminate.
Qed.

End RestFacts.

(** X14.  [checkResponse] accepts exactly the status codes 200 to 299.  Of
    the others, 401, 404 and 405 give the error variables ErrUnauthorized,
    ErrNotFound and ErrMethodNotAllowed whatever the body says; 400 gives
    ErrBadRequest unless the body carries a message; and every other
    rejected response, like a 400 with a message, gives an APIError with
    the status code, the status line, the body as read, and the message of
    the body when it has one. *)
Theorem checkResponse_classification (env : Env) (resp : http.Response) :
  let code := http.StatusCode resp in
  let message := match unmarshalMessage env (http.Data resp) with Ok m => m | Err _ => "" end in
  (checkResponse env resp = None <-> 200 <= code < 300)
  /\ (code = 401 -> checkResponse env resp = Some (Sentinel ErrUnauthorized))
  /\ (code = 404 -> checkResponse env resp = Some (Sentinel ErrNotFound))
  /\ (code = 405 -> checkResponse env resp = Some (Sentinel ErrMethodNotAllowed))
  /\ (code = 400 -> message = "" -> checkResponse env resp = Some (Sentinel ErrBadRequest))
  /\ (~ 200 <= code < 300 -> code <> 401 -> code <> 404 -> code <> 405 ->
      code <> 400 \/ message <> "" ->
      checkResponse env resp
      = Some (APIError code (http.Status resp) message (http.Data resp)))
  /\ (forall s, checkResponse env resp = Some (Sentinel s) ->
        s = ErrUnauthorized /\ code = 401 \/ s = ErrNotFound /\ code = 404
        \/ s = ErrMethodNotAllowed /\ code = 405 \/ s = ErrBadRequest /\ code = 400).
Proof.
  intros code message. split; [apply checkResponse_ok|].
  assert (Hmsg : (match unmarshalMessage env (http.Data resp) with
                  | Ok m => if negb (String.eqb m "") then m else ""
                  | Err _ => ""
                  end) = message).
  { unfold message. destruct (unmarshalMessage env (http.Data resp)) as [m|e]; [|done].
    destruct (String.eqb m "") eqn:Hm; [|done]. apply String.eqb_eq in Hm. by subst m. }
  unfold checkResponse. fold code. rewrite Hmsg.
  destruct (andb (200 <=? code) (code <? 300)) eqn:Hr.
  { apply andb_true_iff in Hr as [H1 H2].
    repeat split; try (intros; lia); try discriminate. }
  apply andb_false_iff in Hr.
  destruct (code =? 401) eqn:H401; [apply Z.eqb_eq in H401|apply Z.eqb_neq in H401].
  { repeat split; try (intros; lia); try done. intros s [= <-]. by left. }
  destruct (code =? 404) eqn:H404; [apply Z.eqb_eq in H404|apply Z.eqb_neq in H404].
  { repeat split; try (intros; lia); try done. intros s [= <-]. right; by left. }
  destruct (code =? 400) eqn:H400; [apply Z.eqb_eq in H400|apply Z.eqb_neq in H400].
  { destruct (String.eqb message "") eqn:Hm;
      [apply String.eqb_eq in Hm|apply String.eqb_neq in Hm]; cbn [negb].
    - repeat split; try (intros; lia); try done.
      + intros _ _ _ _ [H|H]; done.
      + intros s [= <-]. do 3 right. done.
    - repeat split; try (intros; lia); try done. }
  destruct (code =? 405) eqn:H405; [apply Z.eqb_eq in H405|apply Z.eqb_neq in H405].
  { repeat split; try (intros; lia); try done. intros s [= <-]. right; right; by left. }
  repeat split; try (intros; lia); try done.
Qed.

(** X15.  One call of [doJSON] is one exchange at most: it performs no
    request when the body cannot be encoded or the request cannot be built,
    and exactly one otherwise, with the given method, the URL
    baseURL + path, the bearer token in the Authorization header and the
    JSON content type; it is not retried.  It succeeds only on a response
    with a status from 200 to 299, and the decoder of the result is not
    consulted for any other response: the error is then that of
    [checkResponse], the same for every target. *)
Theorem doJSON_exchange {A} (env : Env) (c : Client) (method path : string)
    (body : option bodyValue) (result : option (http.Response -> result A)) :
  let r := doJSON env c method path body result in
  (r.1 = [] /\ (exists op e, r.2 = HErr (RequestError op e)
                  /\ (op = "marshal request body" \/ op = "create request"))
   \/ exists req, r.1 = [req]
        /\ http.Method req = method /\ http.URL req = baseURL c +:+ path
        /\ http.Header req !! "Authorization" = Some ("Bearer " +:+ token c)
        /\ http.Header req !! "Content-Type" = Some "application/json"
        /\ (http.Body req = None <-> body = None)
        /\ (forall e, Do env req = Err e -> r.2 = HErr (RequestError "execute request" e))
        /\ (forall resp e, Do env req = Ok resp -> checkResponse env resp = Some e ->
              r.2 = HErr e)
        /\ (forall resp, Do env req = Ok resp -> checkResponse env resp = None ->
              match result with
              | None => r.2 = HOk None
              | Some decode =>
                match decode resp with
                | Ok v => r.2 = HOk (Some v)
                | Err e => r.2 = HErr (RequestError "decode response" e)
                end
              end))
  /\ (forall v, r.2 = HOk v ->
        exists req resp, r.1 = [req] /\ Do env req = Ok resp
                         /\ 200 <= http.StatusCode resp < 300).
Proof.
  intros r. subst r. unfold doJSON, doRequest.
  set (hdr := <["Content-Type" := "application/json"]>
                (<["Authorization" := "Bearer " +:+ token c]> (∅ : gmap string string))).
  assert (Ha : hdr !! "Authorization" = Some ("Bearer " +:+ token c)).
  { unfold hdr. rewrite lookup_insert_ne by done. by rewrite lookup_insert_eq. }
  assert (Hc : hdr !! "Content-Type" = Some "application/json").
  { unfold hdr. by rewrite lookup_insert_eq. }
  clearbody hdr.
  assert (Hmid : forall (b : option json), (b = None <-> body = None) ->
    let req := http.mkRequest method (baseURL c +:+ path) hdr b in
    let out : list http.Request * hresult (option A) :=
      match (match Do env req with
             | Ok resp => ([req], HOk resp)
             | Err err => ([req], HErr (RequestError "execute request" err))
             end) with
      | (reqs, HOk resp) =>
        match checkResponse env resp with
        | Some err => (reqs, HErr err)
        | None =>
          match result with
          | Some decode =>
            match decode resp with
            | Ok v => (reqs, HOk (Some v))
            | Err err => (reqs, HErr (RequestError "decode response" err))
            end
          | None => (reqs, HOk None)
          end
        end
      | (reqs, HErr err) => (reqs, HErr err)
      end in
    (exists req0, out.1 = [req0]
        /\ http.Method req0 = method /\ http.URL req0 = baseURL c +:+ path
        /\ http.Header req0 !! "Authorization" = Some ("Bearer " +:+ token c)
        /\ http.Header req0 !! "Content-Type" = Some "application/json"
        /\ (http.Body req0 = None <-> body = None)
        /\ (forall e, Do env req0 = Err e -> out.2 = HErr (RequestError "execute request" e))
        /\ (forall resp e, Do env req0 = Ok resp -> checkResponse env resp = Some e ->
              out.2 = HErr e)
        /\ (forall resp, Do env req0 = Ok resp -> checkResponse env resp = None ->
              match result with
              | None => out.2 = HOk None
              | Some decode =>
                match decode resp with
                | Ok v => out.2 = HOk (Some v)
                | Err e => out.2 = HErr (RequestError "decode response" e)
                end
              end))
    /\ (forall v, out.2 = HOk v ->
          exists req0 resp, out.1 = [req0] /\ Do env req0 = Ok resp
                            /\ 200 <= http.StatusCode resp < 300)).
  { intros b Hb req out. subst out.
    destruct (Do env req) as [resp|e] eqn:Hd.
    2:{ cbn [fst snd]. split; [|discriminate]. exists req. rewrite Hd.
        repeat split; try done; try apply Hb; by intros ? [= <-]. }
    destruct (checkResponse env resp) as [e|] eqn:Hck.
    { cbn [fst snd]. split; [|discriminate]. exists req. rewrite Hd.
      repeat split; try done; try apply Hb.
      - intros resp' e' [= <-]. congruence.
      - intros resp' [= <-]. congruence. }
    pose proof (proj1 (checkResponse_ok env resp) Hck) as Hrange.
    destruct result as [decode|].
    - destruct (decode resp) as [v|e] eqn:Hdec; cbn [fst snd].
      + split; [|intros v' _; by exists req, resp]. exists req. rewrite Hd.
        repeat split; try done; try apply Hb.
        * intros resp' e' [= <-]. congruence.
        * intros resp' [= <-] _. by rewrite Hdec.
      + split; [|discriminate]. exists req. rewrite Hd.
        repeat split; try done; try apply Hb.
        * intros resp' e' [= <-]. congruence.
        * intros resp' [= <-] _. by rewrite Hdec.
    - cbn [fst snd]. split; [|intros v' _; by exists req, resp]. exists req. rewrite Hd.
      repeat split; try done; try apply Hb.
      intros resp' e' [= <-]. congruence. }
  assert (Hnone : forall op e,
    op = "marshal request body" \/ op = "create request" ->
    let out : list http.Request * hresult (option A) := ([], HErr (RequestError op e)) in
    (out.1 = [] /\ (exists op e, out.2 = HErr (RequestError op e)
                      /\ (op = "marshal request body" \/ op = "create request")))
    /\ (forall v, out.2 = HOk v ->
          exists req0 resp, out.1 = [req0] /\ Do env req0 = Ok resp
                            /\ 200 <= http.StatusCode resp < 300)).
  { intros op e Hop out. split; [|discriminate]. split; [done|]. by exists op, e. }
  destruct body as [b|].
  - destruct (marshalBody env b) as [doc|e].
    + destruct (newRequestError env method (baseURL c +:+ path)) as [e|].
      * destruct (Hnone "create request" e (or_intror eq_refl)) as [H1 H2]. split; [by left|done].
      * destruct (Hmid (Some doc) ltac:(done)) as [H1 H2]. split; [by right|done].
    + destruct (Hnone "marshal request body" e (or_introl eq_refl)) as [H1 H2].
      split; [by left|done].
  - destruct (newRequestError env method (baseURL c +:+ path)) as [e|].
    + destruct (Hnone "create request" e (or_intror eq_refl)) as [H1 H2]. split; [by left|done].
    + destruct (Hmid None ltac:(done)) as [H1 H2]. split; [by right|done].
Qed.

Section Encoding.

Lemma foldl_insert_union {A} (kvs : list (string * A)) (acc : gmap string A) :
  NoDup kvs.*1 ->
  foldl (fun acc kv => <[kv.1 := kv.2]> acc) acc kvs = list_to_map kvs ∪ acc.
Proof.
  revert acc. induction kvs as [|[k v] kvs IH]; intros acc Hnd; cbn [foldl].
  - by rewrite list_to_map_nil, (left_id ∅ (∪)).
  - rewrite fmap_cons in Hnd. apply NoDup_cons in Hnd as [Hk Hnd].
    rewrite IH by done. cbn [fst snd]. rewrite list_to_map_cons.
    apply map_eq. intros j. rewrite !lookup_union.
    destruct (decide (j = k)) as [->|Hne].
    + rewrite !lookup_insert_eq.
      assert (Hnone : (list_to_map kvs : gmap string A) !! k = None)
        by (by apply not_elem_of_list_to_map_1).
      rewrite Hnone. by destruct (acc !! k).
    + by rewrite !lookup_insert_ne.
Qed.

Lemma foldl_insert_map {A} (m acc : gmap string A) :
  foldl (fun acc kv => <[kv.1 := kv.2]> acc) acc (map_to_list m) = m ∪ acc.
Proof.
  rewrite foldl_insert_union by apply NoDup_fst_map_to_list.
  by rewrite list_to_map_to_list.
Qed.

Lemma keyLe_total {A} : Total (@keyLe A).
Proof. intros a b. unfold keyLe. apply String.leb_total. Qed.

Lemma sortedFields_spec {A} (m : gmap string A) :
  sortedFields m ≡ₚ map_to_list m
  /\ NoDup (sortedFields m).*1
  /\ Sorted (fun a b => String.leb a b = true) (sortedFields m).*1.
Proof.
  unfold sortedFields.
  pose proof (merge_sort_Permutation (@keyLe A) (map_to_list m)) as Hp.
  split; [exact Hp|]. split.
  - rewrite Hp. apply NoDup_fst_map_to_list.
  - pose proof (@Sorted_merge_sort _ (@keyLe A) _ keyLe_total (map_to_list m)) as Hs.
    clear Hp. set (l := merge_sort keyLe (map_to_list m)) in *. clearbody l.
    induction Hs as [|x l Hs IH Hhd]; cbn; constructor; [done|].
    destruct Hhd as [|y l' Hxy]; cbn; constructor. exact Hxy.
Qed.

Lemma encodeFields_ok (kvs : list (string * result json)) (fields : list (string * json)) :
  encodeFields kvs = Ok fields -> kvs = (fun kv => (kv.1, Ok kv.2)) <$> fields.
Proof.
  revert fields. induction kvs as [|[k [v|e]] kvs IH]; intros fields; cbn [encodeFields].
  - by intros [= <-].
  - destruct (encodeFields kvs) as [fs|e]; [|discriminate].
    intros [= <-]. cbn. f_equal. by apply IH.
  - discriminate.
Qed.

Lemma encodeFields_err (kvs : list (string * result json)) :
  (exists e, encodeFields kvs = Err e) <-> exists k e, (k, Err e) ∈ kvs.
Proof.
  induction kvs as [|[k [v|e]] kvs IH]; cbn [encodeFields].
  - split; [intros [e [=]] | intros (k & e & H); by apply elem_of_nil in H].
  - split.
    + intros [e He]. destruct (encodeFields kvs) as [fs|e'] eqn:Henc; [discriminate|].
      destruct (proj1 IH (ex_intro _ e' eq_refl)) as (k' & e'' & Hin).
      exists k', e''. by right.
    + intros (k' & e' & Hin). apply elem_of_cons in Hin as [[=]|Hin].
      destruct (proj2 IH (ex_intro _ k' (ex_intro _ e' Hin))) as [e'' ->]. by exists e''.
  - split; [|by exists e]. intros _. exists k, e. by left.
Qed.

Lemma marshalMap_spec (m : gmap string (result json)) :
  ((exists e, marshalMap m = Err e) <-> exists k e, m !! k = Some (Err e))
  /\ forall doc, marshalMap m = Ok doc ->
       exists fields, doc = JObject fields
         /\ NoDup fields.*1
         /\ Sorted (fun a b => String.leb a b = true) fields.*1
         /\ forall k v, (k, v) ∈ fields <-> m !! k = Some (Ok v).
Proof.
  unfold marshalMap. destruct (sortedFields_spec m) as (Hp & Hnd & Hs).
  split.
  - split.
    + intros [e He]. destruct (encodeFields (sortedFields m)) as [fs|e'] eqn:Henc; [discriminate|].
      destruct (proj1 (encodeFields_err _) (ex_intro _ e' Henc)) as (k & e'' & Hin).
      exists k, e''. rewrite Hp in Hin. by apply elem_of_map_to_list in Hin.
    + intros (k & e & Hk). apply elem_of_map_to_list in Hk. rewrite <- Hp in Hk.
      destruct (proj2 (encodeFields_err _) (ex_intro _ k (ex_intro _ e Hk))) as [e' ->].
      by exists e'.
  - intros doc. destruct (encodeFields (sortedFields m)) as [fs|e] eqn:Henc; [|discriminate].
    intros [= <-]. exists fs. split; [done|].
    apply encodeFields_ok in Henc.
    assert (Hkeys : (sortedFields m).*1 = fs.*1).
    { rewrite Henc. rewrite <- list_fmap_compose. by apply list_fmap_ext. }
    rewrite <- Hkeys. split; [done|]. split; [done|].
    intros k v. rewrite <- elem_of_map_to_list, <- Hp, Henc. split.
    + intros Hin. apply (list_elem_of_fmap_2 (fun kv => (kv.1, Ok kv.2))) in Hin. exact Hin.
    + intros Hin. apply list_elem_of_fmap in Hin as ([k' v'] & [= -> ->] & Hin). exact Hin.
Qed.

End Encoding.

(** X16.  [ServiceCallRequest.MarshalJSON] flattens the request into one
    JSON object: the entries of Data, and the entity id under "entity_id"
    when it is not empty and Data has no entry of that name; an entry
    "entity_id" of Data wins over the field.  The keys are distinct and in
    sorted order.  The encoding fails exactly when a value of Data cannot
    be encoded; an empty request is the empty object, never null. *)
Theorem ServiceCallRequest_MarshalJSON_flattens (s : ServiceCallRequest) :
  ((exists e, ServiceCallRequest_MarshalJSON s = Err e)
   <-> exists k e, Data s !! k = Some (Err e))
  /\ forall doc, ServiceCallRequest_MarshalJSON s = Ok doc ->
       exists fields, doc = JObject fields
         /\ NoDup fields.*1
         /\ Sorted (fun a b => String.leb a b = true) fields.*1
         /\ (forall k v, Data s !! k = Some (Ok v) -> (k, v) ∈ fields)
         /\ (EntityID s <> "" -> Data s !! "entity_id" = None ->
             ("entity_id", JString (EntityID s)) ∈ fields)
         /\ (forall k v, (k, v) ∈ fields ->
               Data s !! k = Some (Ok v)
               \/ Data s !! k = None /\ k = "entity_id" /\ EntityID s <> ""
                  /\ v = JString (EntityID s)).
Proof.
  unfold ServiceCallRequest_MarshalJSON. cbn zeta. rewrite foldl_insert_map.
  set (m0 := if negb (String.eqb (EntityID s) "")
             then <["entity_id" := Ok (JString (EntityID s))]> (∅ : gmap string (result json))
             else ∅).
  assert (Hm0 : forall k x, m0 !! k = Some x <->
            k = "entity_id" /\ EntityID s <> "" /\ x = Ok (JString (EntityID s))).
  { intros k x. unfold m0. destruct (String.eqb (EntityID s) "") eqn:He; cbn [negb].
    - apply String.eqb_eq in He. rewrite lookup_empty. split; [done|]. intros (_ & H & _). done.
    - apply String.eqb_neq in He. destruct (decide (k = "entity_id")) as [->|Hne].
      + rewrite lookup_insert_eq. split; [by intros [= <-] | by intros (_ & _ & ->)].
      + rewrite lookup_insert_ne by done. rewrite lookup_empty. split; [done|]. by intros (? & _). }
  destruct (marshalMap_spec (Data s ∪ m0)) as [Herr Hok]. split.
  - rewrite Herr. split.
    + intros (k & e & Hk). apply lookup_union_Some_raw in Hk as [Hk|[_ Hk]]; [by exists k, e|].
      apply Hm0 in Hk as (_ & _ & [=]).
    + intros (k & e & Hk). exists k, e. by apply lookup_union_Some_l.
  - intros doc Hdoc. destruct (Hok doc Hdoc) as (fields & -> & Hnd & Hs & Hin).
    exists fields. split; [done|]. split; [done|]. split; [done|]. split; [|split].
    + intros k v Hk. apply Hin. by apply lookup_union_Some_l.
    + intros Hid Hno. apply Hin. apply lookup_union_Some_raw. right. split; [done|].
      by apply Hm0.
    + intros k v Hkv. apply Hin in Hkv. apply lookup_union_Some_raw in Hkv as [Hk|[Hno Hk]].
      * by left.
      * right. apply Hm0 in Hk as (-> & Hid & [= ->]). done.
Qed.

Section Calls.
Context (env : Env) (c : Client).

(** [doJSON] once the body is encoded and the request can be built. *)
Lemma doJSON_sent {A} (method path : string) (body : option bodyValue) (doc : option json)
    (result : option (http.Response -> result A)) :
  match body with Some b => exists d, marshalBody env b = Ok d /\ doc = Some d
                | None => doc = None end ->
  newRequestError env method (baseURL c +:+ path) = None ->
  exists req,
    http.Method req = method /\ http.URL req = baseURL c +:+ path
    /\ http.Header req !! "Authorization" = Some ("Bearer " +:+ token c)
    /\ http.Header req !! "Content-Type" = Some "application/json"
    /\ http.Body req = doc
    /\ doJSON env c method path body result
       = ([req],
          match Do env req with
          | Err e => HErr (RequestError "execute request" e)
          | Ok resp =>
            match checkResponse env resp with
            | Some e => HErr e
            | None =>
              match result with
              | Some decode =>
                match decode resp with
                | Ok v => HOk (Some v)
                | Err e => HErr (RequestError "decode response" e)
                end
              | None => HOk None
              end
            end
          end).
Proof.
  intros Hbody Hnew. unfold doJSON, doRequest.
  assert (Hm : match body with
               | Some b =>
                 match marshalBody env b with
                 | Ok jsonBody => HOk (Some jsonBody)
                 | Err err => HErr (RequestError "marshal request body" err)
                 end
               | None => HOk None
               end = HOk doc).
  { destruct body as [b|]; [|by subst doc]. by destruct Hbody as (d & -> & ->). }
  rewrite Hm, Hnew.
  exists (http.mkRequest method (baseURL c +:+ path)
            (<["Content-Type" := "application/json"]>
               (<["Authorization" := "Bearer " +:+ token c]> ∅)) doc).
  split; [reflexivity|]. split; [reflexivity|].
  split; [cbn; rewrite lookup_insert_ne by done; by rewrite lookup_insert_eq|].
  split; [cbn; by rewrite lookup_insert_eq|]. split; [reflexivity|].
  destruct (Do env _) as [resp|e]; [|done].
  destruct (checkResponse env resp) as [e|]; [done|].
  destruct result as [decode|]; [|done]. by destruct (decode resp).
Qed.

Lemma doJSON_unbuilt {A} (method path : string) (body : option bodyValue) (doc : option json)
    (result : option (http.Response -> result A)) (e : error) :
  match body with Some b => exists d, marshalBody env b = Ok d /\ doc = Some d
                | None => doc = None end ->
  newRequestError env method (baseURL c +:+ path) = Some e ->
  doJSON env c method path body result = ([], HErr (RequestError "create request" e)).
Proof.
  intros Hbody Hnew. unfold doJSON, doRequest.
  destruct body as [b|]; [destruct Hbody as (d & -> & _)|]; by rewrite Hnew.
Qed.

Lemma checkResponse_404 (resp : http.Response) :
  http.StatusCode resp = 404 -> checkResponse env resp = Some (Sentinel ErrNotFound).
Proof. intros H. unfold checkResponse. by rewrite H. Qed.

Lemma checkResponse_401 (resp : http.Response) :
  http.StatusCode resp = 401 -> checkResponse env resp = Some (Sentinel ErrUnauthorized).
Proof. intros H. unfold checkResponse. by rewrite H. Qed.

(** A call of a service, its result dropped and its error wrapped. *)
Lemma CallService_posts (op domain service : string) (request : option ServiceCallRequest)
    (doc : json) :
  marshalBody env (BodyService request) = Ok doc ->
  postsService env c
    (match CallService env c domain service request with
     | (reqs, HErr err) => (reqs, Some (Wrapf op err))
     | (reqs, HOk _) => (reqs, None)
     end) op domain service doc.
Proof.
  intros Hdoc. unfold postsService, CallService. cbn zeta.
  set (path := "/api/services/" +:+ domain +:+ "/" +:+ service).
  split.
  - intros e Hnew.
    rewrite (doJSON_unbuilt "POST" path (Some (BodyService request)) (Some doc) _ e);
      [done | by exists doc | done].
  - intros Hnew.
    destruct (doJSON_sent "POST" path (Some (BodyService request)) (Some doc)
                (Some (decodeStates env)) ltac:(by exists doc) Hnew)
      as (req & Hm & Hu & Ha & Hc & Hb & ->).
    exists req.
    destruct (Do env req) as [resp|e] eqn:Hdo.
    2:{ cbn [fst snd]. repeat split; try done.
        - intros (resp & ? & [=] & _).
        - intros e' [= <-]. by eexists. }
    destruct (checkResponse env resp) as [e|] eqn:Hck.
    { pose proof (checkResponse_ok env resp) as Hok. cbn [fst snd].
      repeat split; try done.
      - intros (resp' & st & [= <-] & Hr & _). apply Hok in Hr. congruence.
      - intros e' [= <-]. by eexists.
      - intros resp' [= <-] H404. rewrite (checkResponse_404 _ H404) in Hck. congruence.
      - intros resp' [= <-] H401. rewrite (checkResponse_401 _ H401) in Hck. congruence. }
    pose proof (proj1 (checkResponse_ok env resp) Hck) as Hrange.
    destruct (decodeStates env resp) as [st|e] eqn:Hdec; cbn [fst snd].
    + repeat split; try done.
      * intros _. by exists resp, st.
      * intros resp' [= <-] H404. lia.
      * intros resp' [= <-] H401. lia.
    + repeat split; try done.
      * intros (resp' & st & [= <-] & _ & Hd). congruence.
      * intros e' [= <-]. by eexists.
      * intros resp' [= <-] H404. lia.
      * intros resp' [= <-] H401. lia.
Qed.

Lemma MarshalJSON_entity (entityID : string) :
  entityID <> "" ->
  ServiceCallRequest_MarshalJSON (mkServiceCallRequest entityID ∅)
  = Ok (JObject [("entity_id", JString entityID)]).
Proof.
  intros H. unfold ServiceCallRequest_MarshalJSON. cbn [EntityID Data].
  apply String.eqb_neq in H. rewrite H. cbn [negb]. vm_compute. reflexivity.
Qed.

End Calls.

(** X17.  The automation service calls.  AutomationTrigger,
    AutomationTurnOn, AutomationTurnOff and AutomationToggle reject a
    missing entity id with "entity_id is required" before any request is
    made.  Otherwise, like AutomationReload, they make one POST to
    /api/services/automation/<service> with the bearer token: the body is
    the object with the entity id, followed by skip_condition for a trigger
    request that sets it, and it is null for the reload.  They succeed
    exactly when the response has a status from 200 to 299 and decodes;
    every error is wrapped by the name of the operation, and [errors.Is]
    still finds the cause: ErrNotFound for a 404, ErrUnauthorized for a
    401. *)
Theorem automation_service_calls (env : Env) (c : Client) (entityID : string) :
  (AutomationTrigger env c None = ([], Some (Errorf "entity_id is required"))
   /\ (forall skip, AutomationTrigger env c (Some (mkAutomationTriggerRequest "" skip))
                    = ([], Some (Errorf "entity_id is required")))
   /\ AutomationTurnOn env c "" = ([], Some (Errorf "entity_id is required"))
   /\ AutomationTurnOff env c "" = ([], Some (Errorf "entity_id is required"))
   /\ AutomationToggle env c "" = ([], Some (Errorf "entity_id is required")))
  /\ (entityID <> "" ->
      let entity := ("entity_id", JString entityID) in
      (forall skip,
         postsService env c
           (AutomationTrigger env c (Some (mkAutomationTriggerRequest entityID skip)))
           "automation trigger" "automation" "trigger"
           (JObject (entity :: match skip with
                               | Some b => [("skip_condition", JBool b)]
                               | None => []
                               end)))
      /\ postsService env c (AutomationTurnOn env c entityID)
           "automation turn_on" "automation" "turn_on" (JObject [entity])
      /\ postsService env c (AutomationTurnOff env c entityID)
           "automation turn_off" "automation" "turn_off" (JObject [entity])
      /\ postsService env c (AutomationToggle env c entityID)
           "automation toggle" "automation" "toggle" (JObject [entity]))
  /\ postsService env c (AutomationReload env c)
       "automation reload" "automation" "reload" JNull.
Proof.
  split; [by repeat split|]. split.
  - intros Hid entity.
    pose proof (proj2 (String.eqb_neq _ _) Hid) as Heq.
    assert (Hbody : marshalBody env (BodyService (Some (mkServiceCallRequest entityID ∅)))
                    = Ok (JObject [entity])).
    { cbn [marshalBody]. by rewrite MarshalJSON_entity. }
    split; [|split; [|split]].
    + intros skip. unfold AutomationTrigger. cbn [Trigger_EntityID SkipCondition EntityID].
      rewrite Heq. apply CallService_posts. destruct skip as [b|]; [|exact Hbody].
      cbn [marshalBody]. unfold ServiceCallRequest_MarshalJSON. cbn [EntityID Data].
      rewrite Heq. cbn [negb]. vm_compute. reflexivity.
    + unfold AutomationTurnOn. rewrite Heq. by apply CallService_posts.
    + unfold AutomationTurnOff. rewrite Heq. by apply CallService_posts.
    + unfold AutomationToggle. rewrite Heq. by apply CallService_posts.
  - unfold AutomationReload. by apply CallService_posts.
Qed.

Lemma automation_service_calls_witness :
  let env := mkEnv (fun _ _ => None)
               (fun _ => Ok (http.mkResponse 404 "404 Not Found" "" None))
               (fun _ => Err (ErrorString "unexpected end of JSON input"))
               (fun _ => Ok JNull) (fun _ => Ok JNull)
               (fun _ => Ok []) (fun _ => Ok zeroAutomationConfig) (fun _ => Ok [])
               (fun _ => Ok zeroScriptConfig) (fun _ => Ok []) in
  let c := mkClient "http://localhost:8123" "secret" None in
  (AutomationToggle env c "automation.porch").2
    = Some (Wrapf "automation toggle" (Sentinel ErrNotFound))
  /\ (http.Body <$> (AutomationToggle env c "automation.porch").1)
     = [Some (JObject [("entity_id", JString "automation.porch")])].
Proof.
  intros env c.
  destruct (automation_service_calls env c "automation.porch") as (_ & Hcalls & _).
  destruct (Hcalls ltac:(discriminate)) as (_ & _ & _ & Htoggle).
  destruct Htoggle as [_ Hsent].
  destruct (Hsent eq_refl) as (req & Hreqs & _ & _ & _ & _ & Hbody & _ & _ & H404 & _).
  split.
  - apply (H404 (http.mkResponse 404 "404 Not Found" "" None)); [|reflexivity].
    assert (Hr : [req] = (AutomationToggle env c "automation.porch").1) by (by rewrite Hreqs).
    vm_compute in Hr. injection Hr as ->. reflexivity.
  - rewrite Hreqs. cbn [fmap list_fmap]. by rewrite Hbody.
Defined.

Section Endpoints.
Context (env : Env) (c : Client).

(** A call of [doJSON] whose error is wrapped by the name of the operation. *)
Lemma doJSON_calls {A} (op method path : string) (body : option bodyValue) (doc : option json)
    (result : option (http.Response -> result A)) :
  match body with Some b => exists d, marshalBody env b = Ok d /\ doc = Some d
                | None => doc = None end ->
  let r := doJSON env c method path body result in
  callsEndpoint env c r.1
    (match r.2 with HErr err => Some (Wrapf op err) | HOk _ => None end)
    op method path doc
    (fun resp => match result with
                 | Some decode => exists v, decode resp = Ok v
                 | None => True
                 end).
Proof.
  intros Hbody r. subst r. unfold callsEndpoint. cbn zeta. split.
  - intros e Hnew. by rewrite (doJSON_unbuilt env c method path body doc result e).
  - intros Hnew.
    destruct (doJSON_sent env c method path body doc result Hbody Hnew)
      as (req & Hm & Hu & Ha & Hc & Hb & ->).
    exists req. cbn [fst snd].
    destruct (Do env req) as [resp|e] eqn:Hdo.
    2:{ repeat split; try done.
        - intros (resp & [=] & _).
        - intros e' [= <-]. by eexists. }
    destruct (checkResponse env resp) as [e|] eqn:Hck.
    { pose proof (checkResponse_ok env resp) as Hok.
      repeat split; try done.
      - intros (resp' & [= <-] & Hr & _). apply Hok in Hr. congruence.
      - intros e' [= <-]. by eexists.
      - intros resp' [= <-] H404. rewrite (checkResponse_404 env _ H404) in Hck. congruence. }
    pose proof (proj1 (checkResponse_ok env resp) Hck) as Hrange.
    destruct result as [decode|].
    + destruct (decode resp) as [v|e] eqn:Hdec.
      * repeat split; try done.
        -- intros _. exists resp. repeat split; try done; try lia. by exists v.
        -- intros resp' [= <-] H404. lia.
      * repeat split; try done.
        -- intros (resp' & [= <-] & _ & v & Hv). congruence.
        -- intros e' [= <-]. by eexists.
        -- intros resp' [= <-] H404. lia.
    + repeat split; try done.
      * intros _. exists resp. repeat split; try done; lia.
      * intros resp' [= <-] H404. lia.
Qed.

End Endpoints.

(** X18.  The automation configuration calls.  AutomationGet and
    AutomationDeleteConfig reject an empty id, and AutomationSave rejects in
    this order a nil configuration, an empty id and an empty alias, each
    before any request is made.  Otherwise they make one request to
    /api/config/automation/config/<id>, the id appended as it is: a GET, a
    DELETE, or a POST with the encoded configuration.  The error of a failed
    exchange is wrapped by the name of the operation and keeps its cause for
    [errors.Is]; a configuration that cannot be encoded fails the save
    without a request. *)
Theorem automation_config_calls (env : Env) (c : Client) (id : string)
    (config : AutomationConfig) :
  (AutomationGet env c "" = ([], HErr (Errorf "automation id is required"))
   /\ AutomationDeleteConfig env c "" = ([], Some (Errorf "automation id is required"))
   /\ AutomationSave env c None = ([], Some (Errorf "automation config is required"))
   /\ (Automation_ID config = "" ->
       AutomationSave env c (Some config) = ([], Some (Errorf "automation id is required")))
   /\ (Automation_ID config <> "" -> Automation_Alias config = "" ->
       AutomationSave env c (Some config)
       = ([], Some (Errorf "automation alias is required"))))
  /\ (id <> "" ->
      let path := "/api/config/automation/config/" +:+ id in
      callsEndpoint env c (AutomationGet env c id).1 (errorOf (AutomationGet env c id).2)
        "automation get" "GET" path None
        (fun resp => exists cfg, decodeAutomationConfig env resp = Ok cfg)
      /\ callsEndpoint env c (AutomationDeleteConfig env c id).1
           (AutomationDeleteConfig env c id).2
           "automation delete" "DELETE" path None (fun _ => True))
  /\ (Automation_ID config <> "" -> Automation_Alias config <> "" ->
      let path := "/api/config/automation/config/" +:+ Automation_ID config in
      (forall doc, marshalAutomationConfig env config = Ok doc ->
         callsEndpoint env c (AutomationSave env c (Some config)).1
           (AutomationSave env c (Some config)).2
           "automation save" "POST" path (Some doc) (fun _ => True))
      /\ (forall e, marshalAutomationConfig env config = Err e ->
            AutomationSave env c (Some config)
            = ([], Some (Wrapf "automation save" (RequestError "marshal request body" e))))).
Proof.
  split; [|split].
  - split; [done|]. split; [done|]. split; [done|]. split.
    + intros H. unfold AutomationSave. by rewrite H.
    + intros Hid Ha. unfold AutomationSave.
      apply String.eqb_neq in Hid. by rewrite Hid, Ha.
  - intros Hid path. apply String.eqb_neq in Hid. split.
    + unfold AutomationGet. rewrite Hid. fold path.
      pose proof (doJSON_calls env c "automation get" "GET" path None None
                    (Some (decodeAutomationConfig env)) eq_refl) as H.
      cbn zeta in H.
      destruct (doJSON env c "GET" path None (Some (decodeAutomationConfig env)))
        as [reqs [v|e]]; exact H.
    + unfold AutomationDeleteConfig. rewrite Hid. fold path.
      pose proof (doJSON_calls (A := unit) env c "automation delete" "DELETE" path None None
                    None eq_refl) as H.
      cbn zeta in H.
      destruct (doJSON env c "DELETE" path None None) as [reqs [v|e]]; exact H.
  - intros Hid Ha path. apply String.eqb_neq in Hid. apply String.eqb_neq in Ha. split.
    + intros doc Hdoc. unfold AutomationSave. rewrite Hid, Ha. fold path.
      pose proof (doJSON_calls (A := unit) env c "automation save" "POST" path
                    (Some (BodyAutomation config)) (Some doc) None
                    ltac:(by exists doc)) as H.
      cbn zeta in H.
      destruct (doJSON env c "POST" path (Some (BodyAutomation config)) None)
        as [reqs [v|e]]; exact H.
    + intros e He. unfold AutomationSave. rewrite Hid, Ha.
      unfold doJSON, doRequest. cbn [marshalBody]. by rewrite He.
Qed.

(** * Scripts (script.go) *)

Section ScriptFacts.

Lemma HasPrefix_app (p t : string) : strings.HasPrefix (p +:+ t) p = true.
Proof.
  induction p as [|a p IH]; [done|].
  change (String a p +:+ t) with (String a (p +:+ t)).
  cbn [strings.HasPrefix]. by rewrite Ascii.eqb_refl.
Qed.

Lemma HasPrefix_inv (s p : string) :
  strings.HasPrefix s p = true -> exists t, s = p +:+ t.
Proof.
  revert s. induction p as [|a p IH]; intros s; [by exists s|].
  destruct s as [|b s]; cbn [strings.HasPrefix]; [discriminate|].
  destruct (Ascii.eqb a b) eqn:Hab; [|discriminate]. apply Ascii.eqb_eq in Hab as <-.
  intros H. destruct (IH _ H) as [t ->]. by exists t.
Qed.

Lemma substring_whole (t : string) : String.substring 0 (String.length t) t = t.
Proof. induction t as [|a t IH]; [done|]. cbn. by rewrite IH. Qed.

Lemma length_app_s (p t : string) :
  String.length (p +:+ t) = (String.length p + String.length t)%nat.
Proof.
  induction p as [|a p IH]; [done|].
  change (String a p +:+ t) with (String a (p +:+ t)). cbn. by rewrite IH.
Qed.

Lemma TrimPrefix_app (p t : string) : TrimPrefix (p +:+ t) p = t.
Proof.
  unfold TrimPrefix. rewrite HasPrefix_app, length_app_s.
  replace (String.length p + String.length t - String.length p)%nat
    with (String.length t) by lia.
  induction p as [|a p IH]; [apply substring_whole|].
  change (String a p +:+ t) with (String a (p +:+ t)). exact IH.
Qed.

Lemma TrimPrefix_shorter (p t : string) : p <> "" -> TrimPrefix (p +:+ t) p <> p +:+ t.
Proof.
  intros Hp. rewrite TrimPrefix_app. intros H.
  apply (f_equal String.length) in H. rewrite length_app_s in H.
  destruct p; [done|]. cbn in H. lia.
Qed.

Lemma MarshalJSON_data (variables : gmap string (result json)) :
  ServiceCallRequest_MarshalJSON (mkServiceCallRequest "" variables) = marshalMap variables.
Proof.
  unfold ServiceCallRequest_MarshalJSON. cbn [EntityID Data String.eqb negb].
  rewrite foldl_insert_map. by rewrite (right_id ∅ (∪)).
Qed.

End ScriptFacts.

(** X19.  The script service calls.  ScriptRun, ScriptTurnOn, ScriptTurnOff
    and ScriptToggle reject an empty entity id, and ScriptRun an entity id
    that does not begin with "script.", before any request is made.
    ScriptRun for "script.<name>" posts the variables, flattened into the
    body, to /api/services/script/<name>, for every name, the empty one
    included; variables that cannot be encoded fail the call without a
    request.  ScriptTurnOn posts the entity id, and the variables nested
    under "variables" only when there are some; ScriptTurnOff and
    ScriptToggle post the entity id; ScriptReload posts null.  Errors are
    wrapped by the name of the operation and keep their cause. *)
Theorem script_service_calls (env : Env) (c : Client) (entityID name : string)
    (variables : gmap string (result json)) :
  (ScriptRun env c "" variables = ([], Some (Errorf "entity_id is required"))
   /\ ScriptTurnOn env c "" variables = ([], Some (Errorf "entity_id is required"))
   /\ ScriptTurnOff env c "" = ([], Some (Errorf "entity_id is required"))
   /\ ScriptToggle env c "" = ([], Some (Errorf "entity_id is required"))
   /\ (entityID <> "" -> strings.HasPrefix entityID "script." = false ->
       ScriptRun env c entityID variables
       = ([], Some (Errorf ("invalid entity_id format: expected 'script.*', got '"
                            +:+ entityID +:+ "'")))))
  /\ ((forall doc, marshalMap variables = Ok doc ->
         postsService env c (ScriptRun env c ("script." +:+ name) variables)
           "script run" "script" name doc)
      /\ (forall e, marshalMap variables = Err e ->
            ScriptRun env c ("script." +:+ name) variables
            = ([], Some (Wrapf "script run" (RequestError "marshal request body"
                   (WrapError "json: error calling MarshalJSON for type *hago.ServiceCallRequest"
                      e))))))
  /\ (entityID <> "" ->
      let entity := ("entity_id", JString entityID) in
      (variables = ∅ ->
         postsService env c (ScriptTurnOn env c entityID variables)
           "script turn_on" "script" "turn_on" (JObject [entity]))
      /\ (variables <> ∅ -> forall vdoc, marshalMap variables = Ok vdoc ->
            postsService env c (ScriptTurnOn env c entityID variables)
              "script turn_on" "script" "turn_on" (JObject [entity; ("variables", vdoc)]))
      /\ postsService env c (ScriptTurnOff env c entityID)
           "script turn_off" "script" "turn_off" (JObject [entity])
      /\ postsService env c (ScriptToggle env c entityID)
           "script toggle" "script" "toggle" (JObject [entity]))
  /\ postsService env c (ScriptReload env c) "script reload" "script" "reload" JNull.
Proof.
  split; [|split; [|split]].
  - split; [done|]. split; [done|]. split; [done|]. split; [done|].
    intros Hid Hpre. unfold ScriptRun. apply String.eqb_neq in Hid. rewrite Hid.
    unfold TrimPrefix. rewrite Hpre. by rewrite String.eqb_refl.
  - assert (Hne : String.eqb ("script." +:+ name) "" = false) by done.
    assert (Htrim : String.eqb (TrimPrefix ("script." +:+ name) "script.")
                      ("script." +:+ name) = false).
    { apply String.eqb_neq. by apply TrimPrefix_shorter. }
    split.
    + intros doc Hdoc. unfold ScriptRun. rewrite Hne, Htrim, TrimPrefix_app.
      apply CallService_posts. cbn [marshalBody]. by rewrite MarshalJSON_data, Hdoc.
    + intros e He. unfold ScriptRun. rewrite Hne, Htrim, TrimPrefix_app.
      unfold CallService, doJSON, doRequest. cbn [marshalBody].
      by rewrite MarshalJSON_data, He.
  - intros Hid entity.
    pose proof (proj2 (String.eqb_neq _ _) Hid) as Heq.
    assert (Hbody : marshalBody env (BodyService (Some (mkServiceCallRequest entityID ∅)))
                    = Ok (JObject [entity])).
    { cbn [marshalBody]. by rewrite MarshalJSON_entity. }
    split; [|split; [|split]].
    + intros ->. unfold ScriptTurnOn. rewrite Heq. rewrite map_size_empty.
      cbn [Nat.ltb Nat.leb]. by apply CallService_posts.
    + intros Hvars vdoc Hv. unfold ScriptTurnOn. rewrite Heq.
      assert (Hsz : (0 <? size variables)%nat = true).
      { apply Nat.ltb_lt. destruct (size variables) eqn:Hs; [|lia].
        by apply map_size_empty_inv in Hs. }
      rewrite Hsz. apply CallService_posts. cbn [marshalBody EntityID].
      unfold ServiceCallRequest_MarshalJSON. cbn [EntityID Data]. rewrite Heq, Hv.
      cbn [negb]. vm_compute. reflexivity.
    + unfold ScriptTurnOff. rewrite Heq. by apply CallService_posts.
    + unfold ScriptToggle. rewrite Heq. by apply CallService_posts.
  - unfold ScriptReload. by apply CallService_posts.
Qed.

Section ScriptListFacts.
Context (env : Env) (c : Client).

Lemma doJSON_at_most_one {A} (method path : string) (body : option bodyValue)
    (result : option (http.Response -> result A)) :
  (length (doJSON env c method path body result).1 <= 1)%nat.
Proof.
  unfold doJSON.
  destruct (doRequest_cases env c method path body)
    as [(e & _ & ->) | [(e & _ & ->) | (req & _ & _ & _ & _ & _ & _ & Hdo)]];
    [cbn; lia..|].
  destruct Hdo as [(e & _ & ->) | (resp & _ & ->)]; [cbn; lia|].
  destruct (checkResponse env resp); [cbn; lia|].
  destruct result as [decode|]; [|cbn; lia]. destruct (decode resp); cbn; lia.
Qed.

Lemma foldl_append_omap {A B} (f : A -> option B) (l : list A) (acc : list B) :
  foldl (fun configs state => match f state with
                              | None => configs
                              | Some config => configs ++ [config]
                              end) acc l
  = acc ++ omap f l.
Proof.
  revert acc. induction l as [|x l IH]; intros acc; cbn [foldl].
  - by rewrite app_nil_r.
  - rewrite IH.
    change (omap f (x :: l))
      with (match f x with Some y => y :: omap f l | None => omap f l end).
    destruct (f x) as [y|]; [|done]. by rewrite <- app_assoc.
Qed.

Lemma scriptOfState_spec (state : State) (cfg : ScriptConfig) :
  scriptOfState state = Some cfg ->
  Script_ID cfg = State_EntityID state
  /\ (exists name, State_EntityID state = "script." +:+ name
        /\ Script_Alias cfg = match Attributes state !! "friendly_name" with
                              | Some (JString friendlyName) => friendlyName
                              | _ => name
                              end)
  /\ Sequence cfg = Some [] /\ Script_Max cfg = None /\ Icon cfg = None
  /\ Fields cfg = None /\ Variables cfg = None
  /\ Script_Description cfg <> Some ""
  /\ (forall d, Script_Description cfg = Some d ->
        Attributes state !! "description" = Some (JString d))
  /\ (Script_Mode cfg <> "" ->
      Attributes state !! "mode" = Some (JString (Script_Mode cfg))).
Proof.
  unfold scriptOfState.
  destruct (strings.HasPrefix (State_EntityID state) "script.") eqn:Hpre; [|discriminate].
  cbn [negb]. intros [= <-]. cbn.
  destruct (HasPrefix_inv _ _ Hpre) as [name Hname].
  split; [done|]. split.
  { exists name. split; [done|]. unfold stringAttr.
    destruct (Attributes state !! "friendly_name") as [[ | | |s| | ]|];
      try (rewrite Hname; apply TrimPrefix_app). done. }
  do 5 (split; [done|]). unfold stringAttr. split; [|split].
  - destruct (Attributes state !! "description") as [[ | | |s| | ]|]; try done.
    destruct (String.eqb s "") eqn:Hs; [done|]. apply String.eqb_neq in Hs.
    cbn [negb]. by intros [= ->].
  - intros d. destruct (Attributes state !! "description") as [[ | | |s| | ]|]; try done.
    destruct (String.eqb s ""); [done|]. by intros [= ->].
  - destruct (Attributes state !! "mode") as [[ | | |s| | ]|]; try done.
    destruct (String.eqb s ""); done.
Qed.

Lemma scriptOfState_ids (states : list State) :
  Script_ID <$> omap scriptOfState states
  = filter (fun id => strings.HasPrefix id "script." = true) (State_EntityID <$> states).
Proof.
  induction states as [|state states IH]; [done|].
  change (omap scriptOfState (state :: states))
    with (match scriptOfState state with
          | Some y => y :: omap scriptOfState states
          | None => omap scriptOfState states
          end).
  cbn [fmap list_fmap]. rewrite filter_cons.
  destruct (scriptOfState state) as [cfg|] eqn:Hcfg.
  - destruct (scriptOfState_spec _ _ Hcfg) as (Hid & (name & Hname & _) & _).
    rewrite decide_True by (cbv beta; rewrite Hname; apply HasPrefix_app).
    cbn [fmap list_fmap]. rewrite Hid. f_equal. exact IH.
  - unfold scriptOfState in Hcfg.
    destruct (strings.HasPrefix (State_EntityID state) "script.") eqn:Hpre; [discriminate|].
    rewrite decide_False by (cbv beta; congruence). exact IH.
Qed.

End ScriptListFacts.

(** X20.  ScriptList asks the configuration endpoint first and returns what
    it decodes.  When that exchange fails in any way it asks for the states
    and, if that works, builds the list from them: one configuration for
    each state whose entity id begins with "script.", in the order of the
    states, with that id, with the alias taken from friendly_name when that
    attribute is a string (an empty one included) and the id without its
    prefix otherwise, with the description and the mode only when they are
    non-empty strings, and with an empty, non-nil sequence.  When both
    exchanges fail the error names both and wraps the first (the cause that
    [errors.Is] sees).  At most two requests are made. *)
Theorem ScriptList_fallback (env : Env) (c : Client) :
  let first := doJSON env c "GET" "/api/config/script/config" None
                 (Some (decodeScriptConfigs env)) in
  let r := ScriptList env c in
  (forall configs, first.2 = HOk configs -> r = (first.1, HOk (decoded [] configs)))
  /\ (forall err, first.2 = HErr err ->
        r.1 = first.1 ++ (States env c).1
        /\ (forall statesErr, (States env c).2 = HErr statesErr ->
              r.2 = HErr (ScriptListError err statesErr)
              /\ forall t, Is (ScriptListError err statesErr) t = Is err t)
        /\ (forall states, (States env c).2 = HOk states ->
              exists configs, r.2 = HOk configs
                /\ Script_ID <$> configs
                   = filter (fun id => strings.HasPrefix id "script." = true)
                       (State_EntityID <$> states)
                /\ forall cfg, cfg ∈ configs ->
                     Sequence cfg = Some [] /\ Script_Description cfg <> Some ""
                     /\ exists state name,
                          state ∈ states /\ State_EntityID state = "script." +:+ name
                          /\ Script_ID cfg = State_EntityID state
                          /\ Script_Alias cfg
                             = match Attributes state !! "friendly_name" with
                               | Some (JString friendlyName) => friendlyName
                               | _ => name
                               end))
  /\ (length r.1 <= 2)%nat.
Proof.
  intros first r.
  pose proof (doJSON_at_most_one env c "GET" "/api/config/script/config" None
                (Some (decodeScriptConfigs env))) as Hlen1.
  assert (Hlen2 : (length (States env c).1 <= 1)%nat).
  { unfold States.
    pose proof (doJSON_at_most_one env c "GET" "/api/states" None
                  (Some (decodeStates env))) as H.
    by destruct (doJSON env c "GET" "/api/states" None (Some (decodeStates env)))
      as [reqs [v|e]]. }
  fold first in Hlen1. subst r. unfold ScriptList. fold first.
  destruct first as [reqs [configs|err]]; cbn [fst snd] in *.
  - split; [by intros ? [= <-]|]. split; [discriminate|]. lia.
  - split; [discriminate|].
    destruct (States env c) as [reqs' [states|statesErr]]; cbn [fst snd] in *.
    + split; [|rewrite length_app; lia]. intros err' [= <-].
      split; [done|]. split; [discriminate|]. intros states' [= <-].
      rewrite foldl_append_omap, app_nil_l. eexists. split; [reflexivity|].
      split; [apply scriptOfState_ids|].
      intros cfg Hin. apply list_elem_of_omap in Hin as (state & Hstate & Hcfg).
      destruct (scriptOfState_spec _ _ Hcfg)
        as (Hid & (name & Hname & Halias) & Hseq & _ & _ & _ & _ & Hdesc & _).
      split; [done|]. split; [done|]. by exists state, name.
    + split; [|rewrite length_app; lia]. intros err' [= <-].
      split; [done|]. split; [|discriminate]. by intros statesErr' [= <-].
Qed.

(** X21.  The script configuration calls.  ScriptGet and ScriptDeleteConfig
    reject an empty id, and ScriptSave rejects in this order a nil
    configuration, an empty id, an empty alias and a sequence without
    steps (nil or empty), each before any request is made.  Otherwise they
    make one request to /api/config/script/config/<id>, the id appended as
    it is: a GET, a DELETE, or a POST with the encoded configuration; the
    error of a failed exchange is wrapped by the name of the operation and
    keeps its cause for [errors.Is]. *)
Theorem script_config_calls (env : Env) (c : Client) (id : string) (config : ScriptConfig) :
  (ScriptGet env c "" = ([], HErr (Errorf "script id is required"))
   /\ ScriptDeleteConfig env c "" = ([], Some (Errorf "script id is required"))
   /\ ScriptSave env c None = ([], Some (Errorf "script config is required"))
   /\ (Script_ID config = "" ->
       ScriptSave env c (Some config) = ([], Some (Errorf "script id is required")))
   /\ (Script_ID config <> "" -> Script_Alias config = "" ->
       ScriptSave env c (Some config) = ([], Some (Errorf "script alias is required")))
   /\ (Script_ID config <> "" -> Script_Alias config <> "" ->
       Sequence config = None \/ Sequence config = Some [] ->
       ScriptSave env c (Some config) = ([], Some (Errorf "script sequence is required"))))
  /\ (id <> "" ->
      let path := "/api/config/script/config/" +:+ id in
      callsEndpoint env c (ScriptGet env c id).1 (errorOf (ScriptGet env c id).2)
        "script get" "GET" path None
        (fun resp => exists cfg, decodeScriptConfig env resp = Ok cfg)
      /\ callsEndpoint env c (ScriptDeleteConfig env c id).1 (ScriptDeleteConfig env c id).2
           "script delete" "DELETE" path None (fun _ => True))
  /\ (Script_ID config <> "" -> Script_Alias config <> "" ->
      (exists step steps, Sequence config = Some (step :: steps)) ->
      let path := "/api/config/script/config/" +:+ Script_ID config in
      (forall doc, marshalScriptConfig env config = Ok doc ->
         callsEndpoint env c (ScriptSave env c (Some config)).1
           (ScriptSave env c (Some config)).2
           "script save" "POST" path (Some doc) (fun _ => True))
      /\ (forall e, marshalScriptConfig env config = Err e ->
            ScriptSave env c (Some config)
            = ([], Some (Wrapf "script save" (RequestError "marshal request body" e))))).
Proof.
  split; [|split].
  - split; [done|]. split; [done|]. split; [done|]. split; [|split].
    + intros H. unfold ScriptSave. by rewrite H.
    + intros Hid Ha. unfold ScriptSave. apply String.eqb_neq in Hid. by rewrite Hid, Ha.
    + intros Hid Ha Hseq. unfold ScriptSave.
      apply String.eqb_neq in Hid. apply String.eqb_neq in Ha. rewrite Hid, Ha.
      by destruct Hseq as [-> | ->].
  - intros Hid path. apply String.eqb_neq in Hid. split.
    + unfold ScriptGet. rewrite Hid. fold path.
      pose proof (doJSON_calls env c "script get" "GET" path None None
                    (Some (decodeScriptConfig env)) eq_refl) as H.
      cbn zeta in H.
      destruct (doJSON env c "GET" path None (Some (decodeScriptConfig env)))
        as [reqs [v|e]]; exact H.
    + unfold ScriptDeleteConfig. rewrite Hid. fold path.
      pose proof (doJSON_calls (A := unit) env c "script delete" "DELETE" path None None
                    None eq_refl) as H.
      cbn zeta in H.
      destruct (doJSON env c "DELETE" path None None) as [reqs [v|e]]; exact H.
  - intros Hid Ha (step & steps & Hseq) path.
    apply String.eqb_neq in Hid. apply String.eqb_neq in Ha. split.
    + intros doc Hdoc. unfold ScriptSave. rewrite Hid, Ha, Hseq. cbn [default length Nat.eqb].
      fold path.
      pose proof (doJSON_calls (A := unit) env c "script save" "POST" path
                    (Some (BodyScript config)) (Some doc) None
                    ltac:(by exists doc)) as H.
      cbn zeta in H.
      destruct (doJSON env c "POST" path (Some (BodyScript config)) None)
        as [reqs [v|e]]; exact H.
    + intros e He. unfold ScriptSave. rewrite Hid, Ha, Hseq. cbn [default length Nat.eqb].
      unfold doJSON, doRequest. cbn [marshalBody]. by rewrite He.
Qed.

(** * Lovelace: the commands on the wire *)

Ltac nodup_keys := apply (bool_decide_unpack _); vm_compute; exact I.

Ltac on_live H :=
  match goal with
  | |- sendsFrame (wsCommand _ ?dec _ (VOther (JObject ?fields)) _ _ _ _) _ ?m =>
    apply (H dec fields m);
      [nodup_keys | match goal with |- ?l = _ => vm_cast_no_check (@eq_refl _ l) end]
  end.

Section LovelaceFacts.

(** A command that encodes to an object, on a connection that accepts the
    write: the frame written is the object with the id. *)
Lemma sendCommand_writes (ctx : Context) (fields : list (string * json)) (bg pick : nat)
    (w : world) :
  writeSucceeds (conn (sess w)) -> NoDup fields.*1 ->
  outbox (conn (sess (sendCommand ctx (VOther (JObject fields)) bg pick w).2))
  = outbox (conn (sess w)) ++ [<["id" := JNumber (nextID (sess w)).1]> (list_to_map fields)].
Proof.
  intros Hw Hnd.
  unfold sendCommand, nextID, register, makeChan, makeMap. cbn [fst snd].
  rewrite defer_conn by reflexivity.
  set (id := wrap64 (msgID (sess w) + 1)).
  set (l' := fresh (dom (objs w))).
  set (h1 := <[l' := ∅]> (objs w)).
  cbn [Marshal Unmarshal mapassign mapvalue mbind option_bind].
  set (body := storeFields fields (default ∅ (h1 !! l'))).
  assert (Hbody : body = list_to_map fields).
  { unfold body, h1. rewrite lookup_insert_eq. change (default ∅ (Some ∅)) with (∅ : gmap string json).
    rewrite storeFields_union by done. apply (right_id_L ∅ (∪)). }
  set (h2 := <[l' := body]> h1).
  assert (Hh2 : h2 !! l' = Some body) by (unfold h2; by rewrite lookup_insert_eq).
  rewrite Hh2. change (default ∅ (Some body)) with body.
  set (frame := <["id" := JNumber id]> body).
  set (h3 := <[l' := frame]> h2).
  assert (Hh3 : h3 !! l' = Some frame) by (unfold h3; by rewrite lookup_insert_eq).
  change (mapvalue (Some l') h3) with (default ∅ (h3 !! l')).
  rewrite Hh3. change (default ∅ (Some frame)) with frame.
  cbn [conn setPending setChans setMsgID].
  rewrite WriteJSON_ok by done.
  match goal with |- context [readerRun bg ?s] => set (ws2 := s) end.
  assert (Hout2 : outbox (conn ws2)
                  = outbox (conn (sess w)) ++ [<["id" := JNumber id]> (list_to_map fields)])
    by (unfold ws2, frame; by rewrite Hbody).
  destruct (readerRun bg ws2) as [ws3|] eqn:HR; [|exact Hout2].
  pose proof (readerRun_outbox _ _ _ HR) as Hout3.
  match goal with |- context [choose pick ?r] =>
    destruct (choose pick r) as [[e| |resp]|] end;
    cbn [snd sess conn chanRecv setChans]; congruence.
Qed.

(** [wsCommand] on a client whose session is live. *)
Lemma wsCommand_live (dial : string -> result Conn) (decode : string -> option error)
    (ctx : Context) (fields : list (string * json)) (bg pick : nat) (c : Client) (h : heap)
    (s : wsConn) :
  ws c = Some s -> done s = false -> writeSucceeds (conn s) -> NoDup fields.*1 ->
  sendsFrame (wsCommand dial decode ctx (VOther (JObject fields)) bg pick c h) c
    (list_to_map fields).
Proof.
  intros Hs Hd Hw Hnd. unfold sendsFrame.
  set (sc := sendCommand ctx (VOther (JObject fields)) bg pick (mkWorld h s)).
  assert (Hr : exists out, wsCommand dial decode ctx (VOther (JObject fields)) bg pick c h
                           = (out, setWs (Some (sess sc.2)) c, objs sc.2)
                           /\ (out <> Blocks -> sc.1 <> Blocks)).
  { unfold wsCommand, connectWebSocket. rewrite Hs, Hd. cbn [negb connErr client].
    rewrite Hs. fold sc. destruct sc as [[[resp|e]|msg|] w']; cbn [fst snd];
      try (eexists; split; [reflexivity|]; done).
    destruct (if String.eqb (Result resp) "" then None else decode (Result resp));
      eexists; (split; [reflexivity|]); done. }
  destruct Hr as (out & -> & Hnb).
  exists s, (sess sc.2). split; [done|]. split; [done|]. split.
  - exact (sendCommand_writes ctx fields bg pick (mkWorld h s) Hw Hnd).
  - cbn [fst]. intros Hout.
    exact (sendCommand_unregisters ctx _ bg pick (mkWorld h s) (Hnb Hout)).
Qed.

End LovelaceFacts.

(** X22.  The Lovelace commands on the wire.  On a client with a live
    session whose connection accepts the write, each function writes
    exactly one frame: the id assigned to the call, the type of the
    command, and the fields of the command.  Optional fields appear only
    when set: url_path for a non-nil path (an empty path is sent as the
    empty string), force only when true, the title and icon of a new
    dashboard only when not empty, its flags only when true, and the
    fields of an update only for the pointers that are not nil (these may
    carry false or the empty string).  LovelaceGetConfigParsed sends the
    command of LovelaceGetConfig without force. *)
Theorem lovelace_frames (dial : string -> result Conn) (decode : string -> option error)
    (ctx : Context) (bg pick : nat) (c : Client) (h : heap) (s : wsConn) :
  ws c = Some s -> done s = false -> writeSucceeds (conn s) ->
  let type t : gmap string json := {[ "type" := JString t ]} in
  let opt {A} (key : string) (enc : A -> json) (p : option A) (m : gmap string json) :=
    match p with Some v => <[key := enc v]> m | None => m end in
  let flag (key : string) (b : bool) (m : gmap string json) :=
    if b then <[key := JBool true]> m else m in
  let text (key : string) (t : string) (m : gmap string json) :=
    if String.eqb t "" then m else <[key := JString t]> m in
  sendsFrame (LovelaceListDashboards dial decode ctx bg pick c h) c
    (type "lovelace/dashboards/list")
  /\ sendsFrame (LovelaceListResources dial decode ctx bg pick c h) c
       (type "lovelace/resources")
  /\ (forall urlPath force,
        sendsFrame (LovelaceGetConfig dial decode ctx urlPath force bg pick c h) c
          (opt "url_path" JString urlPath (flag "force" force (type "lovelace/config"))))
  /\ (forall urlPath decodeConfig,
        sendsFrame (LovelaceGetConfigParsed dial decode decodeConfig ctx urlPath bg pick c h) c
          (opt "url_path" JString urlPath (type "lovelace/config")))
  /\ (forall urlPath config,
        sendsFrame (LovelaceSaveConfig dial ctx urlPath (Ok config) bg pick c h) c
          (opt "url_path" JString urlPath
             (<["config" := config]> (type "lovelace/config/save"))))
  /\ (forall urlPath,
        sendsFrame (LovelaceDeleteConfig dial ctx urlPath bg pick c h) c
          (opt "url_path" JString urlPath (type "lovelace/config/delete")))
  /\ (forall req,
        sendsFrame (LovelaceCreateDashboard dial decode ctx (Some req) bg pick c h) c
          (text "title" (Create_Title req)
             (text "icon" (Create_Icon req)
                (flag "show_in_sidebar" (Create_ShowInSidebar req)
                   (flag "require_admin" (Create_RequireAdmin req)
                      (flag "allow_single_word" (Create_AllowSingleWord req)
                         (<["url_path" := JString (Create_URLPath req)]>
                            (type "lovelace/dashboards/create"))))))))
  /\ (forall dashboardID req,
        sendsFrame (LovelaceUpdateDashboard dial decode ctx dashboardID (Some req) bg pick c h) c
          (opt "title" JString (Update_Title req)
             (opt "icon" JString (Update_Icon req)
                (opt "show_in_sidebar" JBool (Update_ShowInSidebar req)
                   (opt "require_admin" JBool (Update_RequireAdmin req)
                      (opt "allow_single_word" JBool (Update_AllowSingleWord req)
                         (<["dashboard_id" := JString dashboardID]>
                            (type "lovelace/dashboards/update"))))))))
  /\ (forall dashboardID,
        sendsFrame (LovelaceDeleteDashboard dial ctx dashboardID bg pick c h) c
          (<["dashboard_id" := JString dashboardID]> (type "lovelace/dashboards/delete"))).
Proof.
  intros Hs Hd Hw type opt flag text.
  assert (Hlive : forall dec fields (m : gmap string json),
            NoDup fields.*1 -> list_to_map fields = m ->
            sendsFrame (wsCommand dial dec ctx (VOther (JObject fields)) bg pick c h) c m).
  { intros dec fields m Hnd <-. by apply (wsCommand_live dial dec ctx fields bg pick c h s). }
  repeat match goal with |- _ /\ _ => split end.
  - unfold LovelaceListDashboards, lovelaceDashboardsListCmd. on_live Hlive.
  - unfold LovelaceListResources, lovelaceResourcesCmd. on_live Hlive.
  - intros urlPath force. unfold LovelaceGetConfig, lovelaceConfigCmd.
    destruct urlPath, force; on_live Hlive.
  - intros urlPath decodeConfig. unfold LovelaceGetConfigParsed.
    assert (H : sendsFrame (LovelaceGetConfig dial decode ctx urlPath false bg pick c h) c
                  (opt _ "url_path" JString urlPath (type "lovelace/config"))).
    { unfold LovelaceGetConfig, lovelaceConfigCmd. destruct urlPath; on_live Hlive. }
    destruct (LovelaceGetConfig dial decode ctx urlPath false bg pick c h)
      as [[[[resp|e]|msg|] c'] h']; try exact H.
    destruct (decodeConfig (Result resp)); destruct H as (s0 & s' & H1 & H2 & H3 & H4);
      exists s0, s'; (split; [exact H1|]); (split; [exact H2|]); (split; [exact H3|]);
      intros _; by apply H4.
  - intros urlPath config. unfold LovelaceSaveConfig, lovelaceSaveConfigCmd.
    destruct urlPath; on_live Hlive.
  - intros urlPath. unfold LovelaceDeleteConfig, lovelaceDeleteConfigCmd.
    destruct urlPath; on_live Hlive.
  - intros [urlPath title icon sidebar admin single].
    unfold LovelaceCreateDashboard, lovelaceDashboardsCreateCmd, omitemptyString, text.
    cbn [Create_URLPath Create_Title Create_Icon Create_ShowInSidebar Create_RequireAdmin
         Create_AllowSingleWord].
    destruct (String.eqb title ""), (String.eqb icon ""), sidebar, admin, single;
      on_live Hlive.
  - intros dashboardID [title icon sidebar admin single].
    unfold LovelaceUpdateDashboard, lovelaceDashboardsUpdateCmd.
    cbn [Update_Title Update_Icon Update_ShowInSidebar Update_RequireAdmin
         Update_AllowSingleWord].
    destruct title, icon, sidebar, admin, single; on_live Hlive.
  - intros dashboardID. unfold LovelaceDeleteDashboard, lovelaceDashboardsDeleteCmd.
    on_live Hlive.
Qed.

Lemma lovelace_frames_witness :
  let s := newWsConn (mkConn [] [] [] false) in
  let c := mkClient "http://localhost:8123" "secret" (Some s) in
  let dial := fun _ : string => Err (ErrorString "connection refused") in
  sendsFrame (LovelaceGetConfig dial (fun _ => None) None (Some "lovelace-home") true 0 0 c ∅) c
    (<["url_path" := JString "lovelace-home"]>
       (<["force" := JBool true]> {[ "type" := JString "lovelace/config" ]}))
  /\ sendsFrame (LovelaceGetConfigParsed dial (fun _ => None) (fun _ => None) None None 0 0 c ∅) c
       {[ "type" := JString "lovelace/config" ]}.
Proof.
  intros s c dial.
  assert (H : ws c = Some s /\ done s = false /\ writeSucceeds (conn s)).
  { split; [reflexivity|]. split; [reflexivity|]. split; [reflexivity|]. by left. }
  destruct H as (Hs & Hd & Hw).
  destruct (lovelace_frames dial (fun _ => None) None 0 0 c ∅ s Hs Hd Hw)
    as (_ & _ & Hget & Hparsed & _).
  split.
  - exact (Hget (Some "lovelace-home") true).
  - exact (Hparsed None (fun _ => None)).
Defined.

(** * Building a client *)

Section NewFacts.




End NewFacts.


(** * Query strings *)

Section QueryFacts.

Lemma escaped_byte (c : ascii) :
  let hi := upperhex (N.shiftr (N_of_ascii c) 4) in
  let lo := upperhex (N.land (N_of_ascii c) 15) in
  shouldEscape hi = false /\ shouldEscape lo = false.
Proof. destruct c as [[] [] [] [] [] [] [] []]; vm_compute; by split. Qed.

Lemma plain_byte (c : ascii) :
  shouldEscape c = false ->
  queryByte c = true /\ Ascii.eqb c "=" = false /\ Ascii.eqb c "&" = false.
Proof. destruct c as [[] [] [] [] [] [] [] []]; vm_compute; by repeat split. Qed.

Lemma QueryEscape_bytes (s : string) :
  strings.allBytes queryByte (QueryEscape s) = true
  /\ strings.Count (QueryEscape s) "=" = 0%nat
  /\ strings.Count (QueryEscape s) "&" = 0%nat.
Proof.
  induction s as [|c s (IHb & IHe & IHa)]; [done|].
  cbn [QueryEscape].
  destruct (Ascii.eqb c " ") eqn:Hsp.
  { cbn. by rewrite IHb, IHe, IHa. }
  destruct (shouldEscape c) eqn:Hesc.
  - destruct (escaped_byte c) as [Hhi Hlo].
    destruct (plain_byte _ Hhi) as (Hh1 & Hh2 & Hh3).
    destruct (plain_byte _ Hlo) as (Hl1 & Hl2 & Hl3).
    cbn [strings.allBytes strings.Count].
    rewrite Hh1, Hh2, Hh3, Hl1, Hl2, Hl3, IHb, IHe, IHa. done.
  - destruct (plain_byte _ Hesc) as (H1 & H2 & H3).
    cbn [strings.allBytes strings.Count]. by rewrite H1, H2, H3, IHb, IHe, IHa.
Qed.

Lemma encodePairs_bytes (kvs : list (string * string)) :
  strings.allBytes queryByte (encodePairs kvs) = true
  /\ strings.Count (encodePairs kvs) "=" = length kvs
  /\ strings.Count (encodePairs kvs) "&" = Nat.pred (length kvs).
Proof.
  induction kvs as [|[k v] kvs (IHb & IHe & IHa)]; [done|].
  destruct (QueryEscape_bytes k) as (Hk1 & Hk2 & Hk3).
  destruct (QueryEscape_bytes v) as (Hv1 & Hv2 & Hv3).
  destruct kvs as [|kv kvs].
  - cbn [encodePairs]. rewrite !allBytes_app, !Count_app, Hk1, Hk2, Hk3, Hv1, Hv2, Hv3. done.
  - change (encodePairs ((k, v) :: kv :: kvs))
      with (QueryEscape k +:+ "=" +:+ QueryEscape v +:+ "&" +:+ encodePairs (kv :: kvs)).
    rewrite !allBytes_app, !Count_app, Hk1, Hk2, Hk3, Hv1, Hv2, Hv3, IHb, IHe, IHa.
    cbn. split; [done|]. split; lia.
Qed.

End QueryFacts.

(** X24.  [buildQueryString] returns the empty string exactly when no
    parameter has a non-empty value.  Otherwise it returns a question mark
    followed by the non-empty parameters only, in the order of their keys,
    each key and value percent-encoded: the text after the question mark has
    only unreserved bytes and the bytes percent, plus, equals sign and
    ampersand, one equals sign for each non-empty parameter and one
    ampersand between two of them, so that no key or value can add a
    parameter or end the query. *)
Theorem buildQueryString_safe (params : gmap string string) :
  let q := buildQueryString params in
  (q = "" <-> forall k v, params !! k = Some v -> v = "")
  /\ (q <> "" ->
      exists kvs, q = "?" +:+ encodePairs kvs
        /\ (forall k v, (k, v) ∈ kvs <-> params !! k = Some v /\ v <> "")
        /\ NoDup kvs.*1
        /\ Sorted (fun a b => String.leb a b = true) kvs.*1
        /\ strings.allBytes queryByte (encodePairs kvs) = true
        /\ strings.Count (encodePairs kvs) "=" = length kvs
        /\ strings.Count (encodePairs kvs) "&" = Nat.pred (length kvs)).
Proof.
  intros q. subst q. unfold buildQueryString.
  set (values := filter (fun kv : string * string => kv.2 <> "") params).
  assert (Hvalues : forall k v, values !! k = Some v <-> params !! k = Some v /\ v <> "").
  { intros k v. unfold values. by rewrite map_lookup_filter_Some. }
  assert (Hempty : size values = 0%nat <-> forall k v, params !! k = Some v -> v = "").
  { rewrite map_size_empty_iff. split.
    - intros He k v Hk. destruct (decide (v = "")) as [|Hv]; [done|].
      assert (values !! k = Some v) as Hin by (apply Hvalues; done).
      rewrite He in Hin. by rewrite lookup_empty in Hin.
    - intros Hall. apply map_empty. intros k.
      destruct (values !! k) as [v|] eqn:Hk; [|done].
      apply Hvalues in Hk as [Hk Hv]. by destruct Hv, (Hall k v). }
  destruct (Nat.eqb_spec (size params) 0) as [Hp|Hp].
  { split; [|done]. split; [|done]. intros _ k v Hk.
    apply map_size_empty_iff in Hp. subst params. by rewrite lookup_empty in Hk. }
  destruct (Nat.eqb_spec (size values) 0) as [Hv|Hv].
  { split; [|done]. split; [|done]. intros _. by apply Hempty. }
  split.
  { split; [discriminate|]. intros Hall. by destruct Hv; apply Hempty. }
  intros _. exists (sortedFields values). unfold Encode.
  destruct (sortedFields_spec values) as (Hperm & Hnd & Hsorted).
  destruct (encodePairs_bytes (sortedFields values)) as (Hb & He & Ha).
  repeat match goal with |- _ /\ _ => split end; try done.
  intros k v. rewrite Hperm, elem_of_map_to_list. apply Hvalues.
Qed.

Section PathFacts.

Lemma leb_trans (s1 s2 s3 : string) :
  String.leb s1 s2 = true -> String.leb s2 s3 = true -> String.leb s1 s3 = true.
Proof.
  unfold String.leb. revert s2 s3.
  induction s1 as [|a s1 IH]; intros [|b s2] [|c s3]; cbn; try done.
  unfold Ascii.compare.
  destruct (N.compare_spec (N_of_ascii a) (N_of_ascii b)) as [Hab|Hab|Hab]; try done;
    destruct (N.compare_spec (N_of_ascii b) (N_of_ascii c)) as [Hbc|Hbc|Hbc]; try done;
    destruct (N.compare_spec (N_of_ascii a) (N_of_ascii c)) as [Hac|Hac|Hac];
    try done; try lia.
  apply IH.
Qed.

Lemma append_empty (s : string) : s +:+ "" = s.
Proof.
  induction s as [|a s IH]; [done|].
  change (String a s +:+ "") with (String a (s +:+ "")). by rewrite IH.
Qed.

#[local] Instance keyLe_trans {A} : Transitive (@keyLe A).
Proof. intros x y z. unfold keyLe. apply leb_trans. Qed.

Lemma buildQueryString_of_list (params : gmap string string) (kvs : list (string * string)) :
  Sorted keyLe kvs -> NoDup kvs.*1 ->
  (forall k v, (k, v) ∈ kvs <-> params !! k = Some v /\ v <> "") ->
  buildQueryString params = match kvs with [] => "" | _ => "?" +:+ encodePairs kvs end.
Proof.
  intros Hsorted Hnd Hkvs. unfold buildQueryString, Encode.
  set (values := filter (fun kv : string * string => kv.2 <> "") params).
  assert (Hvalues : forall k v, values !! k = Some v <-> params !! k = Some v /\ v <> "").
  { intros k v. unfold values. by rewrite map_lookup_filter_Some. }
  destruct (sortedFields_spec values) as (Hperm & Hnd' & _).
  assert (Hsame : kvs ≡ₚ sortedFields values).
  { apply NoDup_Permutation.
    - by apply NoDup_fmap_1 in Hnd.
    - by apply NoDup_fmap_1 in Hnd'.
    - intros [k v]. by rewrite Hperm, elem_of_map_to_list, Hkvs, Hvalues. }
  assert (Heq : kvs = sortedFields values).
  { apply (Sorted_unique_strong keyLe); [|done| |done].
    - intros [k1 v1] [k2 v2] H1 H2 Hle Hge. unfold keyLe in Hle, Hge. cbn in Hle, Hge.
      pose proof (String.leb_antisym _ _ Hle Hge) as ->.
      rewrite <- Hsame in H2. apply Hkvs in H1 as [H1 _]. apply Hkvs in H2 as [H2 _].
      congruence.
    - apply (@Sorted_merge_sort _ (@keyLe string) _ keyLe_total). }
  assert (Hlen : length kvs = size values).
  { by rewrite Hsame, Hperm, length_map_to_list. }
  rewrite <- Heq.
  destruct (Nat.eqb_spec (size params) 0) as [Hp|Hp].
  { apply map_size_empty_iff in Hp. subst params.
    destruct kvs as [|[k v] kvs]; [done|].
    assert ((k, v) ∈ (k, v) :: kvs) as Hin by left.
    apply Hkvs in Hin as [Hin _]. by rewrite lookup_empty in Hin. }
  destruct (Nat.eqb_spec (size values) 0) as [Hv|Hv].
  { rewrite Hv in Hlen. by destruct kvs. }
  destruct kvs; [by destruct Hv|done].
Qed.

End PathFacts.

(** X25.  The paths of [History], [Logbook] and [CalendarEvents].  Options
    that are nil, and options whose fields are all zero, give the same path
    with no query: a flag that is false is left out, never sent as false.  A
    field that is set is sent percent-encoded under its key, the keys in
    sorted order (end_time before entity, end before start), while the
    timestamp and the entity id are written into the path as they are. *)
Theorem query_paths (timestamp : string) :
  historyPath timestamp None = "/api/history/period/" +:+ timestamp
  /\ historyPath timestamp (Some (mkHistoryOptions "" None false false false))
     = "/api/history/period/" +:+ timestamp
  /\ (forall entity, entity <> "" ->
        historyPath timestamp (Some (mkHistoryOptions entity None false true false))
        = "/api/history/period/" +:+ timestamp +:+ "?filter_entity_id="
          +:+ QueryEscape entity +:+ "&no_attributes=true")
  /\ logbookPath timestamp None = "/api/logbook/" +:+ timestamp
  /\ logbookPath timestamp (Some (mkLogbookOptions "" None)) = "/api/logbook/" +:+ timestamp
  /\ (forall entity end_, entity <> "" -> end_ <> "" ->
        logbookPath timestamp (Some (mkLogbookOptions entity (Some end_)))
        = "/api/logbook/" +:+ timestamp +:+ "?end_time=" +:+ QueryEscape end_
          +:+ "&entity=" +:+ QueryEscape entity)
  /\ (forall entityID start end_, start <> "" -> end_ <> "" ->
        calendarEventsPath entityID start end_
        = "/api/calendars/" +:+ entityID +:+ "?end=" +:+ QueryEscape end_
          +:+ "&start=" +:+ QueryEscape start).
Proof.
  assert (Hnone : buildQueryString ∅ = "") by done.
  repeat match goal with |- _ /\ _ => split end.
  - unfold historyPath. by rewrite Hnone, append_empty.
  - unfold historyPath.
    rewrite (buildQueryString_of_list _ []);
      [by rewrite append_empty|constructor|constructor|].
    intros k v. split; [by intros ?%elem_of_nil|]. intros [Hk Hv]. destruct Hv.
    cbn in Hk. repeat (apply lookup_insert_Some in Hk as [[_ <-]|[_ Hk]]; [done|]).
    by rewrite lookup_empty in Hk.
  - intros entity He. unfold historyPath. f_equal. f_equal.
    rewrite (buildQueryString_of_list _
               [("filter_entity_id", entity); ("no_attributes", "true")]).
    + reflexivity.
    + repeat constructor.
    + apply (bool_decide_unpack _). vm_compute. exact I.
    + intros k v. cbn [boolToString formatTimePtr FilterEntityID History_EndTime
                         MinimalResponse NoAttributes SignificantChangesOnly].
      rewrite !elem_of_cons, elem_of_nil. split.
      * intros [[= -> ->]|[[= -> ->]|[]]]; (split; [|done]); done.
      * intros [Hk Hv].
        repeat (apply lookup_insert_Some in Hk as [[<- <-]|[_ Hk]]; [by auto|]).
        by rewrite lookup_empty in Hk.
  - unfold logbookPath. by rewrite Hnone, append_empty.
  - unfold logbookPath.
    rewrite (buildQueryString_of_list _ []);
      [by rewrite append_empty|constructor|constructor|].
    intros k v. split; [by intros ?%elem_of_nil|]. intros [Hk Hv]. destruct Hv.
    cbn in Hk. repeat (apply lookup_insert_Some in Hk as [[_ <-]|[_ Hk]]; [done|]).
    by rewrite lookup_empty in Hk.
  - intros entity end_ He Hend. unfold logbookPath. f_equal. f_equal.
    rewrite (buildQueryString_of_list _ [("end_time", end_); ("entity", entity)]).
    + reflexivity.
    + repeat constructor.
    + apply (bool_decide_unpack _). vm_compute. exact I.
    + intros k v. cbn [formatTimePtr formatTime Entity Logbook_EndTime].
      rewrite !elem_of_cons, elem_of_nil. split.
      * intros [[= -> ->]|[[= -> ->]|[]]]; (split; [|done]); done.
      * intros [Hk Hv].
        repeat (apply lookup_insert_Some in Hk as [[<- <-]|[_ Hk]]; [by auto|]).
        by rewrite lookup_empty in Hk.
  - intros entityID start end_ Hs He. unfold calendarEventsPath. f_equal.
    rewrite (buildQueryString_of_list _ [("end", end_); ("start", start)]).
    + reflexivity.
    + repeat constructor.
    + apply (bool_decide_unpack _). vm_compute. exact I.
    + intros k v. unfold formatTime.
      rewrite !elem_of_cons, elem_of_nil. split.
      * intros [[= -> ->]|[[= -> ->]|[]]]; (split; [|done]); done.
      * intros [Hk Hv].
        repeat (apply lookup_insert_Some in Hk as [[<- <-]|[_ Hk]]; [by auto|]).
        by rewrite lookup_empty in Hk.
Qed.

(** * Text responses *)

(** X26.  [doText] performs the same exchange as [doJSON] with a nil
    target: the same requests, and the same error whenever that fails.
    Where [doJSON] succeeds there was one request and a response, and
    [doText] returns the body of that response as it is, or the error of
    reading it, as a RequestError of the operation read response body. *)
Theorem doText_exchange (env : Env) (c : Client) (method path : string)
    (body : option bodyValue) :
  let t := doText env c method path body in
  let j := doJSON (A := unit) env c method path body None in
  t.1 = j.1
  /\ (forall e, j.2 = HErr e -> t.2 = HErr e)
  /\ (forall v, j.2 = HOk v ->
        exists req resp, t.1 = [req] /\ Do env req = Ok resp
          /\ 200 <= http.StatusCode resp < 300
          /\ match http.ReadErr resp with
             | Some e => t.2 = HErr (RequestError "read response body" e)
             | None => t.2 = HOk (http.Data resp)
             end)
  /\ (forall s, t.2 = HOk s -> exists v, j.2 = HOk v).
Proof.
  intros t j. subst t j. unfold doText, doJSON.
  destruct (doRequest_cases env c method path body)
    as [(e & _ & Hr)|[(e & _ & Hr)|(req & _ & _ & _ & _ & _ & _ & Hr)]].
  { rewrite Hr. cbn. repeat match goal with |- _ /\ _ => split end; first [done | by intros ? [= <-] | by intros ? [=]]. }
  { rewrite Hr. cbn. repeat match goal with |- _ /\ _ => split end; first [done | by intros ? [= <-] | by intros ? [=]]. }
  destruct Hr as [(e & Hdo & Hr)|(resp & Hdo & Hr)]; rewrite Hr.
  { cbn. repeat match goal with |- _ /\ _ => split end; first [done | by intros ? [= <-] | by intros ? [=]]. }
  destruct (checkResponse env resp) as [e|] eqn:Hck.
  { cbn. repeat match goal with |- _ /\ _ => split end; first [done | by intros ? [= <-] | by intros ? [=]]. }
  pose proof (proj1 (checkResponse_ok env resp) Hck) as Hrange.
  destruct (http.ReadErr resp) as [e|] eqn:Hread; cbn [fst snd].
  - repeat match goal with |- _ /\ _ => split end; try done.
    intros v _. exists req, resp. by rewrite Hread.
  - repeat match goal with |- _ /\ _ => split end; try done.
    + intros v _. exists req, resp. by rewrite Hread.
    + intros s _. by eexists.
Qed.
